(** * satmachineadmin: the Lamassu transaction processor

    A shallow embedding of [transaction_processor.py]
    (class [LamassuTransactionProcessor]) and the properties of its
    polling, decomposition, allocation and settlement code.

    - Python [float] is IEEE-754 binary64; it is modelled by the Standard
      Library's executable specification [SpecFloat] at precision 53 and
      maximal exponent 1024, so every rounding is the one CPython performs.
    - Python [int] is [Z].
    - A [datetime] is its reading in microseconds and the offset of its
      zone; arithmetic that leaves the range of [datetime] raises
      [OverflowError], as in CPython.
    - [async def] bodies run sequentially (no task is spawned), so a
      coroutine is a program in the monad [Prog] below: it returns, raises,
      or calls a collaborator ([crud], [lnbits], the ssh subprocess) and
      continues with the collaborator's answer.  [try/except Exception] is
      [try_catch].
    - Log statements are not modelled. *)

From Stdlib Require Import ZArith List String Ascii Bool Lia.
From Stdlib Require Import QArith Qpower Lqa.
From Stdlib Require Import SpecFloat.
Import ListNotations.

Open Scope string_scope.
Open Scope list_scope.
Open Scope Z_scope.

(* ================================================================== *)
(** * Python values *)

(** ** Exceptions *)

Inductive exn_kind :=
| NameError | KeyError | TypeError | ValueError
| ZeroDivisionError | OverflowError | RuntimeError.

(** An exception caught by [except Exception as e]; [exn_msg] is [str(e)]. *)
Record exn := Exn { exn_class : exn_kind; exn_msg : string }.

Inductive result (A : Type) : Type :=
| Ok (a : A)
| Err (e : exn).
Arguments Ok {A} a.
Arguments Err {A} e.

Definition rbind {A B} (r : result A) (f : A -> result B) : result B :=
  match r with
  | Ok a => f a
  | Err e => Err e
  end.

Declare Scope result_scope.
Delimit Scope result_scope with result.
Notation "'let?' x ':=' r 'in' k" := (rbind r (fun x => k))
  (at level 10, x name, r at level 100, k at level 200) : result_scope.

(** ** Floats *)

Module PyFloat.

Definition prec : Z := 53.
Definition emax : Z := 1024.

Definition float := spec_float.

Definition zero : float := S754_zero false.
Definition is_zero (x : float) : bool :=
  match x with S754_zero _ => true | _ => false end.

Definition add : float -> float -> float := SFadd prec emax.
Definition sub : float -> float -> float := SFsub prec emax.
Definition mul : float -> float -> float := SFmul prec emax.
Definition ieee_div : float -> float -> float := SFdiv prec emax.
Definition ltb : float -> float -> bool := SFltb.
Definition eqb : float -> float -> bool := SFeqb.

(** [float(n)] for an int [n]: the nearest double, ties to even;
    [OverflowError] when it is out of range. *)
Definition of_int (n : Z) : result float :=
  match binary_normalize prec emax n 0 false with
  | S754_infinity _ => Err (Exn OverflowError "int too large to convert to float")
  | x => Ok x
  end.

(** A small int literal such as [100] or [1] in a float expression. *)
Definition lit (n : Z) : float := binary_normalize prec emax n 0 false.

(** [x / y] on floats: [ZeroDivisionError] on a zero divisor, else IEEE. *)
Definition div (x y : float) : result float :=
  if is_zero y then Err (Exn ZeroDivisionError "float division by zero")
  else Ok (ieee_div x y).

(** [a / b] on ints (true division): the correctly rounded quotient of the
    two integers, [ZeroDivisionError] on [b = 0], [OverflowError] when the
    quotient is out of the range of a double. *)
Definition int_truediv (a b : Z) : result float :=
  let raw (n : Z) : float :=
    match n with
    | Z0 => S754_zero false
    | Zpos p => S754_finite false p 0
    | Zneg p => S754_finite true p 0
    end in
  match b with
  | Z0 => Err (Exn ZeroDivisionError "division by zero")
  | _ =>
      match ieee_div (raw a) (raw b) with
      | S754_infinity _ =>
          Err (Exn OverflowError "integer division result too large for a float")
      | q => Ok q
      end
  end.

(** [int(x)] on a float: truncation toward zero. *)
Definition to_int (x : float) : result Z :=
  match x with
  | S754_zero _ => Ok 0
  | S754_nan => Err (Exn ValueError "cannot convert float NaN to integer")
  | S754_infinity _ => Err (Exn OverflowError "cannot convert float infinity to integer")
  | S754_finite s m e =>
      let a := match e with
               | Z0 => Zpos m
               | Zpos p => Zpos m * Z.pow_pos 2 p
               | Zneg p => Zpos m / Z.pow_pos 2 p
               end in
      Ok (if s then - a else a)
  end.

(** [x > 0] and truthiness ([bool(x)], true for NaN). *)
Definition gt0 (x : float) : bool := ltb zero x.
Definition truthy (x : float) : bool := negb (is_zero x).

End PyFloat.

Abbreviation float := PyFloat.float.

(** A value that is an [int] on one path and a [float] on another
    (the exchange rate: [base / fiat if fiat > 0 else 0]). *)
Inductive pynum :=
| PInt (n : Z)
| PFloat (x : float).

Definition pynum_gt0 (v : pynum) : bool :=
  match v with
  | PInt n => 0 <? n
  | PFloat x => PyFloat.gt0 x
  end.

(** [n / v] for an int [n]. *)
Definition int_div_pynum (n : Z) (v : pynum) : result float :=
  match v with
  | PInt d => PyFloat.int_truediv n d
  | PFloat y => (let? x := PyFloat.of_int n in PyFloat.div x y)%result
  end.

(** ** Strings *)

(** Truthiness of an [Optional[str]]: [None] and [""] are falsy. *)
Definition truthy_str (s : option string) : bool :=
  match s with
  | None | Some "" => false
  | Some _ => true
  end.

(** [needle in hay]. *)
Fixpoint contains (needle hay : string) : bool :=
  String.prefix needle hay ||
  match hay with
  | EmptyString => false
  | String _ rest => contains needle rest
  end.

(** [s.lower()] on the ASCII letters. *)
Definition lower_ascii (c : ascii) : ascii :=
  let n := nat_of_ascii c in
  if (Nat.leb 65 n && Nat.leb n 90)%bool then ascii_of_nat (n + 32) else c.

Fixpoint lower (s : string) : string :=
  match s with
  | EmptyString => EmptyString
  | String c rest => String (lower_ascii c) (lower rest)
  end.

(** ** Datetimes *)

(** A [datetime]: its wall-clock reading (microseconds since the epoch of
    its own zone) and the zone's offset from UTC, in microseconds;
    [tzinfo = None] is a naive datetime.  [timezone.utc] is offset 0. *)
Record datetime := { wall_clock : Z; tzinfo : option Z }.

(** The readings a [datetime] can hold: from [datetime.min]
    (0001-01-01 00:00:00) to [datetime.max] (9999-12-31 23:59:59.999999). *)
Definition datetime_min : Z := -62135596800000000.
Definition datetime_max : Z := 253402300799999999.

Definition representable (reading : Z) : bool :=
  (datetime_min <=? reading) && (reading <=? datetime_max).

(** [dt + timedelta(microseconds=delta)]: [OverflowError] when the
    reading leaves the range. *)
Definition add_timedelta (dt : datetime) (delta : Z) : result datetime :=
  let reading := wall_clock dt + delta in
  if representable reading
  then Ok {| wall_clock := reading; tzinfo := tzinfo dt |}
  else Err (Exn OverflowError "date value out of range").

Definition replace_tzinfo_utc (dt : datetime) : datetime :=
  {| wall_clock := wall_clock dt; tzinfo := Some 0 |}.

(** [dt.astimezone(timezone.utc)] for an aware [dt] at offset [off]:
    [(dt - off).replace(tzinfo=timezone.utc)]. *)
Definition astimezone_utc (dt : datetime) (off : Z) : result datetime :=
  (let? utc := add_timedelta dt (- off) in Ok (replace_tzinfo_utc utc))%result.

(** The recurring normalisation
    [if dt.tzinfo is None: dt = dt.replace(tzinfo=utc)
     elif dt.tzinfo != utc: dt = dt.astimezone(utc)]. *)
Definition normalize_utc (dt : datetime) : result datetime :=
  match tzinfo dt with
  | None => Ok (replace_tzinfo_utc dt)
  | Some off => if off =? 0 then Ok dt else astimezone_utc dt off
  end.

(** The same for a value that may be [None] (lines 621-632):
    [if transaction_time is not None: ...]. *)
Definition normalize_if_present (dt : option datetime) : result (option datetime) :=
  match dt with
  | None => Ok None
  | Some dt => (let? dt := normalize_utc dt in Ok (Some dt))%result
  end.

(** [dt.strftime('%Y-%m-%d %H:%M:%S UTC')]: the reading down to the
    second (the microseconds are not printed) followed by the label UTC.
    The datetime that the text denotes stands for the text. *)
Definition strftime_seconds_utc (dt : datetime) : datetime :=
  {| wall_clock := wall_clock dt / 1000000 * 1000000; tzinfo := Some 0 |}.

(** ** Dictionaries keyed by strings, in insertion order *)

Definition dict (V : Type) := list (string * V).

(** [d[k] = v]: overwrite in place, or append. *)
Fixpoint dict_set {V} (d : dict V) (k : string) (v : V) : dict V :=
  match d with
  | [] => [(k, v)]
  | (k', v') :: rest =>
      if String.eqb k' k then (k', v) :: rest else (k', v') :: dict_set rest k v
  end.

(* ================================================================== *)
(** * Data model *)

(** Modelled from the spec: [models.py] is not among the sources.  The
    records below carry the fields the processor reads or writes, with the
    types of spec section 3 and 6. *)

(** The active configuration record ([LamassuConfig]). *)
Record LamassuConfig := {
  cfg_id : string;
  cfg_host : string;
  cfg_port : Z;
  cfg_database_name : string;
  cfg_username : string;
  cfg_password : string;
  cfg_use_ssh_tunnel : bool;
  cfg_ssh_host : option string;
  cfg_ssh_port : Z;
  cfg_ssh_username : option string;
  cfg_ssh_password : option string;
  cfg_ssh_private_key : option string;
  cfg_source_wallet_id : option string;
  cfg_commission_wallet_id : option string;
  cfg_last_poll_time : option datetime;
  cfg_last_successful_poll : option datetime;
  cfg_test_connection_success : option bool
}.

(** The dictionary built by [get_db_config]. *)
Record DbConfig := {
  host : string;
  port : Z;
  database : string;
  user : string;
  password : string;
  config_id : string;
  use_ssh_tunnel : bool;
  ssh_host : option string;
  ssh_port : Z;
  ssh_username : option string;
  ssh_password : option string;
  ssh_private_key : option string
}.

(** A row of the remote ledger as [execute_ssh_query] types it: every key
    of the select list is present; an empty cell is [None]. *)
Record Transaction := {
  tx_transaction_id : option string;
  tx_fiat_amount : option Z;
  tx_crypto_amount : option Z;
  tx_transaction_time : option datetime;
  tx_device_id : option string;
  tx_status : option string;
  tx_commission_percentage : option float;
  tx_discount : option float;
  tx_crypto_code : option string;
  tx_fiat_code : option string
}.

Record DcaClient := {
  c_id : string;
  c_wallet_id : string;
  c_username : option string;
  c_user_id : string
}.

Record ClientBalanceSummary := { remaining_balance : Z }.

Record Wallet := { w_id : string }.

(** One entry of the distribution mapping. *)
Record Distribution := {
  d_fiat_amount : Z;
  d_sats_amount : Z;
  d_exchange_rate : pynum
}.

Record CreateDcaPaymentData := {
  pay_client_id : string;
  pay_amount_sats : Z;
  pay_amount_fiat : Z;
  pay_exchange_rate : pynum;
  pay_transaction_type : string;
  pay_lamassu_transaction_id : option string;
  pay_transaction_time : option datetime
}.

Record DcaPayment := {
  p_id : string;
  p_data : CreateDcaPaymentData;
  p_status : string
}.

Record CreateLamassuTransactionData := {
  lt_lamassu_transaction_id : option string;
  lt_fiat_amount : option Z;
  lt_crypto_amount : option Z;
  lt_commission_percentage : float;
  lt_discount : float;
  lt_effective_commission : float;
  lt_commission_amount_sats : Z;
  lt_base_amount_sats : option Z;
  lt_exchange_rate : pynum;
  lt_crypto_code : option string;
  lt_fiat_code : option string;
  lt_device_id : option string;
  lt_transaction_time : option datetime
}.

Record StoredTransaction := {
  st_id : string;
  st_data : CreateLamassuTransactionData;
  st_clients_count : option Z;
  st_distributions_total_sats : option Z
}.

(** The memo and the [extra] tags handed to [create_invoice] and
    [pay_invoice]; the memo's numbers are kept, not its formatting. *)
Inductive Memo :=
| DcaMemo (amount_sats fiat : Z) (cost_basis_per_btc : option float)
| CommissionMemo (commission_sats : Z) (percentage : float) (fiat : Z).

Inductive Extra :=
| DcaDistribution (client : string) (txid : option string) (amount : Z)
| DcaCommission (txid : option string) (amount : Z)
| DcaCommissionPayment (txid : option string).

Record Invoice := { bolt11 : string }.

(** The queries the processor sends through [execute_ssh_query]. *)
Inductive Query :=
| SelectOne
| CountCashOutTxs
| DbTimezone
| NewCashOutTxs (time_threshold_str : datetime).

(* ================================================================== *)
(** * Collaborators and coroutines *)

(** The calls that leave the processor: [crud], [lnbits.core], the clock
    and the ssh subprocesses. *)
Inductive call :=
| get_active_lamassu_config
| update_config_test_result (config : string) (success : bool)
| update_poll_start_time (config : string)
| update_poll_success_time (config : string)
| get_flow_mode_clients
| get_client_balance_summary (client : string) (as_of_time : option datetime)
| get_payments_by_lamassu_transaction (txid : option string)
| get_all_payments
| create_dca_payment (data : CreateDcaPaymentData)
| update_dca_payment_status (payment : string) (new_status : string)
| create_lamassu_transaction (data : CreateLamassuTransactionData)
| update_lamassu_transaction_distribution_stats
    (stored : string) (clients_count : Z) (distributions_total_sats : Z)
| get_wallet (wallet : string)
| update_wallet_balance (wallet : Wallet) (amount : option Z)
| create_invoice (wallet : string) (amount : Z) (memo : Memo) (extra : Extra)
| pay_invoice (payment_request : string) (wallet : string)
    (description : Memo) (extra : Extra)
| datetime_now_utc
| open_ssh_tunnel_subprocess (db_config : DbConfig)
| close_ssh_tunnel_subprocess
| run_psql_over_ssh (db_config : DbConfig) (query : Query).

(** What each call answers when it does not raise. *)
Definition resp (c : call) : Type :=
  match c with
  | get_active_lamassu_config => option LamassuConfig
  | update_config_test_result _ _ => unit
  | update_poll_start_time _ => unit
  | update_poll_success_time _ => unit
  | get_flow_mode_clients => list DcaClient
  | get_client_balance_summary _ _ => ClientBalanceSummary
  | get_payments_by_lamassu_transaction _ => list DcaPayment
  | get_all_payments => list DcaPayment
  | create_dca_payment _ => DcaPayment
  | update_dca_payment_status _ _ => unit
  | create_lamassu_transaction _ => StoredTransaction
  | update_lamassu_transaction_distribution_stats _ _ _ => unit
  | get_wallet _ => option Wallet
  | update_wallet_balance _ _ => unit
  | create_invoice _ _ _ _ => option Invoice
  | pay_invoice _ _ _ _ => unit
  | datetime_now_utc => datetime
  | open_ssh_tunnel_subprocess _ => option DbConfig
  | close_ssh_tunnel_subprocess => unit
  | run_psql_over_ssh _ _ => list Transaction
  end.

(** A coroutine returning an [A]. *)
Inductive Prog (A : Type) : Type :=
| Ret (a : A)
| Raise (e : exn)
| Call (c : call) (k : result (resp c) -> Prog A).
Arguments Ret {A} a.
Arguments Raise {A} e.
Arguments Call {A} c k.

Fixpoint bind {A B} (p : Prog A) (f : A -> Prog B) : Prog B :=
  match p with
  | Ret a => f a
  | Raise e => Raise e
  | Call c k => Call c (fun r => bind (k r) f)
  end.

(** [try: p  except Exception as e: h e]. *)
Fixpoint try_catch {A} (p : Prog A) (h : exn -> Prog A) : Prog A :=
  match p with
  | Ret a => Ret a
  | Raise e => h e
  | Call c k => Call c (fun r => try_catch (k r) h)
  end.

(** [await c]: the answer, or the exception the collaborator raised. *)
Definition await (c : call) : Prog (resp c) :=
  Call c (fun r => match r with Ok v => Ret v | Err e => Raise e end).

(** A pure computation that may raise. *)
Definition lift {A} (r : result A) : Prog A :=
  match r with
  | Ok a => Ret a
  | Err e => Raise e
  end.

(** Reading a name that no enclosing scope binds. *)
Definition unbound_name {A} (name : string) : Prog A :=
  Raise (Exn NameError ("name '" ++ name ++ "' is not defined")).

Declare Scope prog_scope.
Delimit Scope prog_scope with prog.
Notation "x <- p ;; q" := (bind p (fun x => q))
  (at level 61, p at next level, right associativity) : prog_scope.
Notation "p ;; q" := (bind p (fun _ => q))
  (at level 61, right associativity) : prog_scope.
Open Scope prog_scope.

(** ** Running a coroutine against its collaborators *)

(** One call with the answer it got. *)
Record event := Event { ev_call : call; ev_answer : result (resp ev_call) }.

(** The collaborators: a state and, for every call, an answer and the
    state after it. *)
Definition handler (W : Type) := forall c : call, W -> result (resp c) * W.

Record outcome (W A : Type) := Outcome {
  returned : result A;
  final : W;
  trace : list event
}.
Arguments Outcome {W A}.
Arguments returned {W A}.
Arguments final {W A}.
Arguments trace {W A}.

Fixpoint run {W A} (h : handler W) (p : Prog A) (w : W) : outcome W A :=
  match p with
  | Ret a => Outcome (Ok a) w []
  | Raise e => Outcome (Err e) w []
  | Call c k =>
      let (r, w1) := h c w in
      let o := run h (k r) w1 in
      Outcome (returned o) (final o) (Event c r :: trace o)
  end.

(** The calls of a trace, without their answers. *)
Definition calls (t : list event) : list call := map ev_call t.

(** Whether a call was answered, or raised. *)
Definition answered_ok {A} (r : result A) : bool :=
  match r with Ok _ => true | Err _ => false end.

Definition answered (ev : event) : bool := answered_ok (ev_answer ev).

(* ================================================================== *)
(** * LamassuTransactionProcessor: connection and diagnostics *)

(** [get_db_config] (lines 55-79). *)
Definition get_db_config : Prog (option DbConfig) :=
  try_catch
    (config <- await get_active_lamassu_config ;;
     match config with
     | None => Ret None
     | Some config =>
         Ret (Some {| host := cfg_host config;
                      port := cfg_port config;
                      database := cfg_database_name config;
                      user := cfg_username config;
                      password := cfg_password config;
                      config_id := cfg_id config;
                      use_ssh_tunnel := cfg_use_ssh_tunnel config;
                      ssh_host := cfg_ssh_host config;
                      ssh_port := cfg_ssh_port config;
                      ssh_username := cfg_ssh_username config;
                      ssh_password := cfg_ssh_password config;
                      ssh_private_key := cfg_ssh_private_key config |})
     end)
    (fun _ => Ret None).

(** [close_ssh_tunnel] (lines 231-268): every step sits in its own
    [try/except], so nothing escapes. *)
Definition close_ssh_tunnel : Prog unit :=
  try_catch (await close_ssh_tunnel_subprocess) (fun _ => Ret tt).

(** [setup_ssh_tunnel] (lines 81-100); [_setup_subprocess_ssh_tunnel] is
    the call [open_ssh_tunnel_subprocess]. *)
Definition setup_ssh_tunnel (SSH_AVAILABLE : bool) (db_config : DbConfig)
  : Prog (option DbConfig) :=
  if negb (use_ssh_tunnel db_config) then Ret (Some db_config)
  else if negb SSH_AVAILABLE then Ret None
  else
    try_catch
      (close_ssh_tunnel ;;
       await (open_ssh_tunnel_subprocess db_config))
      (fun _ => close_ssh_tunnel ;; Ret None).

(** [execute_ssh_query] (lines 399-533): the subprocess, the CSV parsing
    and the coercion of the cells are the call [run_psql_over_ssh]. *)
Definition execute_ssh_query (db_config : DbConfig) (query : Query)
  : Prog (list Transaction) :=
  try_catch
    (if truthy_str (ssh_private_key db_config)
     then await (run_psql_over_ssh db_config query)
     else Ret [])
    (fun _ => Ret []).

(** The lines of the diagnostic report. *)
Inductive step :=
| RetrievingConfiguration
| NoConfigurationFound
| ConfigurationRetrieved
| SettingUpTunnel
| SshSupportMissing
| SshTunnelFailed
| SshTunnelEstablished (to_host : option string) (to_port : Z)
| DirectConnection
| TestingQuery
| QueryTestFailed
| QueryTestSuccessful
| TestingTableAccess
| TableAccessFailed
| TableAccessSuccessful
| CheckingTimezone
| DatabaseTime
| TimezoneUnknown
| TableMissing
| SshError (error_msg : string)
| SshAuthenticationError (error_msg : string)
| UnexpectedError (error_msg : string).

(** The dictionary [result] of [test_connection_detailed]. *)
Record TestResult := {
  success : bool;
  message : string;
  steps : list step;
  ssh_tunnel_used : bool;
  ssh_tunnel_success : bool;
  database_connection_success : bool;
  result_config_id : option string
}.

Definition with_step (result : TestResult) (s : step) : TestResult :=
  {| success := success result;
     message := message result;
     steps := steps result ++ [s];
     ssh_tunnel_used := ssh_tunnel_used result;
     ssh_tunnel_success := ssh_tunnel_success result;
     database_connection_success := database_connection_success result;
     result_config_id := result_config_id result |}.

Definition with_message (result : TestResult) (m : string) : TestResult :=
  {| success := success result;
     message := m;
     steps := steps result;
     ssh_tunnel_used := ssh_tunnel_used result;
     ssh_tunnel_success := ssh_tunnel_success result;
     database_connection_success := database_connection_success result;
     result_config_id := result_config_id result |}.

Definition with_flags (result : TestResult)
  (ok used tunnel db : bool) (cid : option string) : TestResult :=
  {| success := ok;
     message := message result;
     steps := steps result;
     ssh_tunnel_used := used;
     ssh_tunnel_success := tunnel;
     database_connection_success := db;
     result_config_id := cid |}.

(** The [except Exception as e] clause of [test_connection_detailed]
    (lines 357-370). *)
Definition classify_error (result : TestResult) (e : exn) : TestResult :=
  let error_msg := exn_msg e in
  if contains "cash_out_txs" error_msg then
    with_step
      (with_message result "Connected to database but cash_out_txs table not found")
      TableMissing
  else if contains "ssh" (lower error_msg) || contains "connection" (lower error_msg) then
    with_step (with_message result ("SSH connection error: " ++ error_msg))
      (SshError error_msg)
  else if contains "permission denied" (lower error_msg)
          || contains "authentication" (lower error_msg) then
    with_step (with_message result ("SSH authentication failed: " ++ error_msg))
      (SshAuthenticationError error_msg)
  else
    with_step (with_message result ("Connection test failed: " ++ error_msg))
      (UnexpectedError error_msg).

(** How the [try] block of [test_connection_detailed] is left: by a
    [return result] inside it, or by reaching its end or its [except]
    clause, after which the code below the block runs. *)
Inductive exit (A : Type) :=
| Returned (a : A)
| FellThrough (a : A).
Arguments Returned {A} a.
Arguments FellThrough {A} a.

(** A coroutine awaited inside that [try] while the report is [result]:
    an exception goes to the [except] clause. *)
Definition attempt {A} (result : TestResult) (p : Prog A)
  (k : A -> Prog (exit TestResult)) : Prog (exit TestResult) :=
  r <- try_catch (a <- p ;; Ret (inl a)) (fun e => Ret (inr e)) ;;
  match r with
  | inl a => k a
  | inr e => Ret (FellThrough (classify_error result e))
  end.

(** [test_connection_detailed] (lines 270-379). *)
Definition test_connection_detailed (SSH_AVAILABLE : bool) : Prog TestResult :=
  let result :=
    {| success := false; message := ""; steps := [];
       ssh_tunnel_used := false; ssh_tunnel_success := false;
       database_connection_success := false; result_config_id := None |} in
  left <-
    (let result := with_step result RetrievingConfiguration in
     attempt result get_db_config (fun db_config =>
     match db_config with
     | None =>
         Ret (Returned
                (with_step
                   (with_message result "No active Lamassu database configuration found")
                   NoConfigurationFound))
     | Some db_config =>
         let result :=
           with_flags result (success result) (ssh_tunnel_used result)
             (ssh_tunnel_success result) (database_connection_success result)
             (Some (config_id db_config)) in
         let result := with_step result ConfigurationRetrieved in
         (* Step 2: the tunnel, when the configuration asks for one *)
         let tunnel (k : TestResult -> Prog (exit TestResult)) :=
           if use_ssh_tunnel db_config then
             let result :=
               with_flags result (success result) true (ssh_tunnel_success result)
                 (database_connection_success result) (result_config_id result) in
             let result := with_step result SettingUpTunnel in
             if negb SSH_AVAILABLE then
               Ret (Returned
                      (with_step
                         (with_message result
                            "SSH tunnel required but SSH support not available")
                         SshSupportMissing))
             else
               attempt result (setup_ssh_tunnel SSH_AVAILABLE db_config)
                 (fun connection_config =>
                  match connection_config with
                  | None =>
                      Ret (Returned
                             (with_step
                                (with_message result "Failed to establish SSH tunnel")
                                SshTunnelFailed))
                  | Some _ =>
                      let result :=
                        with_flags result (success result) (ssh_tunnel_used result) true
                          (database_connection_success result) (result_config_id result) in
                      k (with_step result
                           (SshTunnelEstablished (ssh_host db_config) (ssh_port db_config)))
                  end)
           else k (with_step result DirectConnection) in
         tunnel (fun result =>
         (* Step 3: a trivial query *)
         let result := with_step result TestingQuery in
         attempt result (execute_ssh_query db_config SelectOne) (fun test_results =>
         match test_results with
         | [] =>
             Ret (Returned
                    (with_step
                       (with_message result
                          "SSH connection succeeded but database query failed")
                       QueryTestFailed))
         | _ :: _ =>
             let result :=
               with_flags result (success result) (ssh_tunnel_used result)
                 (ssh_tunnel_success result) true (result_config_id result) in
             let result := with_step result QueryTestSuccessful in
             (* Step 4: the table *)
             let result := with_step result TestingTableAccess in
             attempt result (execute_ssh_query db_config CountCashOutTxs)
               (fun table_results =>
             match table_results with
             | [] =>
                 Ret (Returned
                        (with_step
                           (with_message result
                              "Connected but cash_out_txs table not accessible")
                           TableAccessFailed))
             | _ :: _ =>
                 let result := with_step result TableAccessSuccessful in
                 (* Step 5: the clock of the database *)
                 let result := with_step result CheckingTimezone in
                 attempt result (execute_ssh_query db_config DbTimezone)
                   (fun timezone_results =>
                 let result :=
                   match timezone_results with
                   | _ :: _ => with_step result DatabaseTime
                   | [] => with_step result TimezoneUnknown
                   end in
                 let result :=
                   with_flags result true (ssh_tunnel_used result)
                     (ssh_tunnel_success result) (database_connection_success result)
                     (result_config_id result) in
                 Ret (FellThrough
                        (with_message result "All connection tests passed successfully")))
             end)
         end))
     end)) ;;
  match left with
  | Returned result => Ret result
  | FellThrough result =>
      (* Update test result in database *)
      (if truthy_str (result_config_id result)
       then
         match result_config_id result with
         | Some cid =>
             try_catch (await (update_config_test_result cid (success result)))
               (fun _ => Ret tt)
         | None => Ret tt
         end
       else Ret tt) ;;
      Ret result
  end.

(** [connect_to_lamassu_db] (lines 381-397). *)
Definition connect_to_lamassu_db : Prog (option DbConfig) :=
  try_catch
    (db_config <- get_db_config ;;
     match db_config with
     | None => Ret None
     | Some db_config =>
         (* Update test result on successful config retrieval *)
         try_catch (await (update_config_test_result (config_id db_config) true))
           (fun _ => Ret tt) ;;
         Ret (Some db_config)
     end)
    (fun _ => Ret None).

(* ================================================================== *)
(** * LamassuTransactionProcessor: reading the ledger *)

(** [timedelta(hours=24)], in microseconds. *)
Definition hours_24 : Z := 24 * 3600 * 1000000.

Definition option_string_eqb (a b : option string) : bool :=
  match a, b with
  | Some x, Some y => String.eqb x y
  | None, None => true
  | _, _ => false
  end.

(** [fetch_new_transactions] (lines 535-603). *)
Definition fetch_new_transactions (db_config : DbConfig) : Prog (list Transaction) :=
  try_catch
    (config <- await get_active_lamassu_config ;;
     time_threshold <-
       match config with
       | Some {| cfg_last_successful_poll := Some t |} => Ret t
       | _ =>
           now <- await datetime_now_utc ;;
           lift (add_timedelta now (- hours_24))
       end ;;
     (* Convert to UTC if not already timezone-aware *)
     time_threshold <- lift (normalize_utc time_threshold) ;;
     (* Format as UTC for database query *)
     let time_threshold_str := strftime_seconds_utc time_threshold in
     all_transactions <- execute_ssh_query db_config (NewCashOutTxs time_threshold_str) ;;
     processed_payments <- await get_all_payments ;;
     let processed_transaction_ids :=
       map (fun payment => pay_lamassu_transaction_id (p_data payment))
         (filter (fun payment => truthy_str (pay_lamassu_transaction_id (p_data payment)))
            processed_payments) in
     let new_transactions :=
       filter
         (fun tx =>
            negb (existsb (option_string_eqb (tx_transaction_id tx))
                    processed_transaction_ids))
         all_transactions in
     Ret new_transactions)
    (fun _ => Ret []).

(* ================================================================== *)
(** * LamassuTransactionProcessor: decomposition and allocation *)

(** The commission block when [commission_percentage > 0]
    (lines 654-659, again 892-894 and 1018-1020):
    [effective_commission = commission_percentage * (100 - discount) / 100],
    [base_crypto_atoms = int(crypto_atoms / (1 + effective_commission))],
    [commission_amount_sats = crypto_atoms - base_crypto_atoms]. *)
Definition effective_commission_of (commission_percentage discount : float)
  : result float :=
  PyFloat.div
    (PyFloat.mul commission_percentage (PyFloat.sub (PyFloat.lit 100) discount))
    (PyFloat.lit 100).

Definition base_crypto_atoms_of (crypto_atoms : Z) (effective_commission : float)
  : result Z :=
  (let? atoms := PyFloat.of_int crypto_atoms in
   let? quotient := PyFloat.div atoms (PyFloat.add (PyFloat.lit 1) effective_commission) in
   PyFloat.to_int quotient)%result.

(** The values the decomposition binds: [effective_commission],
    [base_crypto_atoms], [commission_amount_sats], [exchange_rate]. *)
Record Decomposition := {
  effective_commission : float;
  base_crypto_atoms : Z;
  commission_amount_sats : Z;
  exchange_rate : pynum
}.

(** Lines 652-666 of [calculate_distribution_amounts]. *)
Definition decompose (crypto_atoms fiat_amount : Z)
  (commission_percentage discount : float) : result Decomposition :=
  (let? split :=
     if PyFloat.gt0 commission_percentage then
       let? effective_commission :=
         effective_commission_of commission_percentage discount in
       let? base_crypto_atoms :=
         base_crypto_atoms_of crypto_atoms effective_commission in
       Ok (effective_commission, base_crypto_atoms, crypto_atoms - base_crypto_atoms)
     else
       Ok (PyFloat.zero, crypto_atoms, 0) in
   let '(effective_commission, base_crypto_atoms, commission_amount_sats) := split in
   let? exchange_rate :=
     if 0 <? fiat_amount
     then (let? rate := PyFloat.int_truediv base_crypto_atoms fiat_amount in
           Ok (PFloat rate))
     else Ok (PInt 0) in
   Ok {| effective_commission := effective_commission;
         base_crypto_atoms := base_crypto_atoms;
         commission_amount_sats := commission_amount_sats;
         exchange_rate := exchange_rate |})%result.

(** The first loop of [calculate_distribution_amounts] (lines 677-685):
    the balances of the clients, as of [transaction_time], and their sum. *)
Fixpoint collect_balances (transaction_time : option datetime)
  (flow_clients : list DcaClient) (client_balances : dict Z)
  (total_confirmed_deposits : Z) : Prog (dict Z * Z) :=
  match flow_clients with
  | [] => Ret (client_balances, total_confirmed_deposits)
  | client :: rest =>
      balance <- await (get_client_balance_summary (c_id client) transaction_time) ;;
      if 0 <? remaining_balance balance then
        collect_balances transaction_time rest
          (dict_set client_balances (c_id client) (remaining_balance balance))
          (total_confirmed_deposits + remaining_balance balance)
      else
        collect_balances transaction_time rest client_balances total_confirmed_deposits
  end.

(** The body of the second loop (lines 695-709): one client's share. *)
Definition client_share (base_crypto_atoms : Z) (exchange_rate : pynum)
  (client_balance total_confirmed_deposits : Z) : result Distribution :=
  (let? proportion := PyFloat.int_truediv client_balance total_confirmed_deposits in
   let? base := PyFloat.of_int base_crypto_atoms in
   let? client_sats_amount := PyFloat.to_int (PyFloat.mul base proportion) in
   let? client_fiat_amount :=
     if pynum_gt0 exchange_rate
     then (let? q := int_div_pynum client_sats_amount exchange_rate in PyFloat.to_int q)
     else Ok 0 in
   Ok {| d_fiat_amount := client_fiat_amount;
         d_sats_amount := client_sats_amount;
         d_exchange_rate := exchange_rate |})%result.

(** The second loop (lines 692-711). *)
Fixpoint share_out (base_crypto_atoms : Z) (exchange_rate : pynum)
  (total_confirmed_deposits : Z) (client_balances : dict Z)
  (distributions : dict Distribution) : result (dict Distribution) :=
  match client_balances with
  | [] => Ok distributions
  | (client, client_balance) :: rest =>
      (let? d := client_share base_crypto_atoms exchange_rate client_balance
                   total_confirmed_deposits in
       share_out base_crypto_atoms exchange_rate total_confirmed_deposits rest
         (dict_set distributions client d))%result
  end.

(** [calculate_distribution_amounts] (lines 605-717). *)
Definition calculate_distribution_amounts (transaction : Transaction)
  : Prog (dict Distribution) :=
  try_catch
    (flow_clients <- await get_flow_mode_clients ;;
     match flow_clients with
     | [] => Ret []
     | _ :: _ =>
         let crypto_atoms := tx_crypto_amount transaction in
         let fiat_amount := tx_fiat_amount transaction in
         let commission_percentage := tx_commission_percentage transaction in
         let discount := tx_discount transaction in
         let transaction_time := tx_transaction_time transaction in
         (* Normalize transaction_time to UTC if present *)
         transaction_time <- lift (normalize_if_present transaction_time) ;;
         match crypto_atoms, fiat_amount with
         | None, _ => Ret []
         | Some _, None => Ret []
         | Some crypto_atoms, Some fiat_amount =>
             let commission_percentage :=
               match commission_percentage with
               | None => PyFloat.zero
               | Some c => c
               end in
             let discount :=
               match discount with
               | None => PyFloat.zero
               | Some d => d
               end in
             parts <- lift (decompose crypto_atoms fiat_amount
                              commission_percentage discount) ;;
             collected <- collect_balances transaction_time flow_clients [] 0 ;;
             let '(client_balances, total_confirmed_deposits) := collected in
             if total_confirmed_deposits =? 0 then Ret []
             else
               lift (share_out (base_crypto_atoms parts) (exchange_rate parts)
                       total_confirmed_deposits client_balances [])
         end
     end)
    (fun _ => Ret []).

(* ================================================================== *)
(** * LamassuTransactionProcessor: settlement *)

(** An [Optional[str]] that passed a truthiness test. *)
Definition nonempty (s : option string) : option string :=
  if truthy_str s then s else None.

(** An operand that must not be [None]. *)
Definition not_none {A} (what : string) (o : option A) : result A :=
  match o with
  | Some a => Ok a
  | None => Err (Exn TypeError ("unsupported operand type: NoneType (" ++ what ++ ")"))
  end.

(** [x or 0.0]. *)
Definition or_zero (x : option float) : float :=
  match x with
  | Some v => if PyFloat.truthy v then v else PyFloat.zero
  | None => PyFloat.zero
  end.

(** [send_dca_payment] (lines 766-840). *)
Definition send_dca_payment (client : DcaClient) (distribution : Distribution)
  (lamassu_transaction_id : option string) : Prog bool :=
  try_catch
    (let target_wallet_id := c_wallet_id client in
     let amount_sats := d_sats_amount distribution in
     target_wallet <- await (get_wallet target_wallet_id) ;;
     match target_wallet with
     | None => Ret false
     | Some target_wallet =>
         let fiat_amount := d_fiat_amount distribution in
         let exchange_rate := d_exchange_rate distribution in
         memo <-
           (if pynum_gt0 exchange_rate then
              cost_basis_per_btc <- lift (int_div_pynum 100000000 exchange_rate) ;;
              Ret (DcaMemo amount_sats fiat_amount (Some cost_basis_per_btc))
            else Ret (DcaMemo amount_sats fiat_amount None)) ;;
         let extra := DcaDistribution (c_id client) lamassu_transaction_id amount_sats in
         new_payment <- await (create_invoice (w_id target_wallet) amount_sats memo extra) ;;
         match new_payment with
         | None => Ret false
         | Some new_payment =>
             admin_config <- await get_active_lamassu_config ;;
             match admin_config with
             | None => Ret false
             | Some admin_config =>
                 match nonempty (cfg_source_wallet_id admin_config) with
                 | None => Ret true
                 | Some source_wallet =>
                     try_catch
                       (await (pay_invoice (bolt11 new_payment) source_wallet memo extra) ;;
                        Ret true)
                       (fun _ => Ret false)
                 end
             end
         end
     end)
    (fun _ => Ret false).

(** [credit_source_wallet] (lines 842-871). *)
Definition credit_source_wallet (transaction : Transaction) : Prog bool :=
  try_catch
    (admin_config <- await get_active_lamassu_config ;;
     match admin_config with
     | None => Ret false
     | Some admin_config =>
         match nonempty (cfg_source_wallet_id admin_config) with
         | None => Ret false
         | Some source_wallet_id =>
             let crypto_atoms := tx_crypto_amount transaction in
             source_wallet <- await (get_wallet source_wallet_id) ;;
             match source_wallet with
             | None => Ret false
             | Some source_wallet =>
                 await (update_wallet_balance source_wallet crypto_atoms) ;;
                 Ret true
             end
         end
     end)
    (fun _ => Ret false).

(** [update_payment_status] (lines 873-879). *)
Definition update_payment_status (payment : string) (new_status : string) : Prog unit :=
  try_catch (await (update_dca_payment_status payment new_status)) (fun _ => Ret tt).

(** [store_lamassu_transaction] (lines 881-927).  The function has no
    parameter or local named [transaction_time] and the module binds no such
    global, so the last argument of [CreateLamassuTransactionData] reads an
    unbound name. *)
Definition store_lamassu_transaction (transaction : Transaction)
  : Prog (option string) :=
  try_catch
    (let crypto_atoms := tx_crypto_amount transaction in
     let fiat_amount := tx_fiat_amount transaction in
     let commission_percentage := or_zero (tx_commission_percentage transaction) in
     let discount := or_zero (tx_discount transaction) in
     (* Calculate commission metrics *)
     split <- lift
       (if PyFloat.gt0 commission_percentage then
          let? effective_commission :=
            effective_commission_of commission_percentage discount in
          let? atoms := not_none "crypto_atoms" crypto_atoms in
          let? base_crypto_atoms := base_crypto_atoms_of atoms effective_commission in
          Ok (effective_commission, Some base_crypto_atoms, atoms - base_crypto_atoms)
        else
          Ok (PyFloat.zero, crypto_atoms, 0))%result ;;
     let '(effective_commission, base_crypto_atoms, commission_amount_sats) := split in
     (* Calculate exchange rate *)
     exchange_rate <- lift
       (let? fiat := not_none "fiat_amount" fiat_amount in
        if 0 <? fiat
        then (let? base := not_none "base_crypto_atoms" base_crypto_atoms in
              let? rate := PyFloat.int_truediv base fiat in
              Ok (PFloat rate))
        else Ok (PInt 0))%result ;;
     (* Create transaction data *)
     transaction_time <- unbound_name "transaction_time" ;;
     let transaction_data :=
       {| lt_lamassu_transaction_id := tx_transaction_id transaction;
          lt_fiat_amount := fiat_amount;
          lt_crypto_amount := crypto_atoms;
          lt_commission_percentage := commission_percentage;
          lt_discount := discount;
          lt_effective_commission := effective_commission;
          lt_commission_amount_sats := commission_amount_sats;
          lt_base_amount_sats := base_crypto_atoms;
          lt_exchange_rate := exchange_rate;
          lt_crypto_code := tx_crypto_code transaction;
          lt_fiat_code := tx_fiat_code transaction;
          lt_device_id := tx_device_id transaction;
          lt_transaction_time := transaction_time |} in
     (* Store in database *)
     stored_transaction <- await (create_lamassu_transaction transaction_data) ;;
     Ret (Some (st_id stored_transaction)))
    (fun _ => Ret None).

(** [send_commission_payment] (lines 929-981). *)
Definition send_commission_payment (transaction : Transaction)
  (commission_amount_sats : Z) : Prog bool :=
  try_catch
    (admin_config <- await get_active_lamassu_config ;;
     match admin_config with
     | None => Ret true
     | Some admin_config =>
         match nonempty (cfg_commission_wallet_id admin_config) with
         | None => Ret true
         | Some commission_wallet_id =>
             match nonempty (cfg_source_wallet_id admin_config) with
             | None => Ret false
             | Some source_wallet_id =>
                 let transaction_id := tx_transaction_id transaction in
                 commission_percentage <- lift
                   (let? c := not_none "commission_percentage"
                                (tx_commission_percentage transaction) in
                    Ok (PyFloat.mul c (PyFloat.lit 100)))%result ;;
                 fiat_amount <- lift (not_none "fiat_amount" (tx_fiat_amount transaction)) ;;
                 let commission_memo :=
                   CommissionMemo commission_amount_sats commission_percentage fiat_amount in
                 commission_payment <-
                   await (create_invoice commission_wallet_id commission_amount_sats
                            commission_memo
                            (DcaCommission transaction_id commission_amount_sats)) ;;
                 match commission_payment with
                 | None => Ret false
                 | Some commission_payment =>
                     await (pay_invoice (bolt11 commission_payment) source_wallet_id
                              commission_memo (DcaCommissionPayment transaction_id)) ;;
                     Ret true
                 end
             end
         end
     end)
    (fun _ => Ret false).

(** The loop body of [distribute_to_clients] (lines 725-761), with its
    own [try/except ... continue].  As in [store_lamassu_transaction],
    [transaction_time] is bound nowhere in scope. *)
Definition distribute_to_client (transaction_id : option string)
  (client_id : string) (distribution : Distribution) : Prog unit :=
  try_catch
    (flow_clients <- await get_flow_mode_clients ;;
     match find (fun c => String.eqb (c_id c) client_id) flow_clients with
     | None => Ret tt
     | Some client =>
         (* Create DCA payment record *)
         transaction_time <- unbound_name "transaction_time" ;;
         let payment_data :=
           {| pay_client_id := client_id;
              pay_amount_sats := d_sats_amount distribution;
              pay_amount_fiat := d_fiat_amount distribution;
              pay_exchange_rate := d_exchange_rate distribution;
              pay_transaction_type := "flow";
              pay_lamassu_transaction_id := transaction_id;
              pay_transaction_time := transaction_time |} in
         (* Record the payment in our database *)
         dca_payment <- await (create_dca_payment payment_data) ;;
         (* Send Bitcoin to client's wallet *)
         success <- send_dca_payment client distribution transaction_id ;;
         if success : bool
         then update_payment_status (p_id dca_payment) "confirmed"
         else update_payment_status (p_id dca_payment) "failed"
     end)
    (fun _ => Ret tt).

Fixpoint distribute_loop (transaction_id : option string)
  (distributions : dict Distribution) : Prog unit :=
  match distributions with
  | [] => Ret tt
  | (client_id, distribution) :: rest =>
      distribute_to_client transaction_id client_id distribution ;;
      distribute_loop transaction_id rest
  end.

(** [distribute_to_clients] (lines 719-764). *)
Definition distribute_to_clients (transaction : Transaction)
  (distributions : dict Distribution) : Prog unit :=
  try_catch
    (let transaction_id := tx_transaction_id transaction in
     distribute_loop transaction_id distributions)
    (fun _ => Ret tt).

(** The commission to forward, lines 1013-1022 of [process_transaction]. *)
Definition commission_to_send (transaction : Transaction) : result Z :=
  (let crypto_atoms := tx_crypto_amount transaction in
   let commission_percentage := or_zero (tx_commission_percentage transaction) in
   let discount := or_zero (tx_discount transaction) in
   if PyFloat.truthy commission_percentage && PyFloat.gt0 commission_percentage then
     let? effective_commission :=
       effective_commission_of commission_percentage discount in
     let? atoms := not_none "crypto_atoms" crypto_atoms in
     let? base_crypto_atoms := base_crypto_atoms_of atoms effective_commission in
     Ok (atoms - base_crypto_atoms)
   else Ok 0)%result.

(** [sum(dist["sats_amount"] for dist in distributions.values())]. *)
Definition total_sats (distributions : dict Distribution) : Z :=
  fold_right (fun kv acc => d_sats_amount (snd kv) + acc) 0 distributions.

(** [process_transaction] (lines 983-1044). *)
Definition process_transaction (transaction : Transaction) : Prog unit :=
  try_catch
    (let transaction_id := tx_transaction_id transaction in
     (* Check if transaction already processed *)
     existing_payments <- await (get_payments_by_lamassu_transaction transaction_id) ;;
     match existing_payments with
     | _ :: _ => Ret tt
     | [] =>
         (* First, credit the source wallet with the full transaction amount *)
         credit_success <- credit_source_wallet transaction ;;
         if negb credit_success then Ret tt
         else
           (* Store the transaction in our database for audit and UI *)
           stored_transaction <- store_lamassu_transaction transaction ;;
           (* Calculate distribution amounts *)
           distributions <- calculate_distribution_amounts transaction ;;
           match distributions with
           | [] => Ret tt
           | _ :: _ =>
               commission_amount_sats <- lift (commission_to_send transaction) ;;
               (* Distribute to clients *)
               distribute_to_clients transaction distributions ;;
               (* Send commission to commission wallet (if configured) *)
               (if 0 <? commission_amount_sats
                then send_commission_payment transaction commission_amount_sats ;; Ret tt
                else Ret tt) ;;
               (* Update distribution statistics in stored transaction *)
               match nonempty stored_transaction with
               | Some stored_transaction =>
                   let clients_count := Z.of_nat (List.length distributions) in
                   let distributions_total_sats := total_sats distributions in
                   await (update_lamassu_transaction_distribution_stats
                            stored_transaction clients_count distributions_total_sats)
               | None => Ret tt
               end
           end
     end)
    (fun _ => Ret tt).

(** The loop of [poll_and_process] (lines 1069-1071). *)
Fixpoint process_all (new_transactions : list Transaction) : Prog unit :=
  match new_transactions with
  | [] => Ret tt
  | transaction :: rest => process_transaction transaction ;; process_all rest
  end.

(** [poll_and_process] (lines 1046-1079). *)
Definition poll_and_process : Prog unit :=
  try_catch
    (db_config <- connect_to_lamassu_db ;;
     match db_config with
     | None => Ret tt
     | Some db_config =>
         let config_id := config_id db_config in
         (* Record poll start time *)
         await (update_poll_start_time config_id) ;;
         (* Fetch new transactions via SSH *)
         new_transactions <- fetch_new_transactions db_config ;;
         (* Process each transaction *)
         process_all new_transactions ;;
         (* Record successful poll completion *)
         await (update_poll_success_time config_id)
     end)
    (fun _ => Ret tt).

(** [poll_lamassu_transactions], the entry point of the polling task. *)
Definition poll_lamassu_transactions : Prog unit := poll_and_process.

(* ================================================================== *)
(** * A reference implementation of the collaborators *)

(** Modelled from the spec: [crud.py] and the [lnbits] services are not
    among the sources.  [World] is the persistent state of spec section 3
    and 6 (configuration record with its watermarks and test flag,
    participants and their deposits, persisted payments, stored
    transactions, wallets, the remote ledger); [collaborators] answers each
    call as the interface list of section 6 describes it. *)

Record Deposit := {
  dep_client : string;
  dep_amount : Z;
  dep_instant : Z
}.

Record World := {
  config : option LamassuConfig;
  clients : list DcaClient;
  deposits : list Deposit;
  payments : list DcaPayment;
  stored_transactions : list StoredTransaction;
  wallets : list (string * Z);
  invoices : list (string * (string * Z));
  ledger : list Transaction;
  clock : datetime;
  remote_reachable : bool
}.

(** The UTC instant of an aware datetime (a naive one is read as UTC). *)
Definition instant (dt : datetime) : Z :=
  match tzinfo dt with
  | Some off => wall_clock dt - off
  | None => wall_clock dt
  end.

Definition on_or_before (as_of_time : option datetime) (i : Z) : bool :=
  match as_of_time with
  | Some t => i <=? instant t
  | None => true
  end.

(** Remaining principal of a participant as of an instant: the deposits
    made up to it, less the fiat value of the payments dated up to it. *)
Definition balance_as_of (w : World) (client : string)
  (as_of_time : option datetime) : Z :=
  fold_right Z.add 0
    (map dep_amount
       (filter (fun d => String.eqb (dep_client d) client
                         && on_or_before as_of_time (dep_instant d))
          (deposits w)))
  - fold_right Z.add 0
      (map (fun p => pay_amount_fiat (p_data p))
         (filter (fun p =>
                    String.eqb (pay_client_id (p_data p)) client
                    && match pay_transaction_time (p_data p) with
                       | Some t => on_or_before as_of_time (instant t)
                       | None => true
                       end)
            (payments w))).

(** A fresh identifier: one more mark than there are records. *)
Definition fresh (prefix : string) (n : nat) : string :=
  prefix ++ String.concat "" (repeat "i" (S n)).

Definition set_config (w : World) (c : option LamassuConfig) : World :=
  {| config := c; clients := clients w; deposits := deposits w;
     payments := payments w; stored_transactions := stored_transactions w;
     wallets := wallets w; invoices := invoices w; ledger := ledger w;
     clock := clock w; remote_reachable := remote_reachable w |}.

Definition set_payments (w : World) (ps : list DcaPayment) : World :=
  {| config := config w; clients := clients w; deposits := deposits w;
     payments := ps; stored_transactions := stored_transactions w;
     wallets := wallets w; invoices := invoices w; ledger := ledger w;
     clock := clock w; remote_reachable := remote_reachable w |}.

Definition set_stored (w : World) (ts : list StoredTransaction) : World :=
  {| config := config w; clients := clients w; deposits := deposits w;
     payments := payments w; stored_transactions := ts;
     wallets := wallets w; invoices := invoices w; ledger := ledger w;
     clock := clock w; remote_reachable := remote_reachable w |}.

Definition set_wallets (w : World) (ws : list (string * Z))
  (inv : list (string * (string * Z))) : World :=
  {| config := config w; clients := clients w; deposits := deposits w;
     payments := payments w; stored_transactions := stored_transactions w;
     wallets := ws; invoices := inv; ledger := ledger w;
     clock := clock w; remote_reachable := remote_reachable w |}.

Definition update_config (w : World) (cid : string)
  (f : LamassuConfig -> LamassuConfig) : World :=
  match config w with
  | Some c => if String.eqb (cfg_id c) cid then set_config w (Some (f c)) else w
  | None => w
  end.

Definition with_test_result (b : bool) (c : LamassuConfig) : LamassuConfig :=
  {| cfg_id := cfg_id c; cfg_host := cfg_host c; cfg_port := cfg_port c;
     cfg_database_name := cfg_database_name c; cfg_username := cfg_username c;
     cfg_password := cfg_password c; cfg_use_ssh_tunnel := cfg_use_ssh_tunnel c;
     cfg_ssh_host := cfg_ssh_host c; cfg_ssh_port := cfg_ssh_port c;
     cfg_ssh_username := cfg_ssh_username c; cfg_ssh_password := cfg_ssh_password c;
     cfg_ssh_private_key := cfg_ssh_private_key c;
     cfg_source_wallet_id := cfg_source_wallet_id c;
     cfg_commission_wallet_id := cfg_commission_wallet_id c;
     cfg_last_poll_time := cfg_last_poll_time c;
     cfg_last_successful_poll := cfg_last_successful_poll c;
     cfg_test_connection_success := Some b |}.

Definition with_poll_times (start done : option datetime) (c : LamassuConfig)
  : LamassuConfig :=
  {| cfg_id := cfg_id c; cfg_host := cfg_host c; cfg_port := cfg_port c;
     cfg_database_name := cfg_database_name c; cfg_username := cfg_username c;
     cfg_password := cfg_password c; cfg_use_ssh_tunnel := cfg_use_ssh_tunnel c;
     cfg_ssh_host := cfg_ssh_host c; cfg_ssh_port := cfg_ssh_port c;
     cfg_ssh_username := cfg_ssh_username c; cfg_ssh_password := cfg_ssh_password c;
     cfg_ssh_private_key := cfg_ssh_private_key c;
     cfg_source_wallet_id := cfg_source_wallet_id c;
     cfg_commission_wallet_id := cfg_commission_wallet_id c;
     cfg_last_poll_time := start;
     cfg_last_successful_poll := done;
     cfg_test_connection_success := cfg_test_connection_success c |}.

Fixpoint credit (ws : list (string * Z)) (wallet : string) (amount : Z)
  : list (string * Z) :=
  match ws with
  | [] => []
  | (k, b) :: rest =>
      if String.eqb k wallet then (k, b + amount) :: rest
      else (k, b) :: credit rest wallet amount
  end.

Definition lookup {V} (k : string) (l : list (string * V)) : option V :=
  option_map snd (find (fun kv => String.eqb (fst kv) k) l).

Definition failed {A} (k : exn_kind) (msg : string) (w : World) : result A * World :=
  (Err (Exn k msg), w).

(** The remote filter of [fetch_new_transactions]: confirmed after the
    threshold (the ledger holds only confirmed, dispensed rows). *)
Definition after (threshold : datetime) (tx : Transaction) : bool :=
  match tx_transaction_time tx with
  | Some t => instant threshold <? instant t
  | None => false
  end.

(** The single row a probe query ([SELECT 1], [COUNT], [NOW()]) yields. *)
Definition blank_row : Transaction :=
  {| tx_transaction_id := None; tx_fiat_amount := None; tx_crypto_amount := None;
     tx_transaction_time := None; tx_device_id := None; tx_status := None;
     tx_commission_percentage := None; tx_discount := None;
     tx_crypto_code := None; tx_fiat_code := None |}.

Definition collaborators : handler World :=
  fun c =>
    match c as c0 return World -> result (resp c0) * World with
    | get_active_lamassu_config => fun w => (Ok (config w), w)
    | update_config_test_result cid b => fun w =>
        (Ok tt, update_config w cid (with_test_result b))
    | update_poll_start_time cid => fun w =>
        (Ok tt,
         update_config w cid
           (fun c => with_poll_times (Some (clock w)) (cfg_last_successful_poll c) c))
    | update_poll_success_time cid => fun w =>
        (Ok tt,
         update_config w cid
           (fun c => with_poll_times (cfg_last_poll_time c) (Some (clock w)) c))
    | get_flow_mode_clients => fun w => (Ok (clients w), w)
    | get_client_balance_summary client as_of_time => fun w =>
        (Ok {| remaining_balance := balance_as_of w client as_of_time |}, w)
    | get_payments_by_lamassu_transaction txid => fun w =>
        (Ok (filter (fun p =>
                       option_string_eqb (pay_lamassu_transaction_id (p_data p)) txid)
               (payments w)), w)
    | get_all_payments => fun w => (Ok (payments w), w)
    | create_dca_payment data => fun w =>
        let p := {| p_id := fresh "payment-" (List.length (payments w));
                    p_data := data; p_status := "pending" |} in
        (Ok p, set_payments w (payments w ++ [p]))
    | update_dca_payment_status pid new_status => fun w =>
        (Ok tt,
         set_payments w
           (map (fun p => if String.eqb (p_id p) pid
                          then {| p_id := p_id p; p_data := p_data p;
                                  p_status := new_status |}
                          else p)
              (payments w)))
    | create_lamassu_transaction data => fun w =>
        let t := {| st_id := fresh "tx-" (List.length (stored_transactions w));
                    st_data := data; st_clients_count := None;
                    st_distributions_total_sats := None |} in
        (Ok t, set_stored w (stored_transactions w ++ [t]))
    | update_lamassu_transaction_distribution_stats sid n total => fun w =>
        (Ok tt,
         set_stored w
           (map (fun t => if String.eqb (st_id t) sid
                          then {| st_id := st_id t; st_data := st_data t;
                                  st_clients_count := Some n;
                                  st_distributions_total_sats := Some total |}
                          else t)
              (stored_transactions w)))
    | get_wallet wallet => fun w =>
        (Ok (match lookup wallet (wallets w) with
             | Some _ => Some {| w_id := wallet |}
             | None => None
             end), w)
    | update_wallet_balance wallet amount => fun w =>
        match amount with
        | Some a => (Ok tt, set_wallets w (credit (wallets w) (w_id wallet) a) (invoices w))
        | None => failed TypeError "amount must be an integer" w
        end
    | create_invoice wallet amount _ _ => fun w =>
        match lookup wallet (wallets w) with
        | Some _ =>
            let b := fresh "lnbc" (List.length (invoices w)) in
            (Ok (Some {| bolt11 := b |}),
             set_wallets w (wallets w) (invoices w ++ [(b, (wallet, amount))]))
        | None => failed RuntimeError "wallet does not exist" w
        end
    | pay_invoice payment_request wallet _ _ => fun w =>
        match lookup payment_request (invoices w), lookup wallet (wallets w) with
        | Some (destination, amount), Some funds =>
            if amount <=? funds
            then (Ok tt,
                  set_wallets w
                    (credit (credit (wallets w) wallet (- amount)) destination amount)
                    (invoices w))
            else failed RuntimeError "insufficient balance" w
        | _, _ => failed RuntimeError "invoice or wallet not found" w
        end
    | datetime_now_utc => fun w => (Ok (clock w), w)
    | open_ssh_tunnel_subprocess db_config => fun w =>
        (Ok (if remote_reachable w then Some db_config else None), w)
    | close_ssh_tunnel_subprocess => fun w => (Ok tt, w)
    | run_psql_over_ssh _ query => fun w =>
        if remote_reachable w then
          match query with
          | NewCashOutTxs time_threshold_str =>
              (Ok (filter (after time_threshold_str) (ledger w)), w)
          | _ => (Ok [blank_row], w)
          end
        else failed RuntimeError "ssh: connect to host: connection refused" w
    end.

(* ================================================================== *)
(** * Vocabulary of the properties *)

(** Every call a coroutine can ever make satisfies [allowed]. *)
Inductive within (allowed : call -> Prop) {A : Type} : Prog A -> Prop :=
| within_Ret (a : A) : within allowed (Ret a)
| within_Raise (e : exn) : within allowed (Raise e)
| within_Call (c : call) (k : result (resp c) -> Prog A) :
    allowed c -> (forall r, within allowed (k r)) -> within allowed (Call c k).

(** The state the collaborators are left in after the calls of a trace. *)
Definition replay {W} (h : handler W) (t : list event) (w : W) : W :=
  fold_left (fun w ev => snd (h (ev_call ev) w)) t w.

(** An outcome reached after the calls of [t]. *)
Definition prepend {W A} (t : list event) (o : outcome W A) : outcome W A :=
  Outcome (returned o) (final o) (t ++ trace o).

(** Two coroutines one after the other, as outcomes. *)
Definition and_then {W A B} (o : outcome W A) (next : A -> W -> outcome W B)
  : outcome W B :=
  match returned o with
  | Ok a =>
      let o' := next a (final o) in
      Outcome (returned o') (final o') (trace o ++ trace o')
  | Err e => Outcome (Err e) (final o) (trace o)
  end.

(** [try ... except] as outcomes. *)
Definition or_else {W A} (o : outcome W A) (handle : exn -> W -> outcome W A)
  : outcome W A :=
  match returned o with
  | Ok a => o
  | Err e =>
      let o' := handle e (final o) in
      Outcome (returned o') (final o') (trace o ++ trace o')
  end.

(** Calls that persist a payment record, move funds to a recipient,
    persist a stored transaction, or credit the pooled account. *)
Definition records_payment (c : call) : bool :=
  match c with
  | create_dca_payment _ | update_dca_payment_status _ _ => true
  | _ => false
  end.

Definition pays_out (c : call) : bool :=
  match c with
  | create_invoice _ _ _ _ | pay_invoice _ _ _ _ => true
  | _ => false
  end.


Definition credits_wallet (c : call) : bool :=
  match c with
  | update_wallet_balance _ _ => true
  | _ => false
  end.

Definition persists_test_result (c : call) : bool :=
  match c with
  | update_config_test_result _ _ => true
  | _ => false
  end.

Definition records_poll_start (c : call) : bool :=
  match c with
  | update_poll_start_time _ => true
  | _ => false
  end.

Definition records_poll_success (c : call) : bool :=
  match c with
  | update_poll_success_time _ => true
  | _ => false
  end.

(** Calls that reach for the remote host. *)
Definition reaches_remote (c : call) : bool :=
  match c with
  | open_ssh_tunnel_subprocess _ | close_ssh_tunnel_subprocess
  | run_psql_over_ssh _ _ => true
  | _ => false
  end.



(* ================================================================== *)
(** * Sample data *)

Definition utc_datetime (microseconds : Z) : datetime :=
  {| wall_clock := microseconds; tzinfo := Some 0 |}.

(** A configuration with a pooled account ["pool"] and a commission
    destination ["fees"], last diagnosed as failing. *)
Definition sample_config : LamassuConfig :=
  {| cfg_id := "cfg-1"; cfg_host := "10.0.0.5"; cfg_port := 5432;
     cfg_database_name := "lamassu"; cfg_username := "postgres";
     cfg_password := "secret"; cfg_use_ssh_tunnel := false;
     cfg_ssh_host := Some "atm.example.org"; cfg_ssh_port := 22;
     cfg_ssh_username := Some "lamassu"; cfg_ssh_password := None;
     cfg_ssh_private_key := Some "PRIVATE KEY";
     cfg_source_wallet_id := Some "pool";
     cfg_commission_wallet_id := Some "fees";
     cfg_last_poll_time := None; cfg_last_successful_poll := None;
     cfg_test_connection_success := Some false |}.

(** The doubles nearest to 0.05 and to 0. *)
Definition five_percent : float := S754_finite false 7205759403792794 (-57).
Definition no_discount : float := S754_zero false.

(** 105000 atomic units for 1000 fiat units at 5% commission. *)
Definition sample_transaction : Transaction :=
  {| tx_transaction_id := Some "tx-1";
     tx_fiat_amount := Some 1000;
     tx_crypto_amount := Some 105000;
     tx_transaction_time := Some (utc_datetime 1700000000000000);
     tx_device_id := Some "atm-7";
     tx_status := Some "confirmed";
     tx_commission_percentage := Some five_percent;
     tx_discount := Some no_discount;
     tx_crypto_code := Some "BTC";
     tx_fiat_code := Some "GTQ" |}.

Definition alice : DcaClient :=
  {| c_id := "alice"; c_wallet_id := "alice-wallet";
     c_username := Some "alice"; c_user_id := "u1" |}.
Definition bob : DcaClient :=
  {| c_id := "bob"; c_wallet_id := "bob-wallet";
     c_username := None; c_user_id := "u2" |}.

(** No participant, empty wallets, the sample transaction on the ledger. *)
Definition world_without_clients : World :=
  {| config := Some sample_config; clients := []; deposits := [];
     payments := []; stored_transactions := [];
     wallets := [("pool", 0); ("fees", 0)]; invoices := [];
     ledger := [sample_transaction];
     clock := utc_datetime 1700000600000000; remote_reachable := true |}.

(** Two participants with remaining balances 300 and 700. *)
Definition world_with_clients : World :=
  {| config := Some sample_config; clients := [alice; bob];
     deposits := [ {| dep_client := "alice"; dep_amount := 300;
                      dep_instant := 1690000000000000 |};
                   {| dep_client := "bob"; dep_amount := 700;
                      dep_instant := 1690000000000000 |} ];
     payments := []; stored_transactions := [];
     wallets := [("pool", 0); ("fees", 0); ("alice-wallet", 0); ("bob-wallet", 0)];
     invoices := [];
     ledger := [sample_transaction];
     clock := utc_datetime 1700000600000000; remote_reachable := true |}.

(** A payment already on record for the sample transaction. *)
Definition recorded_payment : DcaPayment :=
  {| p_id := "payment-i";
     p_data := {| pay_client_id := "alice"; pay_amount_sats := 30000;
                  pay_amount_fiat := 300; pay_exchange_rate := PInt 100;
                  pay_transaction_type := "flow";
                  pay_lamassu_transaction_id := Some "tx-1";
                  pay_transaction_time := Some (utc_datetime 1700000000000000) |};
     p_status := "confirmed" |}.

Definition world_with_payment : World :=
  set_payments world_with_clients [recorded_payment].


(** The remote host cannot be reached. *)
Definition world_unreachable : World :=
  {| config := Some sample_config; clients := [alice; bob]; deposits := [];
     payments := []; stored_transactions := [];
     wallets := [("pool", 0); ("fees", 0)]; invoices := [];
     ledger := [sample_transaction];
     clock := utc_datetime 1700000600000000; remote_reachable := false |}.

(** Collaborators whose configuration read fails (the local database is
    down), everything else as in [collaborators]. *)
Definition collaborators_config_down : handler World :=
  fun c =>
    match c as c0 return World -> result (resp c0) * World with
    | get_active_lamassu_config => failed RuntimeError "database is locked"
    | c0 => collaborators c0
    end.


(** The dictionary [get_db_config] builds from a configuration record. *)
Definition db_config_of (config : LamassuConfig) : DbConfig :=
  {| host := cfg_host config;
     port := cfg_port config;
     database := cfg_database_name config;
     user := cfg_username config;
     password := cfg_password config;
     config_id := cfg_id config;
     use_ssh_tunnel := cfg_use_ssh_tunnel config;
     ssh_host := cfg_ssh_host config;
     ssh_port := cfg_ssh_port config;
     ssh_username := cfg_ssh_username config;
     ssh_password := cfg_ssh_password config;
     ssh_private_key := cfg_ssh_private_key config |}.

(** Calls of the fetch and of the settlement of the transactions: all but
    the three that write the configuration record. *)
Definition fetch_or_settle (c : call) : Prop :=
  match c with
  | update_config_test_result _ _
  | update_poll_start_time _
  | update_poll_success_time _ => False
  | _ => True
  end.

(** Any call but the one that records a failed test. *)
Definition keeps_test_success (c : call) : Prop :=
  match c with
  | update_config_test_result _ false => False
  | _ => True
  end.

(** The stored last-test-result flag. *)
Definition stored_test_result (w : World) : option bool :=
  match config w with
  | Some c => cfg_test_connection_success c
  | None => None
  end.

(** The stored attempted-poll and successful-poll watermarks. *)
Definition attempted_watermark (w : World) : option datetime :=
  match config w with
  | Some c => cfg_last_poll_time c
  | None => None
  end.

Definition success_watermark (w : World) : option datetime :=
  match config w with
  | Some c => cfg_last_successful_poll c
  | None => None
  end.

(** The remote host is down and the last diagnostic succeeded. *)
Definition world_gone_dark : World :=
  set_config world_unreachable (Some (with_test_result true sample_config)).

(** The remote host is down and the configuration asks for a tunnel. *)
Definition world_tunnel_down : World :=
  set_config world_unreachable
    (Some {| cfg_id := "cfg-1"; cfg_host := "10.0.0.5"; cfg_port := 5432;
             cfg_database_name := "lamassu"; cfg_username := "postgres";
             cfg_password := "secret"; cfg_use_ssh_tunnel := true;
             cfg_ssh_host := Some "atm.example.org"; cfg_ssh_port := 22;
             cfg_ssh_username := Some "lamassu"; cfg_ssh_password := None;
             cfg_ssh_private_key := Some "PRIVATE KEY";
             cfg_source_wallet_id := Some "pool";
             cfg_commission_wallet_id := Some "fees";
             cfg_last_poll_time := None; cfg_last_successful_poll := None;
             cfg_test_connection_success := Some true |}).

(* ================================================================== *)
(** * Vocabulary of the float arithmetic *)

(** The position of [p/q] (with [0 <= p < q]) in the unit interval, as
    [SpecFloat] records it when it shifts a significand. *)
Definition loc_of (p q : Z) : location :=
  if p =? 0 then loc_Exact else loc_Inexact (2 * p ?= q).

(** [m + p/q] rounded to the nearest integer, ties to even. *)
Definition rne (m p q : Z) : Z :=
  match 2 * p ?= q with
  | Lt => m
  | Eq => if Z.even m then m else m + 1
  | Gt => m + 1
  end.

(** The float with significand [m] and exponent [e], or its overflow. *)
Definition pack (prec emax : Z) (s : bool) (m e : Z) : spec_float :=
  match m with
  | Z0 => S754_zero s
  | Zpos p => if e <=? emax - prec then S754_finite s p e else S754_infinity s
  | Zneg _ => S754_nan
  end.

(** The exponent at which [mx * 2^ex] is rounded. *)
Definition cexp (prec emax : Z) (mx ex : Z) : Z := fexp prec emax (Zdigits2 mx + ex).

(** The rational value of a float (0 for the non-finite ones). *)
Definition pow2 (e : Z) : Q := (2 ^ e)%Q.
Definition F2Q (m e : Z) : Q := (inject_Z m * pow2 e)%Q.
Definition SF2Q (x : spec_float) : Q :=
  match x with
  | S754_finite s m e => F2Q (cond_Zopp s (Zpos m)) e
  | _ => 0%Q
  end.

(** A well-formed double that is [+0], positive or [+inf]. *)
Definition nonneg_float (x : spec_float) : Prop :=
  x = S754_zero false \/ x = S754_infinity false \/
  exists m e, x = S754_finite false m e /\ bounded PyFloat.prec PyFloat.emax m e = true.

(** Half the gap between 1 and the next double. *)
Definition unit_roundoff : Q := pow2 (-53).

(** [R] is the double the positive real [v] rounds to: it is [+inf] only
    for [v >= 2^1023]; it does not cross a double that bounds [v], and equals
    [v] when [v] is a double; in the normal range it is within a relative
    [2^-53] of [v]. *)
Definition rounded (v : Q) (R : spec_float) : Prop :=
  nonneg_float R /\
  ((v < pow2 1023)%Q -> R <> S754_infinity false) /\
  (forall mb eb, bounded PyFloat.prec PyFloat.emax mb eb = true ->
     (v <= F2Q (Zpos mb) eb)%Q ->
     R <> S754_infinity false /\ (SF2Q R <= F2Q (Zpos mb) eb)%Q /\
     ((v == F2Q (Zpos mb) eb)%Q -> (SF2Q R == v)%Q)) /\
  (R <> S754_infinity false ->
     ((pow2 (-1021) <= v)%Q ->
        (v * (1 - unit_roundoff) <= SF2Q R)%Q /\ (SF2Q R <= v * (1 + unit_roundoff))%Q) /\
     ((1 <= v)%Q -> (1 <= SF2Q R)%Q)).

(* ================================================================== *)
(** * The decomposition and the allocation, in the words of the spec *)

(** [math.floor] of a double. *)
Definition float_floor (x : float) : result Z :=
  match x with
  | S754_zero _ => Ok 0
  | S754_nan => Err (Exn ValueError "cannot convert float NaN to integer")
  | S754_infinity _ => Err (Exn OverflowError "cannot convert float infinity to integer")
  | S754_finite s m e =>
      match e with
      | Z0 => Ok (cond_Zopp s (Zpos m))
      | Zpos p => Ok (cond_Zopp s (Zpos m * 2 ^ Zpos p))
      | Zneg p => Ok (cond_Zopp s (Zpos m) / 2 ^ Zpos p)
      end
  end.


(** Spec 4.3: [base = floor(T / (1 + f))]. *)
Definition spec_base (T : Z) (f : float) : result Z :=
  (let? t := PyFloat.of_int T in
   let? quotient := PyFloat.div t (PyFloat.add (PyFloat.lit 1) f) in
   float_floor quotient)%result.



(** A double that is a number, not [+inf]: what a commission
    percentage is. *)
Definition is_fraction (c : float) : Prop :=
  valid_binary PyFloat.prec PyFloat.emax c = true /\ c <> S754_infinity false.

(** A discount on the 0-100 scale, as Python compares it. *)
Definition is_percentage (d : float) : Prop :=
  valid_binary PyFloat.prec PyFloat.emax d = true /\
  SFleb PyFloat.zero d = true /\ SFleb d (PyFloat.lit 100) = true.

(** Spec 4.3: [atomicShare = floor(base * proportion)] with
    [proportion = balance / total], and
    [fiatEquivalent = floor(atomicShare / exchangeRate)] if
    [exchangeRate > 0], else 0. *)
Definition spec_share (base : Z) (rate : pynum) (balance total : Z)
  : result Distribution :=
  (let? proportion := PyFloat.int_truediv balance total in
   let? b := PyFloat.of_int base in
   let? atomic_share := float_floor (PyFloat.mul b proportion) in
   let? fiat_equivalent :=
     if pynum_gt0 rate
     then (let? q := int_div_pynum atomic_share rate in float_floor q)
     else Ok 0 in
   Ok {| d_fiat_amount := fiat_equivalent;
         d_sats_amount := atomic_share;
         d_exchange_rate := rate |})%result.

(** The remaining balance a balance query was answered with. *)
Definition balance_answer (ev : event) : list (string * Z) :=
  match ev with
  | Event c r =>
      match c return result (resp c) -> list (string * Z) with
      | get_client_balance_summary client_id _ =>
          fun r => match r with
                   | Ok balance => [(client_id, remaining_balance balance)]
                   | Err _ => []
                   end
      | _ => fun _ => []
      end r
  end.

Definition balance_answers (t : list event) : list (string * Z) :=
  flat_map balance_answer t.

(** The sum of the strictly positive balances among the answers. *)
Definition positive_total (answers : list (string * Z)) : Z :=
  fold_right (fun kv acc => if 0 <? snd kv then snd kv + acc else acc) 0 answers.

(** The balances the first loop keeps, from the answers it got. *)
Fixpoint collected (answers : list (string * Z)) (client_balances : dict Z) : dict Z :=
  match answers with
  | [] => client_balances
  | (client_id, balance) :: rest =>
      collected rest
        (if 0 <? balance then dict_set client_balances client_id balance
         else client_balances)
  end.

(** The sum of the values of a dictionary of balances. *)
Definition dict_sum (d : dict Z) : Z :=
  fold_right (fun kv acc => snd kv + acc) 0 d.

(** [x] when present, [0.0] otherwise ([transaction.get(key, 0.0)]). *)
Definition get_or_zero (x : option float) : float :=
  match x with
  | None => PyFloat.zero
  | Some v => v
  end.



Definition world_with_balances (a b : Z) : World :=
  {| config := Some sample_config; clients := [alice; bob];
     deposits := [ {| dep_client := "alice"; dep_amount := a;
                      dep_instant := 1690000000000000 |};
                   {| dep_client := "bob"; dep_amount := b;
                      dep_instant := 1690000000000000 |} ];
     payments := []; stored_transactions := [];
     wallets := [("pool", 0); ("fees", 0); ("alice-wallet", 0); ("bob-wallet", 0)];
     invoices := [];
     ledger := [];
     clock := utc_datetime 1700000600000000; remote_reachable := true |}.

(** The atomic share the loop computes: [int(base * proportion)]. *)
Definition atomic_share (base b S : Z) : result Z :=
  (let? proportion := PyFloat.int_truediv b S in
   let? x := PyFloat.of_int base in
   PyFloat.to_int (PyFloat.mul x proportion))%result.


(** What [calculate_distribution_amounts] promises about a trace and the
    mapping returned with it. *)
Definition allocation_facts (transaction : Transaction) (t : list event)
  (distributions : dict Distribution) : Prop :=
  let answers := balance_answers t in
  let total := positive_total answers in
  (forall cid time,
     In (get_client_balance_summary cid time) (calls t) ->
     normalize_if_present (tx_transaction_time transaction) = Ok time) /\
  ((forall cid b, In (cid, b) answers -> b <= 0) -> distributions = []) /\
  (distributions = [] \/
   exists T fiat parts,
     tx_crypto_amount transaction = Some T /\
     tx_fiat_amount transaction = Some fiat /\
     decompose T fiat (get_or_zero (tx_commission_percentage transaction))
       (get_or_zero (tx_discount transaction)) = Ok parts /\
     (forall cid d, In (cid, d) distributions ->
        exists b, In (cid, b) answers /\ 0 < b /\
          client_share (base_crypto_atoms parts) (exchange_rate parts) b total = Ok d /\
          (0 <= base_crypto_atoms parts ->
           spec_share (base_crypto_atoms parts) (exchange_rate parts) b total = Ok d) /\
          (0 <= base_crypto_atoms parts < 2 ^ 51 -> total <= 2 ^ 1020 ->
           base_crypto_atoms parts * b / total - 1 <= d_sats_amount d
           <= base_crypto_atoms parts * b / total + 1)) /\
     (0 <= base_crypto_atoms parts < 2 ^ 51 -> total <= 2 ^ 1020 ->
      total_sats distributions <= base_crypto_atoms parts)).

(* ================================================================== *)
(** * Further parts of the processor *)

(** ** The private key written to the temporary file *)

(** [s.replace(old, new)] for a non-empty [old]: the occurrences of [old]
    are taken from the left and do not overlap.  [skip] counts the
    characters of the occurrence being replaced that are still to pass. *)
Fixpoint replace_from (old new s : string) (skip : nat) : string :=
  match s with
  | EmptyString => EmptyString
  | String c rest =>
      match skip with
      | S k => replace_from old new rest k
      | O =>
          if String.prefix old s
          then new ++ replace_from old new rest (String.length old - 1)
          else String c (replace_from old new rest 0)
      end
  end.

Definition replace (old new s : string) : string := replace_from old new s 0.

Definition CR : ascii := ascii_of_nat 13.
Definition LF : ascii := ascii_of_nat 10.

(** [s.endswith('\n')]. *)
Fixpoint endswith_newline (s : string) : bool :=
  match s with
  | EmptyString => false
  | String c EmptyString => Ascii.eqb c LF
  | String _ rest => endswith_newline rest
  end.

(** Lines 144-147 and again 424-427:
    [key_data = key_data.replace('\r\n', '\n').replace('\r', '\n')] and
    [if not key_data.endswith('\n'): key_data += '\n']. *)
Definition normalize_key_data (key_data : string) : string :=
  let key_data :=
    replace (String CR EmptyString) (String LF EmptyString)
      (replace (String CR (String LF EmptyString)) (String LF EmptyString) key_data) in
  if negb (endswith_newline key_data)
  then key_data ++ String LF EmptyString
  else key_data.

(** The characters of a string. *)
Fixpoint chars (s : string) : list ascii :=
  match s with
  | EmptyString => []
  | String c rest => c :: chars rest
  end.

(** The characters of a key other than its line ends. *)
Definition content (cs : list ascii) : list ascii :=
  filter (fun c => negb (Ascii.eqb c CR || Ascii.eqb c LF)) cs.

(** ** Specifications of coroutines *)

(** [ensures Q p]: whatever the collaborators answer, [p] returns a
    value (it never raises), and [Q] holds of the events of the run and
    of that value. *)
Fixpoint ensures {A} (Q : list event -> A -> Prop) (p : Prog A) : Prop :=
  match p with
  | Ret a => Q [] a
  | Raise _ => False
  | Call c k => forall r, ensures (fun t a => Q (Event c r :: t) a) (k r)
  end.

(** The rows the remote ledger answered with, the payments the local
    database answered with, and what the clock answered. *)
Definition answered_rows (t : list event) : list Transaction :=
  flat_map
    (fun ev =>
       match ev with
       | Event c r =>
           match c return result (resp c) -> list Transaction with
           | run_psql_over_ssh _ _ =>
               fun r => match r with Ok rows => rows | Err _ => [] end
           | _ => fun _ => []
           end r
       end) t.

Definition answered_payments (t : list event) : list DcaPayment :=
  flat_map
    (fun ev =>
       match ev with
       | Event c r =>
           match c return result (resp c) -> list DcaPayment with
           | get_all_payments =>
               fun r => match r with Ok payments => payments | Err _ => [] end
           | _ => fun _ => []
           end r
       end) t.

(** The probes of a trace: the queries sent over ssh, each with the rows
    it was answered with (none when it raised), and the answers to the
    openings of a tunnel ([None] when the opening raised). *)
Definition probes (t : list event) : list (Query * list Transaction) :=
  flat_map
    (fun ev =>
       match ev with
       | Event c r =>
           match c return result (resp c) -> list (Query * list Transaction) with
           | run_psql_over_ssh _ query =>
               fun r => [(query, match r with Ok rows => rows | Err _ => [] end)]
           | _ => fun _ => []
           end r
       end) t.

Definition tunnels (t : list event) : list (option DbConfig) :=
  flat_map
    (fun ev =>
       match ev with
       | Event c r =>
           match c return result (resp c) -> list (option DbConfig) with
           | open_ssh_tunnel_subprocess _ =>
               fun r => [match r with Ok connection => connection | Err _ => None end]
           | _ => fun _ => []
           end r
       end) t.

(** The successful-poll watermarks read from the configuration, and the
    readings of the clock. *)
Definition answered_watermarks (t : list event) : list datetime :=
  flat_map
    (fun ev =>
       match ev with
       | Event c r =>
           match c return result (resp c) -> list datetime with
           | get_active_lamassu_config =>
               fun r => match r with
                        | Ok (Some {| cfg_last_successful_poll := Some last |}) => [last]
                        | _ => []
                        end
           | _ => fun _ => []
           end r
       end) t.

Definition answered_clock (t : list event) : list datetime :=
  flat_map
    (fun ev =>
       match ev with
       | Event c r =>
           match c return result (resp c) -> list datetime with
           | datetime_now_utc =>
               fun r => match r with Ok now => [now] | Err _ => [] end
           | _ => fun _ => []
           end r
       end) t.

(** The credits of a wallet in a trace: the wallet, the amount, and
    whether the credit was answered without an exception. *)
Definition credits (t : list event) : list (Wallet * option Z * bool) :=
  flat_map
    (fun ev =>
       match ev with
       | Event c r =>
           match c return result (resp c) -> list (Wallet * option Z * bool) with
           | update_wallet_balance wallet amount =>
               fun r => [(wallet, amount, answered_ok r)]
           | _ => fun _ => []
           end r
       end) t.

(** The invoices asked for (wallet, amount, memo, tags, and the invoice
    answered, if any) and the invoices paid (payment request, paying
    wallet, memo, tags, and whether the payment went through). *)
Definition invoices_created (t : list event)
  : list (string * Z * Memo * Extra * option Invoice) :=
  flat_map
    (fun ev =>
       match ev with
       | Event c r =>
           match c return result (resp c)
                          -> list (string * Z * Memo * Extra * option Invoice) with
           | create_invoice wallet amount memo extra =>
               fun r => [(wallet, amount, memo, extra,
                           match r with Ok invoice => invoice | Err _ => None end)]
           | _ => fun _ => []
           end r
       end) t.

Definition invoices_paid (t : list event)
  : list (string * string * Memo * Extra * bool) :=
  flat_map
    (fun ev =>
       match ev with
       | Event c r =>
           match c return result (resp c)
                          -> list (string * string * Memo * Extra * bool) with
           | pay_invoice payment_request wallet memo extra =>
               fun r => [(payment_request, wallet, memo, extra, answered_ok r)]
           | _ => fun _ => []
           end r
       end) t.

(** A transaction that [calculate_distribution_amounts] turns down
    before it asks for any balance (lines 621-663): its time cannot be
    normalised, an amount is missing, or the decomposition raises. *)
Definition refused (transaction : Transaction) : Prop :=
  (exists e, normalize_if_present (tx_transaction_time transaction) = Err e)
  \/ tx_crypto_amount transaction = None
  \/ tx_fiat_amount transaction = None
  \/ exists T fiat e,
       tx_crypto_amount transaction = Some T
       /\ tx_fiat_amount transaction = Some fiat
       /\ decompose T fiat (get_or_zero (tx_commission_percentage transaction))
            (get_or_zero (tx_discount transaction)) = Err e.

(** The transaction identifiers looked up for existing payments. *)
Definition lookups (cs : list call) : list (option string) :=
  flat_map
    (fun c => match c with
              | get_payments_by_lamassu_transaction txid => [txid]
              | _ => []
              end) cs.

(** What [process_transaction] may call: it never writes a payment
    record or a stored transaction, and the only invoices it creates or
    pays carry the commission tags. *)
Definition commission_only (c : call) : Prop :=
  match c with
  | create_dca_payment _ | update_dca_payment_status _ _
  | create_lamassu_transaction _
  | update_lamassu_transaction_distribution_stats _ _ _ => False
  | create_invoice _ _ _ (DcaCommission _ _) => True
  | create_invoice _ _ _ _ => False
  | pay_invoice _ _ _ (DcaCommissionPayment _) => True
  | pay_invoice _ _ _ _ => False
  | _ => True
  end.

(** Any call but a lookup of existing payments. *)
Definition no_lookup (c : call) : Prop :=
  match c with
  | get_payments_by_lamassu_transaction _ => False
  | _ => True
  end.

(** A transaction of 10 atomic units for which no fiat was dispensed. *)
Definition unpriced_transaction : Transaction :=
  {| tx_transaction_id := Some "tx-3";
     tx_fiat_amount := Some 0;
     tx_crypto_amount := Some 10;
     tx_transaction_time := Some (utc_datetime 1700000000000000);
     tx_device_id := Some "atm-7";
     tx_status := Some "confirmed";
     tx_commission_percentage := None;
     tx_discount := None;
     tx_crypto_code := Some "BTC";
     tx_fiat_code := Some "GTQ" |}.

(** A configuration that authenticates over ssh by password only, and a
    world that holds it. *)
Definition password_only_config : LamassuConfig :=
  {| cfg_id := "cfg-2"; cfg_host := "10.0.0.5"; cfg_port := 5432;
     cfg_database_name := "lamassu"; cfg_username := "postgres";
     cfg_password := "secret"; cfg_use_ssh_tunnel := true;
     cfg_ssh_host := Some "atm.example.org"; cfg_ssh_port := 22;
     cfg_ssh_username := Some "lamassu"; cfg_ssh_password := Some "hunter2";
     cfg_ssh_private_key := None;
     cfg_source_wallet_id := Some "pool";
     cfg_commission_wallet_id := Some "fees";
     cfg_last_poll_time := None; cfg_last_successful_poll := None;
     cfg_test_connection_success := None |}.

Definition world_password_only : World :=
  set_config world_with_clients (Some password_only_config).

(** The sample world with its clock a quarter of a second past a whole
    second. *)
Definition world_between_seconds : World :=
  {| config := Some sample_config; clients := [alice; bob];
     deposits := [ {| dep_client := "alice"; dep_amount := 300;
                      dep_instant := 1690000000000000 |};
                   {| dep_client := "bob"; dep_amount := 700;
                      dep_instant := 1690000000000000 |} ];
     payments := []; stored_transactions := [];
     wallets := [("pool", 0); ("fees", 0); ("alice-wallet", 0); ("bob-wallet", 0)];
     invoices := [];
     ledger := [sample_transaction];
     clock := utc_datetime 1700000600250000; remote_reachable := true |}.

(* ================================================================== *)
(** * The tunnel process and its temporary files *)

Module Tunnel.

(** The attributes of the processor that [close_ssh_tunnel] reads and
    resets ([__init__], lines 48-53): the tunnel subprocess (a handle,
    here its pid) and the paths of the temporary key and configuration
    files. *)
Record Processor := {
  ssh_process : option Z;
  ssh_key_path : option string;
  ssh_config_path : option string
}.

(** The operations on the subprocess and on the file system. *)
Inductive os_call :=
| terminate (pid : Z)
| wait (pid : Z) (timeout : Z)
| kill (pid : Z)
| unlink (path : string).

(** The operating system, as a script: whether the next operation
    succeeds ([true]) or raises; past the end of the script every
    operation succeeds. *)
Definition perform (script : list bool) : bool * list bool :=
  match script with
  | [] => (true, [])
  | succeeded :: rest => (succeeded, rest)
  end.

(** [close_ssh_tunnel] (lines 231-268), step by step where the
    coroutines above have the single call [close_ssh_tunnel_subprocess]:
    the new attributes, the operations attempted, in order, and what is
    left of the script. *)
Definition close_ssh_tunnel (self : Processor) (script : list bool)
  : Processor * list os_call * list bool :=
  (* Close subprocess-based tunnel *)
  let '(self, ops, script) :=
    match ssh_process self with
    | Some pid =>
        let '(terminated, script) := perform script in
        let '(ops, script) :=
          if terminated then
            let '(waited, script) := perform script in
            if waited then ([terminate pid; wait pid 5], script)
            else
              let '(_, script) := perform script in
              ([terminate pid; wait pid 5; kill pid], script)
          else
            let '(_, script) := perform script in
            ([terminate pid; kill pid], script) in
        ({| ssh_process := None;
            ssh_key_path := ssh_key_path self;
            ssh_config_path := ssh_config_path self |}, ops, script)
    | None => (self, [], script)
    end in
  (* Clean up temporary key file if exists *)
  let '(self, ops, script) :=
    if truthy_str (ssh_key_path self) then
      match ssh_key_path self with
      | Some path =>
          let '(_, script) := perform script in
          ({| ssh_process := ssh_process self;
              ssh_key_path := None;
              ssh_config_path := ssh_config_path self |},
           ops ++ [unlink path], script)
      | None => (self, ops, script)
      end
    else (self, ops, script) in
  (* Clean up temporary SSH config file if exists *)
  if truthy_str (ssh_config_path self) then
    match ssh_config_path self with
    | Some path =>
        let '(_, script) := perform script in
        ({| ssh_process := ssh_process self;
            ssh_key_path := ssh_key_path self;
            ssh_config_path := None |},
         ops ++ [unlink path], script)
    | None => (self, ops, script)
    end
  else (self, ops, script).

(** A path attribute that is unset, or set to the empty string. *)
Definition unset (path : option string) : Prop := truthy_str path = false.

End Tunnel.

(** Any call but a credit of a wallet. *)
Definition no_credit (c : call) : Prop :=
  match c with
  | update_wallet_balance _ _ => False
  | _ => True
  end.

(* ================================================================== *)
(** * Running coroutines: general facts *)

Lemma outcome_eta {W A} (o : outcome W A) :
  Outcome (returned o) (final o) (trace o) = o.
Proof. destruct o; reflexivity. Qed.

Lemma run_bind {W A B} (h : handler W) (p : Prog A) (f : A -> Prog B) (w : W) :
  run h (bind p f) w = and_then (run h p w) (fun a w' => run h (f a) w').
Proof.
  revert w. induction p as [a | e | c k IH]; intro w; unfold and_then; simpl.
  - now rewrite outcome_eta.
  - reflexivity.
  - destruct (h c w) as [r w1]. rewrite IH. unfold and_then. simpl.
    destruct (returned (run h (k r) w1)); reflexivity.
Qed.

Lemma run_try_catch {W A} (h : handler W) (p : Prog A) (hd : exn -> Prog A) (w : W) :
  run h (try_catch p hd) w = or_else (run h p w) (fun e w' => run h (hd e) w').
Proof.
  revert w. induction p as [a | e | c k IH]; intro w; unfold or_else; simpl.
  - reflexivity.
  - now rewrite outcome_eta.
  - destruct (h c w) as [r w1]. rewrite IH. unfold or_else. simpl.
    destruct (returned (run h (k r) w1)) eqn:E; simpl; [now rewrite E | reflexivity].
Qed.

Lemma run_bind_Ok {W A B} (h : handler W) (p : Prog A) (f : A -> Prog B) (w : W) a :
  returned (run h p w) = Ok a ->
  run h (bind p f) w = prepend (trace (run h p w)) (run h (f a) (final (run h p w))).
Proof. intros E. rewrite run_bind. unfold and_then. now rewrite E. Qed.

Lemma run_bind_Err {W A B} (h : handler W) (p : Prog A) (f : A -> Prog B) (w : W) e :
  returned (run h p w) = Err e ->
  run h (bind p f) w = Outcome (Err e) (final (run h p w)) (trace (run h p w)).
Proof. intros E. rewrite run_bind. unfold and_then. now rewrite E. Qed.

Lemma run_try_catch_Ok {W A} (h : handler W) (p : Prog A) hd (w : W) a :
  returned (run h p w) = Ok a -> run h (try_catch p hd) w = run h p w.
Proof. intros E. rewrite run_try_catch. unfold or_else. now rewrite E. Qed.

Lemma run_try_catch_Err {W A} (h : handler W) (p : Prog A) hd (w : W) e :
  returned (run h p w) = Err e ->
  run h (try_catch p hd) w =
  prepend (trace (run h p w)) (run h (hd e) (final (run h p w))).
Proof. intros E. rewrite run_try_catch. unfold or_else. now rewrite E. Qed.

Lemma run_await {W} (h : handler W) (c : call) (w : W) :
  run h (await c) w = Outcome (fst (h c w)) (snd (h c w)) [Event c (fst (h c w))].
Proof.
  unfold await. simpl. destruct (h c w) as [[v | e] w1]; reflexivity.
Qed.

(** The final state is the replay of the trace. *)
Lemma final_replay {W A} (h : handler W) (p : Prog A) (w : W) :
  final (run h p w) = replay h (trace (run h p w)) w.
Proof.
  revert w. induction p as [a | e | c k IH]; intro w; simpl; try reflexivity.
  destruct (h c w) as [r w1] eqn:E. simpl. unfold replay in *. simpl.
  rewrite E. simpl. apply IH.
Qed.

Lemma replay_cons {W} (h : handler W) (ev : event) (t : list event) (w : W) :
  replay h (ev :: t) w = replay h t (snd (h (ev_call ev) w)).
Proof. reflexivity. Qed.

Lemma replay_app {W} (h : handler W) (t1 t2 : list event) (w : W) :
  replay h (t1 ++ t2) w = replay h t2 (replay h t1 w).
Proof. unfold replay. apply fold_left_app. Qed.

(** A state property kept by every allowed call holds after a trace of
    allowed calls. *)
Lemma replay_invariant {W} (h : handler W) (allowed : call -> Prop) (P : W -> Prop) :
  (forall c w, allowed c -> P w -> P (snd (h c w))) ->
  forall t w, Forall allowed (calls t) -> P w -> P (replay h t w).
Proof.
  intros Hstep t. induction t as [| ev t IH]; intros w Hall Hw; simpl; auto.
  inversion Hall; subst. apply IH; auto.
Qed.

Lemma within_trace {W A} (allowed : call -> Prop) (p : Prog A) :
  within allowed p ->
  forall (h : handler W) (w : W), Forall allowed (calls (trace (run h p w))).
Proof.
  induction 1 as [a | e | c k Hc Hk IH]; intros h w; simpl.
  - constructor.
  - constructor.
  - destruct (h c w) as [r w1]. simpl. constructor; [exact Hc | apply IH].
Qed.

Lemma within_bind {A B} (allowed : call -> Prop) (p : Prog A) (f : A -> Prog B) :
  within allowed p -> (forall a, within allowed (f a)) -> within allowed (bind p f).
Proof.
  induction 1; intros Hf; simpl; auto; constructor; auto.
Qed.

Lemma within_try_catch {A} (allowed : call -> Prop) (p : Prog A) (hd : exn -> Prog A) :
  within allowed p -> (forall e, within allowed (hd e)) -> within allowed (try_catch p hd).
Proof.
  induction 1; intros Hh; simpl; auto; constructor; auto.
Qed.

Lemma within_await (allowed : call -> Prop) (c : call) :
  allowed c -> within allowed (await c).
Proof.
  intros Hc. unfold await. constructor; auto. intros [v | e]; constructor.
Qed.

Lemma within_lift {A} (allowed : call -> Prop) (r : result A) :
  within allowed (lift r).
Proof. destruct r; constructor. Qed.

Lemma within_weaken {A} (P Q : call -> Prop) (p : Prog A) :
  (forall c, P c -> Q c) -> within P p -> within Q p.
Proof. intros HPQ. induction 1; constructor; auto. Qed.

(** A coroutine whose handler returns a value never raises. *)
Lemma try_catch_returns {W A} (h : handler W) (p : Prog A) (d : A) (w : W) :
  exists a, returned (run h (try_catch p (fun _ => Ret d)) w) = Ok a.
Proof.
  rewrite run_try_catch. unfold or_else.
  destruct (returned (run h p w)) eqn:E; simpl; eauto.
Qed.

(* ================================================================== *)
(** * Storing the transaction *)

(** Whatever the transaction, the body of [store_lamassu_transaction]
    raises before its first call, so the coroutine is [return None]. *)
Lemma store_lamassu_transaction_is_none (transaction : Transaction) :
  store_lamassu_transaction transaction = Ret None.
Proof.
  unfold store_lamassu_transaction.
  destruct (PyFloat.gt0 (or_zero (tx_commission_percentage transaction))).
  - destruct (effective_commission_of _ _) as [ec | e]; simpl; [| reflexivity].
    destruct (tx_crypto_amount transaction) as [atoms |]; simpl; [| reflexivity].
    destruct (base_crypto_atoms_of atoms ec) as [b | e]; simpl; [| reflexivity].
    destruct (tx_fiat_amount transaction) as [fiat |]; simpl; [| reflexivity].
    destruct (0 <? fiat); simpl; [| reflexivity].
    destruct (PyFloat.int_truediv b fiat); reflexivity.
  - simpl.
    destruct (tx_fiat_amount transaction) as [fiat |]; simpl; [| reflexivity].
    destruct (0 <? fiat); simpl; [| reflexivity].
    destruct (tx_crypto_amount transaction) as [atoms |]; simpl; [| reflexivity].
    destruct (PyFloat.int_truediv atoms fiat); reflexivity.
Qed.

(** C8. [store_lamassu_transaction] returns [None] for every transaction
    and never reaches [create_lamassu_transaction]: evaluating the arguments
    of [CreateLamassuTransactionData] raises (at the latest the [NameError]
    on [transaction_time]) and the catch-all clause returns [None].  Against
    any collaborators it makes no call at all and leaves their state as it
    was. *)
Theorem store_lamassu_transaction_returns_none :
  forall transaction : Transaction,
    store_lamassu_transaction transaction = Ret None /\
    forall (W : Type) (h : handler W) (w : W),
      run h (store_lamassu_transaction transaction) w = Outcome (Ok None) w [].
Proof.
  intro transaction.
  pose proof (store_lamassu_transaction_is_none transaction) as E.
  split; [exact E |]. intros W h w. rewrite E. reflexivity.
Qed.

(* ================================================================== *)
(** * Distribution to the clients *)

Lemma run_distribute_to_client {W} (h : handler W)
  (transaction_id : option string) (client_id : string) (distribution : Distribution)
  (w : W) :
  run h (distribute_to_client transaction_id client_id distribution) w =
  Outcome (Ok tt) (snd (h get_flow_mode_clients w))
    [Event get_flow_mode_clients (fst (h get_flow_mode_clients w))].
Proof.
  unfold distribute_to_client, await. simpl.
  destruct (h get_flow_mode_clients w) as [[flow_clients | e] w1]; simpl.
  - destruct (find _ flow_clients); reflexivity.
  - reflexivity.
Qed.

Lemma run_distribute_loop {W} (h : handler W) (transaction_id : option string)
  (distributions : dict Distribution) (w : W) :
  returned (run h (distribute_loop transaction_id distributions) w) = Ok tt /\
  Forall (fun c => c = get_flow_mode_clients)
    (calls (trace (run h (distribute_loop transaction_id distributions) w))) /\
  List.length (trace (run h (distribute_loop transaction_id distributions) w))
  = List.length distributions.
Proof.
  revert w. induction distributions as [| [client_id distribution] rest IH]; intro w.
  - simpl. repeat split. constructor.
  - cbn [distribute_loop]. rewrite run_bind, run_distribute_to_client.
    unfold and_then. cbn [returned final trace].
    destruct (IH (snd (h get_flow_mode_clients w))) as (Hr & Hc & Hl).
    repeat split.
    + exact Hr.
    + cbn. constructor; [reflexivity | exact Hc].
    + simpl. f_equal. exact Hl.
Qed.

Lemma existsb_none {A} (f : A -> bool) (x : A) (l : list A) :
  f x = false -> Forall (fun y => y = x) l -> existsb f l = false.
Proof.
  intros Hx. induction 1 as [| y l Hy _ IH]; simpl; auto.
  subst y. now rewrite Hx.
Qed.

(** C9. Whatever the transaction, the distribution mapping and the
    collaborators, [distribute_to_clients] returns normally having made one
    [get_flow_mode_clients] lookup per entry and nothing else: no
    [create_dca_payment], no status update, no invoice and no payment of an
    invoice.  Each iteration ends at the unbound name [transaction_time]
    (or earlier, when the client is not found or the lookup raises), and the
    per-client handler swallows the exception. *)
Theorem distribute_to_clients_creates_nothing :
  forall (W : Type) (h : handler W) (w : W)
         (transaction : Transaction) (distributions : dict Distribution),
    let o := run h (distribute_to_clients transaction distributions) w in
    returned o = Ok tt /\
    Forall (fun c => c = get_flow_mode_clients) (calls (trace o)) /\
    existsb records_payment (calls (trace o)) = false /\
    existsb pays_out (calls (trace o)) = false /\
    List.length (trace o) = List.length distributions.
Proof.
  intros W h w transaction distributions o. subst o.
  unfold distribute_to_clients. rewrite run_try_catch. unfold or_else.
  destruct (run_distribute_loop h (tx_transaction_id transaction) distributions w)
    as (Hr & Hc & Hl).
  rewrite Hr. repeat split; auto.
  - now apply existsb_none with (x := get_flow_mode_clients).
  - now apply existsb_none with (x := get_flow_mode_clients).
Qed.

(* ================================================================== *)
(** * The idempotency gate *)

(** C1 (amended). When the lookup of the payments linked to the
    transaction identifier finds at least one, [process_transaction] makes
    that lookup and nothing else, and returns: no credit of the pooled
    account, no stored transaction, no payment, no payout.  So every further
    invocation on an identifier that has a payment on record is a skip. *)
Theorem process_transaction_skips_when_payments_exist :
  forall (W : Type) (h : handler W) (w w1 : W) (transaction : Transaction)
         (existing_payments : list DcaPayment),
    h (get_payments_by_lamassu_transaction (tx_transaction_id transaction)) w
    = (Ok existing_payments, w1) ->
    existing_payments <> [] ->
    run h (process_transaction transaction) w =
    Outcome (Ok tt) w1
      [Event (get_payments_by_lamassu_transaction (tx_transaction_id transaction))
         (Ok existing_payments)].
Proof.
  intros W h w w1 transaction existing_payments Hlookup Hsome.
  unfold process_transaction, await. simpl. rewrite Hlookup.
  destruct existing_payments as [| p ps]; [congruence | reflexivity].
Qed.

(** The skip, at a world that holds a payment for the transaction. *)
Lemma process_transaction_skips_witness :
  run collaborators (process_transaction sample_transaction) world_with_payment =
  Outcome (Ok tt) world_with_payment
    [Event (get_payments_by_lamassu_transaction (Some "tx-1")) (Ok [recorded_payment])].
Proof.
  apply (process_transaction_skips_when_payments_exist World collaborators
           world_with_payment world_with_payment sample_transaction [recorded_payment]).
  - reflexivity.
  - discriminate.
Defined.

(** C1, as stated, fails: with no eligible participant the first run
    credits the pooled account and records no payment, so the gate finds
    nothing on the second run, which credits the pooled account again. *)
Lemma second_invocation_credits_again :
  let first := run collaborators (process_transaction sample_transaction)
                 world_without_clients in
  let second := run collaborators (process_transaction sample_transaction)
                  (final first) in
  payments (final first) = [] /\
  lookup "pool" (wallets (final first)) = Some 105000 /\
  existsb credits_wallet (calls (trace second)) = true /\
  lookup "pool" (wallets (final second)) = Some 210000 /\
  final second <> final first.
Proof.
  vm_compute. repeat split; try reflexivity. discriminate.
Qed.

(* ================================================================== *)
(** * Crediting the pooled account *)

Ltac within_step :=
  match goal with
  | |- within _ (Ret _) => constructor
  | |- within _ (Raise _) => constructor
  | |- within _ (unbound_name _) => constructor
  | |- within _ (lift _) => apply within_lift
  | |- within ?P (await ?c) => apply (within_await P c)
  | |- within _ (bind _ _) => apply within_bind; [| intros]
  | |- within _ (try_catch _ _) => apply within_try_catch; [| intros]
  | |- within _ (match ?x with _ => _ end) => destruct x
  end.



Lemma existsb_excluded {A} (P : A -> Prop) (f : A -> bool) (l : list A) :
  (forall x, P x -> f x = false) -> Forall P l -> existsb f l = false.
Proof.
  intros Hf. induction 1 as [| y l Hy _ IH]; simpl; auto.
  now rewrite (Hf y Hy).
Qed.

Lemma process_transaction_returns {W} (h : handler W) (transaction : Transaction) (w : W) :
  returned (run h (process_transaction transaction) w) = Ok tt.
Proof.
  destruct (try_catch_returns h
              (existing_payments <-
                 await (get_payments_by_lamassu_transaction
                          (tx_transaction_id transaction)) ;;
               match existing_payments with
               | _ :: _ => Ret tt
               | [] =>
                   credit_success <- credit_source_wallet transaction ;;
                   if negb credit_success then Ret tt
                   else
                     stored_transaction <- store_lamassu_transaction transaction ;;
                     distributions <- calculate_distribution_amounts transaction ;;
                     match distributions with
                     | [] => Ret tt
                     | _ :: _ =>
                         commission_amount_sats <- lift (commission_to_send transaction) ;;
                         distribute_to_clients transaction distributions ;;
                         (if 0 <? commission_amount_sats
                          then send_commission_payment transaction commission_amount_sats ;;
                               Ret tt
                          else Ret tt) ;;
                         match nonempty stored_transaction with
                         | Some stored_transaction =>
                             let clients_count := Z.of_nat (List.length distributions) in
                             let distributions_total_sats := total_sats distributions in
                             await (update_lamassu_transaction_distribution_stats
                                      stored_transaction clients_count
                                      distributions_total_sats)
                         | None => Ret tt
                         end
                     end
               end) tt w) as [[] H].
  exact H.
Qed.

(** The loop of [poll_and_process] goes on to the next transaction
    whatever happened to the current one. *)
Lemma run_process_all_cons {W} (h : handler W) (transaction : Transaction)
  (rest : list Transaction) (w : W) :
  run h (process_all (transaction :: rest)) w =
  let o := run h (process_transaction transaction) w in
  let o' := run h (process_all rest) (final o) in
  Outcome (returned o') (final o') (trace o ++ trace o').
Proof.
  cbn [process_all]. rewrite run_bind. unfold and_then.
  now rewrite process_transaction_returns.
Qed.

(** The allocation only reads: the participants and their balances. *)
Lemma within_collect_balances_reads (allowed : call -> Prop)
  (transaction_time : option datetime) (flow_clients : list DcaClient) :
  (forall cid, allowed (get_client_balance_summary cid transaction_time)) ->
  forall client_balances total,
    within allowed (collect_balances transaction_time flow_clients client_balances total).
Proof.
  intros Hallowed. induction flow_clients as [| client rest IH]; intros cb total;
    cbn [collect_balances].
  - constructor.
  - apply within_bind; [apply within_await, Hallowed |].
    intros balance. destruct (0 <? remaining_balance balance); apply IH.
Qed.

Lemma within_calculate_reads (allowed : call -> Prop) (transaction : Transaction) :
  allowed get_flow_mode_clients ->
  (forall cid t, allowed (get_client_balance_summary cid t)) ->
  within allowed (calculate_distribution_amounts transaction).
Proof.
  intros Hclients Hbalance. unfold calculate_distribution_amounts.
  apply within_try_catch; [| constructor].
  apply within_bind; [apply within_await, Hclients |].
  intros [| client rest]; [constructor |].
  apply within_bind; [apply within_lift |]. intros transaction_time.
  destruct (tx_crypto_amount transaction); [| constructor].
  destruct (tx_fiat_amount transaction); [| constructor].
  apply within_bind; [apply within_lift |]. intros parts.
  apply within_bind; [apply within_collect_balances_reads; intros; apply Hbalance |].
  intros [client_balances total]. destruct (total =? 0); [constructor |].
  apply within_lift.
Qed.




(* ================================================================== *)
(** * What the fetch and the settlement may call *)

Create HintDb within discriminated.

Ltac within_more :=
  repeat first [ within_step | solve [auto with within] ];
  try exact I; try reflexivity.

Lemma within_execute_ssh_query db_config query :
  within fetch_or_settle (execute_ssh_query db_config query).
Proof. unfold execute_ssh_query. within_more. Qed.
#[local] Hint Resolve within_execute_ssh_query : within.

Lemma within_fetch_new_transactions db_config :
  within fetch_or_settle (fetch_new_transactions db_config).
Proof. unfold fetch_new_transactions. within_more. Qed.
#[local] Hint Resolve within_fetch_new_transactions : within.

Lemma within_credit_fetch_or_settle transaction :
  within fetch_or_settle (credit_source_wallet transaction).
Proof. unfold credit_source_wallet. within_more. Qed.
#[local] Hint Resolve within_credit_fetch_or_settle : within.

Lemma within_store_lamassu_transaction transaction :
  within fetch_or_settle (store_lamassu_transaction transaction).
Proof.
  rewrite (store_lamassu_transaction_is_none transaction). constructor.
Qed.
#[local] Hint Resolve within_store_lamassu_transaction : within.

Lemma within_collect_balances transaction_time flow_clients client_balances total :
  within fetch_or_settle
    (collect_balances transaction_time flow_clients client_balances total).
Proof.
  revert client_balances total.
  induction flow_clients as [| client rest IH]; intros; cbn [collect_balances].
  - constructor.
  - within_more; apply IH.
Qed.
#[local] Hint Resolve within_collect_balances : within.

Lemma within_calculate_distribution_amounts transaction :
  within fetch_or_settle (calculate_distribution_amounts transaction).
Proof. unfold calculate_distribution_amounts. within_more. Qed.
#[local] Hint Resolve within_calculate_distribution_amounts : within.

Lemma within_distribute_to_clients transaction distributions :
  within fetch_or_settle (distribute_to_clients transaction distributions).
Proof.
  unfold distribute_to_clients. apply within_try_catch; [| constructor].
  induction distributions as [| [client_id distribution] rest IH];
    cbn [distribute_loop].
  - constructor.
  - apply within_bind; [| intros; exact IH].
    unfold distribute_to_client, await. cbn.
    constructor; [exact I |]. intros [flow_clients | e]; cbn; [| constructor].
    destruct (find _ flow_clients); constructor.
Qed.
#[local] Hint Resolve within_distribute_to_clients : within.

Lemma within_send_commission_payment transaction commission_amount_sats :
  within fetch_or_settle (send_commission_payment transaction commission_amount_sats).
Proof. unfold send_commission_payment. within_more. Qed.
#[local] Hint Resolve within_send_commission_payment : within.

Lemma within_process_transaction transaction :
  within fetch_or_settle (process_transaction transaction).
Proof. unfold process_transaction. within_more. Qed.
#[local] Hint Resolve within_process_transaction : within.

Lemma within_process_all new_transactions :
  within fetch_or_settle (process_all new_transactions).
Proof.
  induction new_transactions as [| transaction rest IH]; cbn [process_all].
  - constructor.
  - apply within_bind; [apply within_process_transaction | intros; exact IH].
Qed.
#[local] Hint Resolve within_process_all : within.

Lemma fetch_new_transactions_returns {W} (h : handler W) db_config (w : W) :
  exists new_transactions,
    returned (run h (fetch_new_transactions db_config) w) = Ok new_transactions.
Proof. unfold fetch_new_transactions. apply try_catch_returns. Qed.

Lemma process_all_returns {W} (h : handler W) new_transactions (w : W) :
  returned (run h (process_all new_transactions) w) = Ok tt.
Proof.
  revert w. induction new_transactions as [| transaction rest IH]; intro w.
  - reflexivity.
  - rewrite run_process_all_cons. cbn. apply IH.
Qed.

(* ================================================================== *)
(** * The poll cycle *)

Lemma run_connect_to_lamassu_db {W} (h : handler W) (w w1 : W) (cfg : LamassuConfig) :
  h get_active_lamassu_config w = (Ok (Some cfg), w1) ->
  run h connect_to_lamassu_db w =
  Outcome (Ok (Some (db_config_of cfg)))
    (snd (h (update_config_test_result (cfg_id cfg) true) w1))
    [Event get_active_lamassu_config (Ok (Some cfg));
     Event (update_config_test_result (cfg_id cfg) true)
       (fst (h (update_config_test_result (cfg_id cfg) true) w1))].
Proof.
  intros Hcfg. unfold connect_to_lamassu_db, get_db_config, await. simpl.
  rewrite Hcfg. simpl.
  destruct (h (update_config_test_result (cfg_id cfg) true) w1) as [[[] | e] w2];
    reflexivity.
Qed.

(** The whole cycle, once the configuration has been retrieved. *)
Lemma run_poll_and_process {W} (h : handler W) (w w1 : W) (cfg : LamassuConfig) :
  h get_active_lamassu_config w = (Ok (Some cfg), w1) ->
  let cid := cfg_id cfg in
  let tested := h (update_config_test_result cid true) w1 in
  let started := h (update_poll_start_time cid) (snd tested) in
  let head := [Event get_active_lamassu_config (Ok (Some cfg));
               Event (update_config_test_result cid true) (fst tested);
               Event (update_poll_start_time cid) (fst started)] in
  let fetched := run h (fetch_new_transactions (db_config_of cfg)) (snd started) in
  run h poll_and_process w =
  match fst started with
  | Err _ => Outcome (Ok tt) (snd started) head
  | Ok _ =>
      match returned fetched with
      | Ok new_transactions =>
          let processed := run h (process_all new_transactions) (final fetched) in
          let finished := h (update_poll_success_time cid) (final processed) in
          Outcome (Ok tt) (snd finished)
            (head ++ trace fetched ++ trace processed
             ++ [Event (update_poll_success_time cid) (fst finished)])
      | Err _ => Outcome (Ok tt) (final fetched) (head ++ trace fetched)
      end
  end.
Proof.
  intros Hcfg cid tested started head fetched.
  pose proof (run_connect_to_lamassu_db h w w1 cfg Hcfg) as Hconnect.
  fold cid tested in Hconnect.
  set (after_start :=
         (new_transactions <- fetch_new_transactions (db_config_of cfg) ;;
          process_all new_transactions ;;
          await (update_poll_success_time cid)) : Prog unit).
  set (after_connect :=
         (await (update_poll_start_time cid) ;; after_start) : Prog unit).
  unfold poll_and_process.
  match goal with
  | |- run h (try_catch ?b _) w = _ => set (body := b)
  end.
  assert (Hbody :
            run h body w
            = prepend [Event get_active_lamassu_config (Ok (Some cfg));
                       Event (update_config_test_result cid true) (fst tested)]
                (run h after_connect (snd tested))).
  { unfold body. erewrite run_bind_Ok by (rewrite Hconnect; reflexivity).
    rewrite Hconnect. reflexivity. }
  assert (Hstart : run h (await (update_poll_start_time cid)) (snd tested)
                   = Outcome (fst started) (snd started)
                       [Event (update_poll_start_time cid) (fst started)]).
  { apply run_await. }
  destruct (fst started) as [[] | e] eqn:Estart.
  - assert (Hafter : run h after_connect (snd tested)
                     = prepend [Event (update_poll_start_time cid) (Ok tt)]
                         (run h after_start (snd started))).
    { unfold after_connect.
      erewrite run_bind_Ok by (rewrite Hstart; reflexivity).
      rewrite Hstart. reflexivity. }
    destruct (returned fetched) as [new_transactions | e] eqn:Efetch.
    + set (processed := run h (process_all new_transactions) (final fetched)).
      set (finished := h (update_poll_success_time cid) (final processed)).
      assert (Hrest : run h after_start (snd started)
                      = Outcome (fst finished) (snd finished)
                          (trace fetched ++ trace processed
                           ++ [Event (update_poll_success_time cid) (fst finished)])).
      { unfold after_start.
        erewrite run_bind_Ok by exact Efetch. fold fetched.
        erewrite run_bind_Ok by apply process_all_returns. fold processed.
        assert (Hfin : @run W unit h (await (update_poll_success_time cid))
                         (final processed)
                       = Outcome (fst finished) (snd finished)
                           [Event (update_poll_success_time cid) (fst finished)])
          by exact (run_await h (update_poll_success_time cid) (final processed)).
        rewrite Hfin. reflexivity. }
      destruct (fst finished) as [[] | e'] eqn:Efin.
      * erewrite run_try_catch_Ok
          by (rewrite Hbody, Hafter, Hrest; reflexivity).
        rewrite Hbody, Hafter, Hrest. unfold prepend. cbn [returned final trace].
        subst head. cbn [app]. reflexivity.
      * erewrite run_try_catch_Err
          by (rewrite Hbody, Hafter, Hrest; reflexivity).
        rewrite Hbody, Hafter, Hrest. unfold prepend.
        cbn [returned final trace run]. subst head. cbn [app].
        rewrite app_nil_r. reflexivity.
    + assert (Hrest : run h after_start (snd started)
                      = Outcome (Err e) (final fetched) (trace fetched)).
      { unfold after_start. erewrite run_bind_Err by exact Efetch. reflexivity. }
      erewrite run_try_catch_Err by (rewrite Hbody, Hafter, Hrest; reflexivity).
      rewrite Hbody, Hafter, Hrest. unfold prepend.
      cbn [returned final trace run]. subst head. cbn [app].
      rewrite app_nil_r. reflexivity.
  - assert (Hafter : run h after_connect (snd tested)
                     = Outcome (Err e) (snd started)
                         [Event (update_poll_start_time cid) (Err e)]).
    { unfold after_connect.
      erewrite run_bind_Err by (rewrite Hstart; reflexivity).
      rewrite Hstart. reflexivity. }
    erewrite run_try_catch_Err by (rewrite Hbody, Hafter; reflexivity).
    rewrite Hbody, Hafter. unfold prepend.
    cbn [returned final trace run]. subst head. cbn [app].
    reflexivity.
Qed.

Lemma fetch_or_settle_not_poll_success (l : list call) :
  Forall fetch_or_settle l -> existsb records_poll_success l = false.
Proof.
  apply existsb_excluded. intros [] Hc; try reflexivity; destruct Hc.
Qed.

(** The trace of a poll cycle whose configuration read yields a record:
    the read, the test-result write, the attempted-watermark write, then
    either nothing (that write raised) or the fetch, the processing loop
    and the success-watermark write. *)
Lemma poll_cycle_trace :
  forall (W : Type) (h : handler W) (w w1 : W) (cfg : LamassuConfig),
    h get_active_lamassu_config w = (Ok (Some cfg), w1) ->
    let cid := cfg_id cfg in
    let tested := h (update_config_test_result cid true) w1 in
    let started := h (update_poll_start_time cid) (snd tested) in
    exists rest,
      trace (run h poll_and_process w)
      = Event get_active_lamassu_config (Ok (Some cfg))
        :: Event (update_config_test_result cid true) (fst tested)
        :: Event (update_poll_start_time cid) (fst started)
        :: rest /\
      match fst started with
      | Err _ => rest = []
      | Ok _ =>
          let fetched :=
            run h (fetch_new_transactions (db_config_of cfg)) (snd started) in
          exists new_transactions,
            returned fetched = Ok new_transactions /\
            let processed := run h (process_all new_transactions) (final fetched) in
            returned processed = Ok tt /\
            rest = trace fetched ++ trace processed
                   ++ [Event (update_poll_success_time cid)
                         (fst (h (update_poll_success_time cid) (final processed)))] /\
            existsb records_poll_success (calls (trace fetched ++ trace processed))
            = false
      end.
Proof.
  intros W h w w1 cfg Hcfg cid tested started.
  pose proof (run_poll_and_process h w w1 cfg Hcfg) as Hrun.
  cbv zeta in Hrun. fold cid tested started in Hrun.
  destruct (fst started) as [[] | e] eqn:Estart.
  - destruct (fetch_new_transactions_returns h (db_config_of cfg) (snd started))
      as [new_transactions Hfetch].
    rewrite Hfetch in Hrun. rewrite Hrun. cbn [trace app].
    eexists. split; [reflexivity |].
    exists new_transactions. split; [exact Hfetch |].
    split; [apply process_all_returns |]. split; [reflexivity |].
    apply fetch_or_settle_not_poll_success.
    unfold calls. rewrite map_app. apply Forall_app. split.
    + apply (within_trace fetch_or_settle), within_fetch_new_transactions.
    + apply (within_trace fetch_or_settle), within_process_all.
  - rewrite Hrun. cbn [trace]. eexists. split; reflexivity.
Qed.

(** C4 (amended). In every poll cycle in which the configuration is
    retrieved, the attempted-poll watermark update is the third call of the
    cycle (after the configuration read and the test-result write), issued
    before anything is fetched or processed and whatever the rest of the
    cycle does.  The successful-poll watermark update is issued only as the
    last call of a cycle whose fetch and whose whole processing loop have
    run: when the attempted-watermark update raises (the one top-level
    error of the cycle) nothing follows it, and neither the fetch nor the
    processing of the transactions ever writes a watermark.  A cycle whose
    configuration read raises or finds no record ends after that read: it
    updates neither watermark. *)
Theorem poll_watermarks :
  forall (W : Type) (h : handler W) (w : W),
    let read := h get_active_lamassu_config w in
    let o := run h poll_and_process w in
    match fst read with
    | Ok (Some cfg) =>
        let cid := cfg_id cfg in
        let tested := h (update_config_test_result cid true) (snd read) in
        let started := h (update_poll_start_time cid) (snd tested) in
        exists rest,
          trace o
          = Event get_active_lamassu_config (Ok (Some cfg))
            :: Event (update_config_test_result cid true) (fst tested)
            :: Event (update_poll_start_time cid) (fst started)
            :: rest /\
          match fst started with
          | Err _ => rest = []
          | Ok _ =>
              let fetched :=
                run h (fetch_new_transactions (db_config_of cfg)) (snd started) in
              exists new_transactions,
                returned fetched = Ok new_transactions /\
                let processed :=
                  run h (process_all new_transactions) (final fetched) in
                returned processed = Ok tt /\
                rest = trace fetched ++ trace processed
                       ++ [Event (update_poll_success_time cid)
                             (fst (h (update_poll_success_time cid)
                                     (final processed)))] /\
                existsb records_poll_success
                  (calls (trace fetched ++ trace processed))
                = false
          end
    | Ok None | Err _ =>
        o = Outcome (Ok tt) (snd read) [Event get_active_lamassu_config (fst read)]
        /\ existsb records_poll_start (calls (trace o)) = false
        /\ existsb records_poll_success (calls (trace o)) = false
    end.
Proof.
  intros W h w read o.
  destruct (fst read) as [[cfg |] | e] eqn:Eread.
  - apply (poll_cycle_trace W h w (snd read) cfg).
    subst read. destruct (h get_active_lamassu_config w) as [r w1].
    cbn [fst snd] in *. now rewrite Eread.
  - assert (Ho : o = Outcome (Ok tt) (snd read)
                       [Event get_active_lamassu_config (Ok None)]).
    { subst o read. unfold poll_and_process, connect_to_lamassu_db, get_db_config, await.
      simpl. destruct (h get_active_lamassu_config w) as [r w1].
      cbn [fst snd] in *. subst r. reflexivity. }
    rewrite Ho. repeat split.
  - assert (Ho : o = Outcome (Ok tt) (snd read)
                       [Event get_active_lamassu_config (Err e)]).
    { subst o read. unfold poll_and_process, connect_to_lamassu_db, get_db_config, await.
      simpl. destruct (h get_active_lamassu_config w) as [r w1].
      cbn [fst snd] in *. subst r. reflexivity. }
    rewrite Ho. repeat split.
Qed.

(** A cycle at the sample world: the attempted watermark is written, and
    the success watermark after the one ledger row has been processed. *)
Lemma poll_watermarks_witness :
  exists rest,
    trace (run collaborators poll_and_process world_with_clients)
    = Event get_active_lamassu_config (Ok (Some sample_config))
      :: Event (update_config_test_result "cfg-1" true) (Ok tt)
      :: Event (update_poll_start_time "cfg-1") (Ok tt)
      :: rest /\
    existsb records_poll_success (calls rest) = true.
Proof.
  destruct (poll_watermarks World collaborators world_with_clients)
    as (rest & Htrace & Hrest).
  exists rest. split; [exact Htrace |].
  clear Hrest. vm_compute in Htrace. injection Htrace as Hrest.
  rewrite <- Hrest. reflexivity.
Defined.

(** C4, as stated, fails: when the configuration cannot be read the cycle
    ends after that one call, and the attempted-poll watermark of the
    (existing) configuration record stays as it was. *)
Lemma poll_attempt_not_recorded :
  let o := run collaborators_config_down poll_and_process world_with_clients in
  attempted_watermark world_with_clients = None /\
  calls (trace o) = [get_active_lamassu_config] /\
  existsb records_poll_start (calls (trace o)) = false /\
  attempted_watermark (final o) = None.
Proof. vm_compute. repeat split. Qed.

(* ================================================================== *)
(** * The test-result flag *)

Lemma within_keeps_test_success {A} (p : Prog A) :
  within fetch_or_settle p -> within keeps_test_success p.
Proof.
  apply within_weaken. intros [] Hc; try exact I; destruct Hc.
Qed.

Lemma within_poll_and_process : within keeps_test_success poll_and_process.
Proof.
  unfold poll_and_process, connect_to_lamassu_db, get_db_config.
  repeat first [ within_step
               | solve [apply within_keeps_test_success; auto with within] ];
    try exact I.
Qed.

Lemma collaborators_keep_test_success (c : call) (w : World) :
  keeps_test_success c ->
  stored_test_result w = Some true ->
  stored_test_result (snd (collaborators c w)) = Some true.
Proof.
  unfold stored_test_result.
  destruct c; cbn; intros Hc Hw; auto;
    try (unfold update_config;
         destruct (config w) as [c0 |] eqn:E; [| discriminate];
         destruct (String.eqb (cfg_id c0) _); cbn; rewrite ?E; auto).
  - match goal with
    | H : if ?b then True else False |- _ => destruct b; [reflexivity | destruct H]
    end.
  - destruct amount; cbn; auto.
  - destruct (lookup wallet (wallets w)); cbn; auto.
  - destruct (lookup payment_request (invoices w)) as [[destination amount0] |];
      cbn; auto.
    destruct (lookup wallet (wallets w)); cbn; auto.
    destruct (amount0 <=? z); cbn; auto.
  - destruct (remote_reachable w); cbn; auto. destruct query; cbn; auto.
Qed.

(** C10. In every poll cycle in which the configuration read yields a
    record, the second call of the cycle, straight after that read and
    before any tunnel or query, is [update_config_test_result] with
    [True].  With the reference collaborators the stored last-test-result
    flag is therefore [True] after every such cycle, whatever it was before
    and whether or not the remote host can be reached. *)
Theorem poll_overwrites_test_result :
  (forall (W : Type) (h : handler W) (w w1 : W) (cfg : LamassuConfig),
      h get_active_lamassu_config w = (Ok (Some cfg), w1) ->
      exists answer rest,
        trace (run h poll_and_process w)
        = Event get_active_lamassu_config (Ok (Some cfg))
          :: Event (update_config_test_result (cfg_id cfg) true) answer
          :: rest) /\
  (forall (w : World) (cfg : LamassuConfig),
      config w = Some cfg ->
      stored_test_result (final (run collaborators poll_and_process w)) = Some true).
Proof.
  split.
  - intros W h w w1 cfg Hcfg.
    destruct (poll_cycle_trace W h w w1 cfg Hcfg) as (rest & Htrace & _).
    rewrite Htrace. eauto.
  - intros w cfg Hcfg.
    assert (Hread : collaborators get_active_lamassu_config w = (Ok (Some cfg), w)).
    { cbn. now rewrite Hcfg. }
    destruct (poll_cycle_trace World collaborators w w cfg Hread)
      as (rest & Htrace & _).
    pose proof (within_trace keeps_test_success poll_and_process
                  within_poll_and_process collaborators w) as Hkeeps.
    rewrite final_replay, Htrace. rewrite Htrace in Hkeeps.
    cbn [calls map ev_call] in Hkeeps.
    inversion Hkeeps as [| c1 l1 _ Hk1]; subst.
    inversion Hk1 as [| c2 l2 _ Hk2]; subst.
    do 2 rewrite replay_cons. cbn [ev_call].
    apply (replay_invariant collaborators keeps_test_success
             (fun w' => stored_test_result w' = Some true)
             collaborators_keep_test_success).
    + exact Hk2.
    + cbn. unfold stored_test_result, update_config. rewrite Hcfg.
      now rewrite String.eqb_refl.
Qed.

(** A cycle that cannot reach the remote host erases a recorded failure. *)
Lemma poll_overwrites_test_result_witness :
  stored_test_result world_unreachable = Some false /\
  remote_reachable world_unreachable = false /\
  stored_test_result (final (run collaborators poll_and_process world_unreachable))
  = Some true.
Proof.
  split; [reflexivity |]. split; [reflexivity |].
  apply (proj2 poll_overwrites_test_result world_unreachable sample_config).
  reflexivity.
Defined.

(* ================================================================== *)
(** * Where the code departs from its own intent *)

(** C6 at a concrete input.  Two participants hold 300 and 700; the
    sample transaction is allocated 30000 and 70000 atomic units; yet
    [process_transaction] records no payment and pays nobody: each
    iteration of [distribute_to_clients] stops at the unbound
    [transaction_time].  The pooled account keeps the whole base amount; the
    commission step still runs. *)
Lemma participants_get_no_payment :
  let o := run collaborators (process_transaction sample_transaction)
             world_with_clients in
  map (fun kv => (fst kv, d_sats_amount (snd kv)))
    (match returned (run collaborators
                       (calculate_distribution_amounts sample_transaction)
                       world_with_clients) with
     | Ok distributions => distributions
     | Err _ => []
     end)
  = [("alice", 30000); ("bob", 70000)] /\
  returned o = Ok tt /\
  payments (final o) = [] /\
  existsb records_payment (calls (trace o)) = false /\
  wallets (final o)
  = [("pool", 100000); ("fees", 5000); ("alice-wallet", 0); ("bob-wallet", 0)].
Proof. vm_compute. repeat split. Qed.

(** C7 at concrete inputs.  With a configuration record present and the
    remote host down, the probe fails at the trivial query (or, when a
    tunnel is required, at the tunnel) and leaves by the [return result]
    inside the [try]: [update_config_test_result] is never called and the
    stored flag still says the last test succeeded. *)
Lemma failed_probe_is_not_persisted :
  let at_query := run collaborators (test_connection_detailed true) world_gone_dark in
  let at_tunnel := run collaborators (test_connection_detailed true) world_tunnel_down in
  (exists r, returned at_query = Ok r /\ success r = false /\
             result_config_id r = Some "cfg-1" /\
             steps r = [RetrievingConfiguration; ConfigurationRetrieved;
                        DirectConnection; TestingQuery; QueryTestFailed]) /\
  existsb persists_test_result (calls (trace at_query)) = false /\
  stored_test_result (final at_query) = Some true /\
  (exists r, returned at_tunnel = Ok r /\ success r = false /\
             result_config_id r = Some "cfg-1" /\
             steps r = [RetrievingConfiguration; ConfigurationRetrieved;
                        SettingUpTunnel; SshTunnelFailed]) /\
  existsb persists_test_result (calls (trace at_tunnel)) = false /\
  stored_test_result (final at_tunnel) = Some true.
Proof.
  vm_compute. repeat split; eexists; repeat split.
Qed.

(* ================================================================== *)
(** * Double-precision arithmetic *)

(** The lemmas of this part relate the operations of [SpecFloat] to the
    rational numbers they round: shifting with round and sticky bits,
    rounding to nearest even, and from there division, multiplication,
    conversion and truncation. *)


(* ---------- digits ---------- *)
Lemma digits2_pos_bounds (p : positive) :
  2 ^ (Zpos (digits2_pos p) - 1) <= Zpos p < 2 ^ Zpos (digits2_pos p).
Proof.
  induction p as [p IH | p IH |]; cbn [digits2_pos].
  - rewrite Pos2Z.inj_succ.
    replace (Z.succ (Zpos (digits2_pos p)) - 1) with (Z.succ (Zpos (digits2_pos p) - 1)) by lia.
    rewrite !Z.pow_succ_r by lia. lia.
  - rewrite Pos2Z.inj_succ.
    replace (Z.succ (Zpos (digits2_pos p)) - 1) with (Z.succ (Zpos (digits2_pos p) - 1)) by lia.
    rewrite !Z.pow_succ_r by lia. lia.
  - cbn. lia.
Qed.

Lemma Zdigits2_bounds (m : Z) :
  0 < m -> 2 ^ (Zdigits2 m - 1) <= m < 2 ^ Zdigits2 m.
Proof.
  destruct m as [| p | p]; try lia. intros _. apply digits2_pos_bounds.
Qed.

Lemma Zdigits2_pos (m : Z) : 0 < m -> 0 < Zdigits2 m.
Proof. destruct m; cbn; lia. Qed.

Lemma Zdigits2_nonneg (m : Z) : 0 <= Zdigits2 m.
Proof. destruct m; cbn; lia. Qed.

Lemma Zdigits2_unique (m d : Z) :
  2 ^ (d - 1) <= m < 2 ^ d -> 0 < m -> Zdigits2 m = d.
Proof.
  intros [Hlo Hhi] Hm.
  destruct (Zdigits2_bounds m Hm) as [Hlo' Hhi'].
  pose proof (Zdigits2_pos m Hm) as Hd.
  assert (0 < d).
  { destruct (Z_lt_le_dec 0 d) as [|Hle]; auto.
    assert (2 ^ d <= 2 ^ 0) by (apply Z.pow_le_mono_r; lia || (rewrite Z.pow_neg_r; lia)).
    destruct (Z.eq_dec d 0); [subst; cbn in *; lia |].
    rewrite Z.pow_neg_r in Hhi by lia. lia. }
  destruct (Z_lt_le_dec (Zdigits2 m) d) as [Hlt | Hge].
  - assert (2 ^ Zdigits2 m <= 2 ^ (d - 1)) by (apply Z.pow_le_mono_r; lia). lia.
  - destruct (Z_lt_le_dec d (Zdigits2 m)) as [Hlt | Hge']; [| lia].
    assert (2 ^ d <= 2 ^ (Zdigits2 m - 1)) by (apply Z.pow_le_mono_r; lia). lia.
Qed.

(* ---------- iterating shr_1 ---------- *)
Lemma iter_pos_nat {A} (f : A -> A) (p : positive) (x : A) :
  iter_pos f p x = Nat.iter (Pos.to_nat p) f x.
Proof.
  revert x. induction p as [p IH | p IH |]; intro x; cbn [iter_pos].
  - rewrite Pos2Nat.inj_xI. rewrite !IH.
    replace (S (2 * Pos.to_nat p))%nat with (Pos.to_nat p + (Pos.to_nat p + 1))%nat by lia.
    rewrite !Nat.iter_add. cbn. reflexivity.
  - rewrite Pos2Nat.inj_xO. rewrite !IH.
    replace (2 * Pos.to_nat p)%nat with (Pos.to_nat p + Pos.to_nat p)%nat by lia.
    now rewrite Nat.iter_add.
  - reflexivity.
Qed.

Lemma loc_record_inv (m : Z) (l : location) :
  loc_of_shr_record (shr_record_of_loc m l) = l /\ shr_m (shr_record_of_loc m l) = m.
Proof. destruct l as [| []]; split; reflexivity. Qed.

Lemma shr_1_spec (m p q : Z) :
  0 <= m -> 0 <= p < q ->
  shr_1 (shr_record_of_loc m (loc_of p q)) =
  shr_record_of_loc (m / 2) (loc_of ((m mod 2) * q + p) (2 * q)).
Proof.
  intros Hm Hpq. unfold loc_of.
  destruct m as [| [m' | m' |] |]; try lia.
  - (* 0 *)
    change (0 / 2) with 0. change (0 mod 2) with 0.
    destruct (Z.eqb_spec p 0) as [-> | Hp].
    + cbn. reflexivity.
    + replace (0 * q + p =? 0) with false by (symmetry; apply Z.eqb_neq; lia).
      replace (2 * (0 * q + p) ?= 2 * q) with Lt by (symmetry; apply Z.compare_lt_iff; lia).
      destruct (2 * p ?= q); reflexivity.
  - (* odd, 2m'+1 *)
    replace (Zpos m'~1 / 2) with (Zpos m') by (rewrite Pos2Z.inj_xI; apply Z.div_unique with 1; lia).
    replace (Zpos m'~1 mod 2) with 1 by (rewrite Pos2Z.inj_xI; apply Z.mod_unique with (Zpos m'); lia).
    destruct (Z.eqb_spec p 0) as [-> | Hp].
    + replace (1 * q + 0 =? 0) with false by (symmetry; apply Z.eqb_neq; lia).
      replace (2 * (1 * q + 0) ?= 2 * q) with Eq by (symmetry; apply Z.compare_eq_iff; lia).
      reflexivity.
    + replace (1 * q + p =? 0) with false by (symmetry; apply Z.eqb_neq; lia).
      replace (2 * (1 * q + p) ?= 2 * q) with Gt by (symmetry; apply Z.compare_gt_iff; lia).
      destruct (2 * p ?= q); reflexivity.
  - (* even *)
    replace (Zpos m'~0 / 2) with (Zpos m') by (rewrite Pos2Z.inj_xO; apply Z.div_unique with 0; lia).
    replace (Zpos m'~0 mod 2) with 0 by (rewrite Pos2Z.inj_xO; apply Z.mod_unique with (Zpos m'); lia).
    destruct (Z.eqb_spec p 0) as [-> | Hp].
    + cbn. reflexivity.
    + replace (0 * q + p =? 0) with false by (symmetry; apply Z.eqb_neq; lia).
      replace (2 * (0 * q + p) ?= 2 * q) with Lt by (symmetry; apply Z.compare_lt_iff; lia).
      destruct (2 * p ?= q); reflexivity.
  - (* 1 *)
    change (1 / 2) with 0. change (1 mod 2) with 1.
    destruct (Z.eqb_spec p 0) as [-> | Hp].
    + replace (1 * q + 0 =? 0) with false by (symmetry; apply Z.eqb_neq; lia).
      replace (2 * (1 * q + 0) ?= 2 * q) with Eq by (symmetry; apply Z.compare_eq_iff; lia).
      reflexivity.
    + replace (1 * q + p =? 0) with false by (symmetry; apply Z.eqb_neq; lia).
      replace (2 * (1 * q + p) ?= 2 * q) with Gt by (symmetry; apply Z.compare_gt_iff; lia).
      destruct (2 * p ?= q); reflexivity.
Qed.

Lemma shr_iter (n : nat) (m p q : Z) :
  0 <= m -> 0 <= p < q ->
  Nat.iter n shr_1 (shr_record_of_loc m (loc_of p q)) =
  shr_record_of_loc (m / 2 ^ Z.of_nat n)
    (loc_of ((m mod 2 ^ Z.of_nat n) * q + p) (2 ^ Z.of_nat n * q)).
Proof.
  intros Hm Hpq. induction n as [| n IH].
  - change (Nat.iter 0 shr_1 ?x) with x. cbn [Z.of_nat]. rewrite Z.pow_0_r, Z.div_1_r, Z.mod_1_r.
    now replace (0 * q + p) with p by lia; replace (1 * q) with q by lia.
  - rewrite Nat.iter_succ, IH.
    assert (Hpow : 0 < 2 ^ Z.of_nat n) by (apply Z.pow_pos_nonneg; lia).
    pose proof (Z.mod_pos_bound m (2 ^ Z.of_nat n) Hpow) as Hmod.
    rewrite shr_1_spec.
    + rewrite Nat2Z.inj_succ, Z.pow_succ_r by lia.
      rewrite Z.div_div by lia.
      replace (2 * 2 ^ Z.of_nat n) with (2 ^ Z.of_nat n * 2) by lia.
      rewrite (Z.rem_mul_r m (2 ^ Z.of_nat n) 2) by lia.
      f_equal. f_equal; lia.
    + apply Z.div_pos; lia.
    + nia.
Qed.

Lemma shr_spec (m p q e n : Z) :
  0 <= m -> 0 <= p < q -> 0 <= n ->
  shr (shr_record_of_loc m (loc_of p q)) e n =
  (shr_record_of_loc (m / 2 ^ n) (loc_of ((m mod 2 ^ n) * q + p) (2 ^ n * q)), e + n).
Proof.
  intros Hm Hpq Hn. destruct n as [| n | n]; try lia.
  - cbn [shr]. rewrite Z.pow_0_r, Z.div_1_r, Z.mod_1_r, Z.add_0_r.
    now replace (0 * q + p) with p by lia; replace (1 * q) with q by lia.
  - cbn [shr]. rewrite iter_pos_nat, shr_iter by assumption.
    now rewrite positive_nat_Z.
Qed.

Lemma round_nearest_even_rne (m p q : Z) :
  0 < q -> round_nearest_even m (loc_of p q) = rne m p q.
Proof.
  intros Hq. unfold loc_of, rne.
  destruct (Z.eqb_spec p 0) as [-> | Hp].
  - assert (E : (2 * 0 ?= q) = Lt) by (apply Z.compare_lt_iff; lia).
    rewrite E. reflexivity.
  - cbn [round_nearest_even]. destruct (2 * p ?= q); reflexivity.
Qed.

Lemma rne_range (m p q : Z) : m <= rne m p q <= m + 1.
Proof. unfold rne. destruct (2 * p ?= q); [destruct (Z.even m) | |]; lia. Qed.

Section Round.

Variables prec emax : Z.
Hypothesis prec_gt_0 : 0 < prec.
Hypothesis prec_lt_emax : prec < emax.

Lemma fexp_ge_emin e : emin prec emax <= fexp prec emax e.
Proof. unfold fexp. lia. Qed.

Lemma fexp_mono e1 e2 : e1 <= e2 -> fexp prec emax e1 <= fexp prec emax e2.
Proof. unfold fexp. lia. Qed.

Lemma shr_fexp_exact_small (m e : Z) :
  0 <= m < 2 ^ prec -> emin prec emax <= e ->
  shr_fexp prec emax m e loc_Exact = (shr_record_of_loc m loc_Exact, e).
Proof.
  intros [Hm Hhi] He. unfold shr_fexp.
  assert (Hn : fexp prec emax (Zdigits2 m + e) - e <= 0).
  { destruct (Z.eq_dec m 0) as [-> | Hne].
    - cbn [Zdigits2]. unfold fexp. lia.
    - assert (Zdigits2 m <= prec).
      { destruct (Z_lt_le_dec prec (Zdigits2 m)) as [Hlt | Hle]; [| exact Hle].
        assert (Hm0 : 0 < m) by lia.
        destruct (Zdigits2_bounds m Hm0) as [Hlo _].
        assert (2 ^ prec <= 2 ^ (Zdigits2 m - 1)) by (apply Z.pow_le_mono_r; lia). lia. }
      unfold fexp. lia. }
  unfold shr. destruct (fexp prec emax (Zdigits2 m + e) - e); try reflexivity. lia.
Qed.

Lemma shr_fexp_exact_carry (e : Z) :
  emin prec emax <= e ->
  shr_fexp prec emax (2 ^ prec) e loc_Exact
  = (shr_record_of_loc (2 ^ (prec - 1)) loc_Exact, e + 1).
Proof.
  intros He. unfold shr_fexp.
  assert (Hp : 0 < 2 ^ prec) by (apply Z.pow_pos_nonneg; lia).
  assert (Hd : Zdigits2 (2 ^ prec) = prec + 1).
  { apply Zdigits2_unique; [| exact Hp].
    replace (prec + 1 - 1) with prec by lia.
    rewrite Z.pow_add_r by lia. lia. }
  rewrite Hd.
  replace (fexp prec emax (prec + 1 + e) - e) with 1 by (unfold fexp; lia).
  change loc_Exact with (loc_of 0 1).
  rewrite shr_spec by lia.
  rewrite Z.pow_1_r.
  replace (2 ^ prec) with (2 ^ (prec - 1) * 2)
    by (rewrite Z.mul_comm, <- Z.pow_succ_r by lia; f_equal; lia).
  rewrite Z.div_mul, Z.mod_mul by lia.
  reflexivity.
Qed.

Lemma round_aux_core (s : bool) (mx ex p q : Z) :
  0 <= mx -> 0 <= p < q ->
  ex <= cexp prec emax mx ex ->
  let n := cexp prec emax mx ex - ex in
  let m1 := mx / 2 ^ n in
  let p1 := (mx mod 2 ^ n) * q + p in
  let q1 := 2 ^ n * q in
  let m2 := rne m1 p1 q1 in
  binary_round_aux prec emax s mx ex (loc_of p q)
  = (if m2 =? 2 ^ prec then pack prec emax s (2 ^ (prec - 1)) (cexp prec emax mx ex + 1)
     else pack prec emax s m2 (cexp prec emax mx ex))
  /\ 0 <= m1 < 2 ^ prec
  /\ 0 <= p1 < q1
  /\ m1 * q1 + p1 = (mx * q + p)
  /\ (2 ^ (prec - 1) <= m1 \/ cexp prec emax mx ex = emin prec emax).
Proof.
  intros Hmx Hpq Hex n m1 p1 q1 m2.
  assert (Hn : 0 <= n) by (unfold n; lia).
  assert (Hpow : 0 < 2 ^ n) by (apply Z.pow_pos_nonneg; lia).
  assert (Hpp : 0 < 2 ^ prec) by (apply Z.pow_pos_nonneg; lia).
  pose proof (Z.mod_pos_bound mx (2 ^ n) Hpow) as Hmod.
  pose proof (Z.div_mod mx (2 ^ n) ltac:(lia)) as Hdm.
  assert (Hm1 : 0 <= m1) by (apply Z.div_pos; lia).
  assert (Hpq1 : 0 <= p1 < q1) by (unfold p1, q1; nia).
  assert (Hm1hi : m1 < 2 ^ prec).
  { destruct (Z.eq_dec mx 0) as [-> | Hne].
    - unfold m1. rewrite Z.div_0_l; lia.
    - assert (Hm0 : 0 < mx) by lia.
      destruct (Zdigits2_bounds mx Hm0) as [_ Hhi].
      pose proof (Zdigits2_pos mx Hm0) as Hd.
      assert (Hnd : Zdigits2 mx - prec <= n) by (unfold n, cexp, fexp; lia).
      apply Z.div_lt_upper_bound; [lia |].
      rewrite <- Z.pow_add_r by lia.
      apply Z.lt_le_trans with (1 := Hhi).
      apply Z.pow_le_mono_r; lia. }
  assert (Hsplit : m1 * q1 + p1 = mx * q + p) by (unfold m1, p1, q1; nia).
  assert (Hnorm : 2 ^ (prec - 1) <= m1 \/ cexp prec emax mx ex = emin prec emax).
  { destruct (Z.eq_dec mx 0) as [E0 | Hne].
    { right. subst mx. unfold cexp, fexp in *. cbn [Zdigits2] in *. lia. }
    assert (Hm0 : 0 < mx) by lia. unfold cexp, fexp.
    destruct (Z_lt_le_dec (Zdigits2 mx + ex - prec) (emin prec emax)) as [Hlt | Hge].
    - right. lia.
    - left. assert (Hnn : n = Zdigits2 mx - prec) by (unfold n, cexp, fexp; lia).
      destruct (Zdigits2_bounds mx Hm0) as [Hlo _].
      unfold m1. rewrite Hnn. apply Z.div_le_lower_bound; [lia |].
      rewrite <- Z.pow_add_r by lia.
      replace (Zdigits2 mx - prec + (prec - 1)) with (Zdigits2 mx - 1) by lia.
      exact Hlo. }
  split; [| repeat split; auto; lia].
  unfold binary_round_aux, shr_fexp at 1. fold (cexp prec emax mx ex). fold n.
  rewrite shr_spec by lia. fold m1 p1 q1.
  destruct (loc_record_inv m1 (loc_of p1 q1)) as [-> ->].
  rewrite round_nearest_even_rne by lia. fold m2.
  replace (ex + n) with (cexp prec emax mx ex) by (unfold n; lia).
  pose proof (rne_range m1 p1 q1) as Hr. fold m2 in Hr.
  pose proof (fexp_ge_emin (Zdigits2 mx + ex)) as Hce. fold (cexp prec emax mx ex) in Hce.
  destruct (Z.eqb_spec m2 (2 ^ prec)) as [E | NE].
  - rewrite E, shr_fexp_exact_carry by exact Hce.
    cbn [shr_m shr_record_of_loc].
    assert (0 < 2 ^ (prec - 1)) by (apply Z.pow_pos_nonneg; lia).
    unfold pack. destruct (2 ^ (prec - 1)); try lia. reflexivity.
  - rewrite shr_fexp_exact_small by lia.
    cbn [shr_m shr_record_of_loc]. unfold pack.
    destruct m2; try lia; reflexivity.
Qed.

End Round.


(* ---------- powers of two ---------- *)
Lemma pow2_pos e : (0 < pow2 e)%Q.
Proof. unfold pow2. apply Qpower_0_lt. reflexivity. Qed.

Lemma pow2_add a b : (pow2 (a + b) == pow2 a * pow2 b)%Q.
Proof. unfold pow2. apply Qpower_plus. discriminate. Qed.

Lemma pow2_Z n : 0 <= n -> (pow2 n == inject_Z (2 ^ n))%Q.
Proof. intros Hn. unfold pow2. now rewrite Zpower_Qpower. Qed.

Lemma pow2_0 : (pow2 0 == 1)%Q.
Proof. reflexivity. Qed.

Lemma pow2_le a b : a <= b -> (pow2 a <= pow2 b)%Q.
Proof.
  intros Hab. replace b with (a + (b - a)) by lia. rewrite pow2_add.
  assert (H : (1 <= pow2 (b - a))%Q).
  { rewrite pow2_Z by lia. change 1%Q with (inject_Z 1). rewrite <- Zle_Qle.
    assert (0 < 2 ^ (b - a)) by (apply Z.pow_pos_nonneg; lia). lia. }
  pose proof (pow2_pos a). nra.
Qed.


Lemma pow2_split a b : (pow2 a == pow2 (a - b) * pow2 b)%Q.
Proof. rewrite <- pow2_add. now replace (a - b + b) with a by lia. Qed.

Lemma pow2_inv a : (pow2 (- a) * pow2 a == 1)%Q.
Proof. rewrite <- pow2_add. now replace (- a + a) with 0 by lia. Qed.

(* inject_Z helpers *)
Lemma inject_Z_le a b : a <= b -> (inject_Z a <= inject_Z b)%Q.
Proof. intros H. now rewrite <- Zle_Qle. Qed.
Lemma inject_Z_lt a b : a < b -> (inject_Z a < inject_Z b)%Q.
Proof. intros H. now rewrite <- Zlt_Qlt. Qed.

(* ---------- rne at the level of Z ---------- *)
Lemma rne_half (m p q : Z) :
  0 <= p < q ->
  - q <= 2 * (rne m p q * q - (m * q + p)) <= q.
Proof.
  intros Hpq. unfold rne.
  destruct (Z.compare_spec (2 * p) q) as [E | L | G].
  - destruct (Z.even m); nia.
  - nia.
  - nia.
Qed.

Lemma rne_up_only_if (m p q : Z) :
  0 <= p < q -> rne m p q = m \/ (rne m p q = m + 1 /\ q <= 2 * p).
Proof.
  intros Hpq. unfold rne.
  destruct (Z.compare_spec (2 * p) q) as [E | L | G].
  - destruct (Z.even m); [left | right]; lia.
  - left; lia.
  - right; lia.
Qed.

Lemma rne_exact (m q : Z) : 0 < q -> rne m 0 q = m.
Proof.
  intros Hq. unfold rne.
  destruct (Z.compare_spec (2 * 0) q); lia.
Qed.

Section RoundQ.

Variables prec emax : Z.
Hypothesis prec_gt_0 : 0 < prec.
Hypothesis prec_lt_emax : prec < emax.


(** What [binary_round_aux] returns for the positive real [v] that lies
    at [mx + p/q] units of [2^ex]. *)
Lemma round_aux_value (mx ex p q : Z) (v : Q) :
  0 <= mx -> 0 <= p < q -> ex <= cexp prec emax mx ex ->
  (v * inject_Z q == inject_Z (mx * q + p) * pow2 ex)%Q ->
  let c := cexp prec emax mx ex in
  exists m1 m2 : Z,
    binary_round_aux prec emax false mx ex (loc_of p q)
    = (if m2 =? 2 ^ prec then pack prec emax false (2 ^ (prec - 1)) (c + 1) else pack prec emax false m2 c)
    /\ 0 <= m1 < 2 ^ prec
    /\ m1 <= m2 <= m1 + 1
    /\ (F2Q m1 c <= v)%Q
    /\ (v < F2Q (m1 + 1) c)%Q
    /\ (m2 = m1 + 1 -> (F2Q m1 c < v)%Q)
    /\ (2 * (F2Q m2 c - v) <= pow2 c)%Q
    /\ (2 * (v - F2Q m2 c) <= pow2 c)%Q
    /\ (2 ^ (prec - 1) <= m1 \/ c = emin prec emax)
    /\ (p = 0 -> mx mod 2 ^ (c - ex) = 0 -> m2 = m1 /\ (F2Q m1 c == v)%Q).
Proof.
  intros Hmx Hpq Hex Hv c.
  destruct (round_aux_core prec emax prec_gt_0 false mx ex p q Hmx Hpq Hex)
    as (Hshape & Hm1 & Hpq1 & Hsplit & Hnorm).
  fold c in Hshape, Hsplit, Hnorm, Hm1, Hpq1.
  set (n := c - ex) in *.
  set (m1 := mx / 2 ^ n) in *.
  set (p1 := (mx mod 2 ^ n) * q + p) in *.
  set (q1 := 2 ^ n * q) in *.
  set (m2 := rne m1 p1 q1) in *.
  assert (Hn : 0 <= n) by (unfold n; lia).
  exists m1, m2.
  pose proof (rne_range m1 p1 q1) as Hrange. fold m2 in Hrange.
  pose proof (rne_half m1 p1 q1 Hpq1) as Hhalf. fold m2 in Hhalf.
  pose proof (rne_up_only_if m1 p1 q1 Hpq1) as Hup. fold m2 in Hup.
  (* the value, in units of 2^c *)
  assert (Hq : (0 < inject_Z q)%Q) by (change 0%Q with (inject_Z 0); apply inject_Z_lt; lia).
  assert (Hq1 : (inject_Z q1 == pow2 n * inject_Z q)%Q).
  { unfold q1. rewrite inject_Z_mult, pow2_Z by lia. reflexivity. }
  assert (Hc : (pow2 c == pow2 n * pow2 ex)%Q).
  { rewrite <- pow2_add. unfold n. now replace (c - ex + ex) with c by lia. }
  pose proof (pow2_pos n) as Hpn. pose proof (pow2_pos ex) as Hpe.
  pose proof (pow2_pos c) as Hpc.
  assert (Hv1 : (v * inject_Z q1 == inject_Z (m1 * q1 + p1) * pow2 c)%Q).
  { rewrite Hsplit, Hq1, Hc.
    transitivity (pow2 n * (v * inject_Z q))%Q; [ring |]. rewrite Hv. ring. }
  assert (Hq1pos : (0 < inject_Z q1)%Q).
  { rewrite Hq1. nra. }
  (* integer facts moved to Q *)
  assert (HX : (inject_Z (m1 * q1 + p1) == inject_Z m1 * inject_Z q1 + inject_Z p1)%Q).
  { now rewrite inject_Z_plus, inject_Z_mult. }
  assert (Hp1lo : (0 <= inject_Z p1)%Q)
    by (change 0%Q with (inject_Z 0); apply inject_Z_le; lia).
  assert (Hp1hi : (inject_Z p1 < inject_Z q1)%Q) by (apply inject_Z_lt; lia).
  assert (Hhalf1 : (2 * (inject_Z m2 * inject_Z q1 - inject_Z (m1 * q1 + p1)) <= inject_Z q1)%Q).
  { unfold Qle, Qminus, Qplus, Qmult, Qopp, inject_Z. cbn [Qnum Qden]. lia. }
  assert (Hhalf2 : (2 * (inject_Z (m1 * q1 + p1) - inject_Z m2 * inject_Z q1) <= inject_Z q1)%Q).
  { unfold Qle, Qminus, Qplus, Qmult, Qopp, inject_Z. cbn [Qnum Qden]. lia. }
  (* statements about v follow after multiplying by q1 *)
  assert (Hcancel : forall a b : Q, (a * inject_Z q1 <= b * inject_Z q1 -> a <= b)%Q).
  { intros a b H. nra. }
  assert (Hcancel_lt : forall a b : Q, (a * inject_Z q1 < b * inject_Z q1 -> a < b)%Q).
  { intros a b H. nra. }
  unfold F2Q.
  split; [exact Hshape |]. split; [lia |]. split; [lia |].
  split.
  { apply Hcancel. rewrite Hv1, HX. nra. }
  split.
  { apply Hcancel_lt. rewrite Hv1, HX, inject_Z_plus. change (inject_Z 1) with 1%Q. nra. }
  split.
  { intros E. destruct Hup as [Hu | [_ Hu]]; [lia |].
    assert (0 < p1) by lia.
    assert ((0 < inject_Z p1)%Q) by (change 0%Q with (inject_Z 0); apply inject_Z_lt; lia).
    apply Hcancel_lt. rewrite Hv1, HX. nra. }
  split.
  { apply Hcancel.
    assert (H1 : (pow2 c * (2 * (inject_Z m2 * inject_Z q1 - inject_Z (m1 * q1 + p1)))
                  <= pow2 c * inject_Z q1)%Q) by (apply Qmult_le_l; assumption).
    lra. }
  split.
  { apply Hcancel.
    assert (H1 : (pow2 c * (2 * (inject_Z (m1 * q1 + p1) - inject_Z m2 * inject_Z q1))
                  <= pow2 c * inject_Z q1)%Q) by (apply Qmult_le_l; assumption).
    lra. }
  split; [exact Hnorm |].
  intros Ep Emod.
  assert (Ep1 : p1 = 0) by (unfold p1; fold n; rewrite Emod, Ep; lia).
  assert (E2 : m2 = m1).
  { unfold m2. rewrite Ep1. apply rne_exact. lia. }
  split; [exact E2 |].
  assert (Hfield : forall a b : Q, (a * inject_Z q1 == b * inject_Z q1 -> a == b)%Q).
  { intros a b H. apply Qmult_inj_r with (inject_Z q1); [lra | exact H]. }
  apply Hfield. rewrite Hv1, HX, Ep1. change (inject_Z 0) with 0%Q. ring.
Qed.

End RoundQ.


(* ---------- bounded mantissas ---------- *)
Lemma prec_gt_0 : 0 < PyFloat.prec. Proof. reflexivity. Qed.
Lemma prec_lt_emax : PyFloat.prec < PyFloat.emax. Proof. reflexivity. Qed.

Lemma bounded_inv (m : positive) (e : Z) :
  bounded PyFloat.prec PyFloat.emax m e = true ->
  -1074 <= e <= 971 /\ Zpos m < 2 ^ 53 /\ (2 ^ 52 <= Zpos m \/ e = -1074).
Proof.
  unfold bounded, canonical_mantissa, fexp, emin, PyFloat.prec, PyFloat.emax.
  rewrite andb_true_iff, Z.eqb_eq, Z.leb_le. intros [Hc He].
  pose proof (digits2_pos_bounds m) as [Hlo Hhi].
  assert (Hd : Zpos (digits2_pos m) <= 53) by lia.
  split; [lia |]. split.
  - apply Z.lt_le_trans with (1 := Hhi). apply Z.pow_le_mono_r; lia.
  - destruct (Z.eq_dec e (-1074)) as [| Hne]; [now right | left].
    assert (Zpos (digits2_pos m) = 53) by lia.
    replace 52 with (Zpos (digits2_pos m) - 1) by lia. exact Hlo.
Qed.

Lemma bounded_intro (m e : Z) :
  0 < m < 2 ^ 53 -> -1074 <= e <= 971 -> (2 ^ 52 <= m \/ e = -1074) ->
  exists p, m = Zpos p /\ bounded PyFloat.prec PyFloat.emax p e = true.
Proof.
  intros [Hm Hhi] He Hn. destruct m as [| p | p]; try lia.
  exists p. split; [reflexivity |].
  unfold bounded, canonical_mantissa, fexp, emin, PyFloat.prec, PyFloat.emax.
  rewrite andb_true_iff, Z.eqb_eq, Z.leb_le. split; [| lia].
  pose proof (digits2_pos_bounds p) as [Hlo Hhi'].
  assert (Hd : Zpos (digits2_pos p) <= 53).
  { destruct (Z_lt_le_dec 53 (Zpos (digits2_pos p))) as [Hlt | Hle]; [| exact Hle].
    assert (2 ^ 53 <= 2 ^ (Zpos (digits2_pos p) - 1)) by (apply Z.pow_le_mono_r; lia).
    lia. }
  destruct Hn as [Hn | ->]; [| lia].
  assert (53 <= Zpos (digits2_pos p)).
  { destruct (Z_lt_le_dec (Zpos (digits2_pos p)) 53) as [Hlt | Hle]; [| exact Hle].
    assert (2 ^ Zpos (digits2_pos p) <= 2 ^ 52) by (apply Z.pow_le_mono_r; lia).
    lia. }
  lia.
Qed.

Lemma F2Q_mono (m1 m2 e : Z) : m1 <= m2 -> (F2Q m1 e <= F2Q m2 e)%Q.
Proof.
  intros H. unfold F2Q. apply Qmult_le_compat_r.
  - now apply inject_Z_le.
  - apply Qlt_le_weak, pow2_pos.
Qed.

Lemma F2Q_nonneg (m e : Z) : 0 <= m -> (0 <= F2Q m e)%Q.
Proof.
  intros H. unfold F2Q. apply Qmult_le_0_compat.
  - change 0%Q with (inject_Z 0). now apply inject_Z_le.
  - apply Qlt_le_weak, pow2_pos.
Qed.

Lemma F2Q_pow (k e : Z) : 0 <= k -> (F2Q (2 ^ k) e == pow2 (k + e))%Q.
Proof. intros Hk. unfold F2Q. rewrite pow2_add, (pow2_Z k) by lia. reflexivity. Qed.

(** A multiple of [2^e] that is below a bounded float of exponent at
    least [e] is at least one unit below the next multiple. *)
Lemma F2Q_succ_le (m e mb eb : Z) :
  e <= eb -> (F2Q m e < F2Q mb eb)%Q -> (F2Q (m + 1) e <= F2Q mb eb)%Q.
Proof.
  intros He Hlt. unfold F2Q in *.
  assert (Hs : (pow2 eb == inject_Z (2 ^ (eb - e)) * pow2 e)%Q).
  { rewrite <- pow2_Z by lia. apply pow2_split. }
  rewrite Hs in *. pose proof (pow2_pos e) as Hp.
  assert (Hz : m < mb * 2 ^ (eb - e)).
  { apply Z.nle_gt. intros Hge.
    assert ((inject_Z (mb * 2 ^ (eb - e)) <= inject_Z m)%Q) by (now apply inject_Z_le).
    rewrite inject_Z_mult in H. nra. }
  assert ((inject_Z (m + 1) <= inject_Z (mb * 2 ^ (eb - e)))%Q) by (apply inject_Z_le; lia).
  rewrite inject_Z_mult in H. nra.
Qed.

Lemma pow2_53 : (pow2 (-53) * 2 == pow2 (-52))%Q.
Proof. reflexivity. Qed.

(** The float built from the rounded significand [m2] at exponent [c]:
    infinite only when it is at least [2^1024], else it has the value
    [m2 * 2^c]. *)
Lemma shape_summary (m1 m2 c : Z) :
  0 <= m1 < 2 ^ 53 -> m1 <= m2 <= m1 + 1 -> -1074 <= c ->
  (2 ^ 52 <= m1 \/ c = -1074) ->
  let R := if m2 =? 2 ^ PyFloat.prec then pack PyFloat.prec PyFloat.emax false (2 ^ (PyFloat.prec - 1)) (c + 1)
           else pack PyFloat.prec PyFloat.emax false m2 c in
  (R = S754_infinity false /\ (pow2 1023 <= F2Q m1 c)%Q /\ (pow2 1024 <= F2Q m2 c)%Q)
  \/ (nonneg_float R /\ R <> S754_infinity false /\ (SF2Q R == F2Q m2 c)%Q).
Proof.
  intros Hm1 Hm12 Hc Hnorm R. subst R. unfold PyFloat.prec, PyFloat.emax.
  change (53 - 1) with 52.
  assert (P52 : 2 ^ 52 = 4503599627370496) by reflexivity.
  assert (P53 : 2 ^ 53 = 9007199254740992) by reflexivity.
  destruct (Z.eqb_spec m2 (2 ^ 53)) as [E | NE].
  - (* carry *)
    assert (Hn : 2 ^ 52 <= m1) by lia.
    unfold pack. change (2 ^ 52) with (Zpos 4503599627370496).
    change (1024 - 53) with 971.
    destruct (Z.leb_spec (c + 1) 971) as [Hle | Hgt].
    + right. split; [| split].
      * right; right. exists 4503599627370496%positive, (c + 1). split; [reflexivity |].
        destruct (bounded_intro (2 ^ 52) (c + 1)) as (p & Hp & Hb);
          [lia | lia | left; lia |].
        change (2 ^ 52) with (Zpos 4503599627370496) in Hp. now inversion Hp; subst.
      * discriminate.
      * cbn [SF2Q cond_Zopp]. rewrite E.
        change (Zpos 4503599627370496) with (2 ^ 52).
        rewrite !F2Q_pow by lia. now replace (52 + (c + 1)) with (53 + c) by lia.
    + left. split; [reflexivity |]. split.
      * apply Qle_trans with (F2Q (2 ^ 52) c).
        -- rewrite F2Q_pow by lia. apply pow2_le. lia.
        -- apply F2Q_mono. exact Hn.
      * rewrite E, F2Q_pow by lia. apply pow2_le. lia.
  - assert (Hm2 : 0 <= m2 < 2 ^ 53) by lia.
    destruct (Z.eq_dec m2 0) as [E0 | N0].
    + right. rewrite E0. cbn [pack]. split; [| split].
      * now left.
      * discriminate.
      * cbn [SF2Q]. unfold F2Q. change (inject_Z 0) with 0%Q. ring.
    + unfold pack. change (1024 - 53) with 971.
      destruct m2 as [| p | p] eqn:Em2; try lia.
      destruct (Z.leb_spec c 971) as [Hle | Hgt].
      * right. split; [| split].
        -- right; right. exists p, c. split; [reflexivity |].
           destruct (bounded_intro (Zpos p) c) as (p' & Hp & Hb);
             [lia | lia | destruct Hnorm; [left | right]; lia |].
           now inversion Hp; subst.
        -- discriminate.
        -- reflexivity.
      * left. split; [reflexivity |].
        assert (Hn : 2 ^ 52 <= m1) by (destruct Hnorm; lia).
        split.
        -- apply Qle_trans with (F2Q (2 ^ 52) c).
           ++ rewrite F2Q_pow by lia. apply pow2_le. lia.
           ++ apply F2Q_mono. exact Hn.
        -- apply Qle_trans with (F2Q (2 ^ 52) c).
           ++ rewrite F2Q_pow by lia. apply pow2_le. lia.
           ++ apply F2Q_mono. lia.
Qed.

Lemma pow2_ge_1_inv (k : Z) : (1 < pow2 k)%Q -> 0 < k.
Proof.
  intros H. destruct (Z_lt_le_dec 0 k) as [| Hle]; auto.
  pose proof (pow2_le k 0 Hle) as H1. rewrite pow2_0 in H1. lra.
Qed.

Theorem round_aux_rounded (mx ex p q : Z) (v : Q) :
  0 <= mx -> 0 <= p < q -> ex <= cexp PyFloat.prec PyFloat.emax mx ex ->
  (v * inject_Z q == inject_Z (mx * q + p) * pow2 ex)%Q ->
  rounded v (binary_round_aux PyFloat.prec PyFloat.emax false mx ex (loc_of p q)).
Proof.
  intros Hmx Hpq Hex Hv.
  destruct (round_aux_value PyFloat.prec PyFloat.emax prec_gt_0 mx ex p q v Hmx Hpq Hex Hv)
    as (m1 & m2 & Hshape & Hm1 & Hm12 & Hlo & Hhi & Hup & Hh1 & Hh2 & Hnorm & _).
  set (c := cexp PyFloat.prec PyFloat.emax mx ex) in *.
  assert (Hc : -1074 <= c) by (unfold c; apply (fexp_ge_emin PyFloat.prec PyFloat.emax)).
  change (emin PyFloat.prec PyFloat.emax) with (-1074) in Hnorm.
  change (2 ^ (PyFloat.prec - 1)) with (2 ^ 52) in Hnorm.
  change (2 ^ PyFloat.prec) with (2 ^ 53) in Hm1.
  pose proof (shape_summary m1 m2 c Hm1 Hm12 Hc Hnorm) as Hsum.
  cbv zeta in Hsum. rewrite <- Hshape in Hsum.
  set (R := binary_round_aux PyFloat.prec PyFloat.emax false mx ex (loc_of p q)) in *.
  pose proof (pow2_pos c) as Hpc.
  assert (H12 : (F2Q m1 c <= F2Q m2 c)%Q) by (apply F2Q_mono; lia).
  (* below a bounded float *)
  assert (Hmono : forall mb eb, bounded PyFloat.prec PyFloat.emax mb eb = true ->
                    (v <= F2Q (Zpos mb) eb)%Q -> (F2Q m2 c <= F2Q (Zpos mb) eb)%Q).
  { intros mb eb Hb HvB.
    destruct (bounded_inv mb eb Hb) as (Heb & Hmb & Hnb).
    destruct (Z.eq_dec m2 m1) as [E | NE].
    - rewrite E. lra.
    - assert (E : m2 = m1 + 1) by lia. specialize (Hup E).
      rewrite E. destruct (Z_le_gt_dec c eb) as [Hce | Hce].
      + apply F2Q_succ_le; [exact Hce | lra].
      + exfalso.
        assert (HB : (F2Q (Zpos mb) eb < pow2 (53 + eb))%Q).
        { rewrite <- F2Q_pow by lia. unfold F2Q.
          apply Qmult_lt_compat_r; [apply pow2_pos | apply inject_Z_lt; exact Hmb]. }
        assert (HB2 : (pow2 (53 + eb) <= pow2 (52 + c))%Q) by (apply pow2_le; lia).
        destruct Hnorm as [Hn | Hn]; [| lia].
        assert (HA : (pow2 (52 + c) <= F2Q m1 c)%Q).
        { rewrite <- F2Q_pow by lia. apply F2Q_mono. exact Hn. }
        lra. }
  assert (Hexact : forall mb eb, bounded PyFloat.prec PyFloat.emax mb eb = true ->
                     (v == F2Q (Zpos mb) eb)%Q -> (F2Q m2 c == v)%Q).
  { intros mb eb Hb HvB.
    destruct (bounded_inv mb eb Hb) as (Heb & Hmb & Hnb).
    assert (Hle : (F2Q m2 c <= v)%Q) by (rewrite HvB; apply Hmono; [exact Hb | lra]).
    destruct (Z.eq_dec m2 m1) as [E | NE].
    - rewrite E in *. destruct (Z_le_gt_dec c eb) as [Hce | Hce].
      + destruct (Qlt_le_dec (F2Q m1 c) v) as [Hlt | Hge]; [| lra].
        exfalso. rewrite HvB in Hlt, Hhi.
        pose proof (F2Q_succ_le m1 c (Zpos mb) eb Hce Hlt). lra.
      + exfalso.
        assert (HB : (F2Q (Zpos mb) eb < pow2 (53 + eb))%Q).
        { rewrite <- F2Q_pow by lia. unfold F2Q.
          apply Qmult_lt_compat_r; [apply pow2_pos | apply inject_Z_lt; exact Hmb]. }
        assert (HB2 : (pow2 (53 + eb) <= pow2 (52 + c))%Q) by (apply pow2_le; lia).
        destruct Hnorm as [Hn | Hn]; [| lia].
        assert (HA : (pow2 (52 + c) <= F2Q m1 c)%Q).
        { rewrite <- F2Q_pow by lia. apply F2Q_mono. exact Hn. }
        lra.
    - assert (E : m2 = m1 + 1) by lia. specialize (Hup E).
      assert ((F2Q m1 c <= F2Q m2 c)%Q) by (apply F2Q_mono; lia).
      assert (Hge : (v <= F2Q m2 c)%Q) by (rewrite E; lra). lra. }
  assert (Hbig : forall mb eb, bounded PyFloat.prec PyFloat.emax mb eb = true ->
                   (F2Q (Zpos mb) eb < pow2 1024)%Q).
  { intros mb eb Hb. destruct (bounded_inv mb eb Hb) as (Heb & Hmb & Hnb).
    apply Qlt_le_trans with (pow2 (53 + eb)).
    - rewrite <- F2Q_pow by lia. unfold F2Q.
      apply Qmult_lt_compat_r; [apply pow2_pos | apply inject_Z_lt; exact Hmb].
    - apply pow2_le. lia. }
  unfold rounded.
  destruct Hsum as [(Hinf & Hb1 & Hb2) | (Hnn & Hfin & Hval)].
  - (* overflow *)
    split; [right; left; exact Hinf |]. split; [intros Hlt; lra |]. split.
    + intros mb eb Hb HvB. exfalso.
      pose proof (Hmono mb eb Hb HvB). pose proof (Hbig mb eb Hb). lra.
    + intros Hne. contradiction.
  - split; [exact Hnn |]. split; [intros _; exact Hfin |]. split.
    + intros mb eb Hb HvB. split; [exact Hfin |]. split.
      * rewrite Hval. now apply Hmono.
      * intros Heq. rewrite Hval. now apply (Hexact mb eb).
    + intros _. split.
      * intros Hnormal.
        assert (Hn : 2 ^ 52 <= m1).
        { destruct Hnorm as [Hn | Hn]; [exact Hn | exfalso].
          assert ((F2Q (m1 + 1) c <= F2Q (2 ^ 53) c)%Q) by (apply F2Q_mono; lia).
          rewrite F2Q_pow in H by lia.
          replace (53 + c) with (-1021) in H by lia. lra. }
        assert (HA : (pow2 (52 + c) <= F2Q m1 c)%Q).
        { rewrite <- F2Q_pow by lia. apply F2Q_mono. exact Hn. }
        assert (HC : (pow2 (52 + c) == pow2 52 * pow2 c)%Q) by apply pow2_add.
        assert (H52 : (pow2 52 * pow2 (-52) == 1)%Q) by reflexivity.
        assert (H53 : (pow2 (-53) * 2 == pow2 (-52))%Q) by reflexivity.
        pose proof (pow2_pos (-52)) as Hp52. pose proof (pow2_pos 52) as Hp52'.
        assert (Hulp : (pow2 c <= v * pow2 (-52))%Q).
        { assert (Hx : (pow2 52 * pow2 c <= v)%Q) by lra.
          assert (Hy : (pow2 (-52) * (pow2 52 * pow2 c) <= pow2 (-52) * v)%Q)
            by (apply Qmult_le_l; assumption).
          assert (Hz : (pow2 (-52) * (pow2 52 * pow2 c) == pow2 c)%Q).
          { transitivity ((pow2 52 * pow2 (-52)) * pow2 c)%Q; [ring |]. rewrite H52. ring. }
          lra. }
        assert (Hvu : (v * pow2 (-52) == 2 * (v * pow2 (-53)))%Q)
          by (rewrite <- H53; ring).
        rewrite Hval. unfold unit_roundoff. split; lra.
      * intros H1.
        assert (Hk : 0 < 53 + c).
        { apply pow2_ge_1_inv.
          assert ((F2Q (m1 + 1) c <= F2Q (2 ^ 53) c)%Q) by (apply F2Q_mono; lia).
          rewrite F2Q_pow in H by lia. lra. }
        destruct Hnorm as [Hn | Hn]; [| lia].
        assert (HA : (pow2 (52 + c) <= F2Q m1 c)%Q).
        { rewrite <- F2Q_pow by lia. apply F2Q_mono. exact Hn. }
        assert (HB : (pow2 0 <= pow2 (52 + c))%Q) by (apply pow2_le; lia).
        rewrite pow2_0 in HB. rewrite Hval. lra.
Qed.


Lemma new_location_loc_of (nb k : Z) :
  0 <= k < nb -> new_location nb k = loc_of k nb.
Proof.
  intros Hk. unfold new_location, new_location_even, new_location_odd, loc_of.
  destruct (Z.even nb) eqn:Ev.
  - reflexivity.
  - destruct (Z.eqb_spec k 0); [reflexivity |].
    f_equal.
    assert (Hodd : Z.odd nb = true) by (rewrite <- Z.negb_even, Ev; reflexivity).
    apply Z.odd_spec in Hodd. destruct Hodd as [j Hj].
    destruct (Z.compare_spec (2 * k + 1) nb) as [E | L | G];
      symmetry; [apply Z.compare_lt_iff | apply Z.compare_lt_iff | apply Z.compare_gt_iff];
      lia.
Qed.

Lemma Zdigits2_lower (m k : Z) : 0 <= k -> 2 ^ k <= m -> k + 1 <= Zdigits2 m.
Proof.
  intros Hk Hm.
  assert (H0 : 0 < 2 ^ k) by (apply Z.pow_pos_nonneg; lia).
  destruct (Zdigits2_bounds m ltac:(lia)) as [_ Hhi].
  destruct (Z_lt_le_dec k (Zdigits2 m)) as [| Hle]; [lia |].
  assert (2 ^ Zdigits2 m <= 2 ^ k) by (apply Z.pow_le_mono_r; lia). lia.
Qed.

Lemma div_core_spec (m1 m2 : positive) (e1 e2 : Z) :
  exists q0 e' r,
    SFdiv_core_binary PyFloat.prec PyFloat.emax (Zpos m1) e1 (Zpos m2) e2 = (q0, e', loc_of r (Zpos m2))
    /\ 0 <= q0 /\ 0 <= r < Zpos m2
    /\ e' <= e1 - e2
    /\ q0 * Zpos m2 + r = Zpos m1 * 2 ^ (e1 - e2 - e')
    /\ e' <= cexp PyFloat.prec PyFloat.emax q0 e'.
Proof.
  unfold SFdiv_core_binary.
  set (d1 := Zdigits2 (Zpos m1)). set (d2 := Zdigits2 (Zpos m2)).
  set (e' := Z.min (fexp PyFloat.prec PyFloat.emax (d1 + e1 - (d2 + e2))) (e1 - e2)).
  set (s := e1 - e2 - e').
  assert (Hs : 0 <= s) by (unfold s, e'; lia).
  set (m' := match s with Z0 => Zpos m1 | Zpos _ => Z.shiftl (Zpos m1) s | Zneg _ => 0 end).
  assert (Hm' : m' = Zpos m1 * 2 ^ s).
  { unfold m'. clearbody s. clear m'. destruct s as [| ps | ps]; try lia.
    - now rewrite Z.shiftl_mul_pow2 by lia. }
  pose proof (Z_div_mod m' (Zpos m2) ltac:(lia)) as Hdm.
  destruct (Z.div_eucl m' (Zpos m2)) as [q0 r] eqn:Ediv.
  destruct Hdm as [Hdm Hr].
  assert (Hps : 0 < 2 ^ s) by (apply Z.pow_pos_nonneg; lia).
  assert (Hq0 : 0 <= q0) by nia.
  exists q0, e', r.
  rewrite new_location_loc_of by lia.
  split; [reflexivity |]. split; [exact Hq0 |]. split; [exact Hr |].
  split; [unfold e'; lia |]. split; [fold s; lia |].
  (* enough digits *)
  destruct (Zdigits2_bounds (Zpos m1) ltac:(lia)) as [H1lo H1hi]. fold d1 in H1lo, H1hi.
  destruct (Zdigits2_bounds (Zpos m2) ltac:(lia)) as [H2lo H2hi]. fold d2 in H2lo, H2hi.
  assert (Hd1 : 0 < d1) by (unfold d1; cbn; lia).
  assert (Hd2 : 0 < d2) by (unfold d2; cbn; lia).
  assert (Hfe : e' <= fexp PyFloat.prec PyFloat.emax (d1 + e1 - (d2 + e2))) by (unfold e'; lia).
  assert (Hm'lo : 2 ^ (d1 - 1 + s) <= m').
  { rewrite Hm', Z.pow_add_r by lia. nia. }
  destruct (Z.eq_dec q0 0) as [E0 | N0].
  - subst q0. unfold cexp. cbn [Zdigits2]. rewrite Z.add_0_l.
    assert (Hlt : m' < Zpos m2) by lia.
    assert (Hk : d1 - 1 + s < d2).
    { destruct (Z_lt_le_dec (d1 - 1 + s) d2) as [| Hge]; [assumption |].
      assert (2 ^ d2 <= 2 ^ (d1 - 1 + s)) by (apply Z.pow_le_mono_r; lia). lia. }
    unfold fexp, emin, PyFloat.prec, PyFloat.emax in *. lia.
  - assert (Hq0pos : 0 < q0) by lia.
    assert (Hdig : d1 + s - d2 <= Zdigits2 q0).
    { destruct (Z_lt_le_dec (d1 + s - d2 - 1) 0) as [Hneg | Hnn].
      - pose proof (Zdigits2_pos q0 Hq0pos). lia.
      - replace (d1 + s - d2) with ((d1 + s - d2 - 1) + 1) by lia.
        apply Zdigits2_lower; [exact Hnn |].
        (* 2^k * m2 <= m' *)
        assert (Hx : 2 ^ (d1 + s - d2 - 1) * Zpos m2 <= m').
        { apply Z.le_trans with (2 ^ (d1 + s - d2 - 1) * 2 ^ d2).
          - apply Z.mul_le_mono_nonneg_l; [apply Z.pow_nonneg; lia | lia].
          - rewrite <- Z.pow_add_r by lia.
            replace (d1 + s - d2 - 1 + d2) with (d1 - 1 + s) by lia. exact Hm'lo. }
        assert (H2k : 0 < 2 ^ (d1 + s - d2 - 1)) by (apply Z.pow_pos_nonneg; lia).
        nia. }
    unfold cexp.
    apply Z.le_trans with (1 := Hfe). apply fexp_mono. unfold s in Hdig. lia.
Qed.

Theorem div_rounded (m1 m2 : positive) (e1 e2 : Z) (v : Q) :
  (v * F2Q (Zpos m2) e2 == F2Q (Zpos m1) e1)%Q ->
  rounded v (SFdiv PyFloat.prec PyFloat.emax (S754_finite false m1 e1) (S754_finite false m2 e2)).
Proof.
  intros Hv. cbn [SFdiv xorb].
  destruct (div_core_spec m1 m2 e1 e2) as (q0 & e' & r & Hcore & Hq0 & Hr & He' & Hdiv & Hc).
  rewrite Hcore.
  apply round_aux_rounded; try assumption.
  rewrite Hdiv, inject_Z_mult, <- pow2_Z by lia.
  unfold F2Q in Hv.
  assert (Hsplit : (pow2 e1 == pow2 (e1 - e2 - e') * pow2 e' * pow2 e2)%Q).
  { rewrite <- !pow2_add. now replace (e1 - e2 - e' + e' + e2) with e1 by lia. }
  pose proof (pow2_pos e2) as Hp2.
  apply Qmult_inj_r with (pow2 e2); [lra |].
  transitivity (v * (inject_Z (Zpos m2) * pow2 e2))%Q; [ring |].
  rewrite Hv, Hsplit. ring.
Qed.

(* ---------- alignment and [binary_round] ---------- *)
Lemma iter_xO (m d : positive) : Zpos (Pos.iter xO m d) = Zpos m * 2 ^ Zpos d.
Proof.
  induction d as [| d IH] using Pos.peano_ind.
  - cbn. lia.
  - rewrite Pos.iter_succ, Pos2Z.inj_xO, IH, Pos2Z.inj_succ, Z.pow_succ_r by lia. lia.
Qed.

Lemma shl_align_spec (m : positive) (e e' : Z) :
  let '(mz, ez) := shl_align m e e' in
  ez = Z.min e e' /\ Zpos mz = Zpos m * 2 ^ (e - ez).
Proof.
  unfold shl_align. destruct (e' - e) as [| d | d] eqn:Ed.
  - split; [lia |]. replace (e - e) with 0 by lia. rewrite Z.pow_0_r. lia.
  - split; [lia |]. replace (e - e) with 0 by lia. rewrite Z.pow_0_r. lia.
  - split; [lia |]. rewrite iter_xO. f_equal. f_equal. lia.
Qed.

Lemma Zdigits2_shift (m k : Z) : 0 < m -> 0 <= k -> Zdigits2 (m * 2 ^ k) = Zdigits2 m + k.
Proof.
  intros Hm Hk. destruct (Zdigits2_bounds m Hm) as [Hlo Hhi].
  pose proof (Zdigits2_pos m Hm) as Hd.
  assert (Hp : 0 < 2 ^ k) by (apply Z.pow_pos_nonneg; lia).
  apply Zdigits2_unique; [| nia].
  replace (Zdigits2 m + k - 1) with (Zdigits2 m - 1 + k) by lia.
  rewrite !Z.pow_add_r by lia. nia.
Qed.

Theorem binary_round_rounded (m : positive) (e : Z) (v : Q) :
  (v == F2Q (Zpos m) e)%Q -> rounded v (binary_round PyFloat.prec PyFloat.emax false m e).
Proof.
  intros Hv. unfold binary_round.
  pose proof (shl_align_spec m e (fexp PyFloat.prec PyFloat.emax (Zpos (digits2_pos m) + e))) as Hal.
  destruct (shl_align m e (fexp PyFloat.prec PyFloat.emax (Zpos (digits2_pos m) + e))) as [mz ez].
  destruct Hal as [Hez Hmz].
  change loc_Exact with (loc_of 0 1).
  assert (Hdig : Zdigits2 (Zpos mz) + ez = Zpos (digits2_pos m) + e).
  { rewrite Hmz, Zdigits2_shift by lia. cbn [Zdigits2]. lia. }
  apply round_aux_rounded; try lia.
  - unfold cexp. rewrite Hdig. lia.
  - rewrite Hv, Hmz. unfold F2Q.
    replace (Zpos m * 2 ^ (e - ez) * 1 + 0) with (Zpos m * 2 ^ (e - ez)) by lia.
    rewrite inject_Z_mult, <- pow2_Z by lia.
    change (inject_Z 1) with 1%Q.
    assert (Hs : (pow2 e == pow2 (e - ez) * pow2 ez)%Q) by apply pow2_split.
    rewrite Hs. ring.
Qed.

(* ---------- multiplication ---------- *)
Theorem mul_rounded (m1 m2 : positive) (e1 e2 : Z) (v : Q) :
  bounded PyFloat.prec PyFloat.emax m1 e1 = true -> bounded PyFloat.prec PyFloat.emax m2 e2 = true ->
  (v == F2Q (Zpos m1) e1 * F2Q (Zpos m2) e2)%Q ->
  rounded v (SFmul PyFloat.prec PyFloat.emax (S754_finite false m1 e1) (S754_finite false m2 e2)).
Proof.
  intros Hb1 Hb2 Hv. cbn [SFmul xorb].
  change loc_Exact with (loc_of 0 1).
  destruct (bounded_inv m1 e1 Hb1) as (He1 & Hm1 & Hn1).
  destruct (bounded_inv m2 e2 Hb2) as (He2 & Hm2 & Hn2).
  apply round_aux_rounded; try lia.
  - (* enough digits *)
    unfold cexp, fexp, emin, PyFloat.prec, PyFloat.emax.
    destruct Hn1 as [Hn1 | Hn1]; [| destruct Hn2 as [Hn2 | Hn2]].
    + assert (53 <= Zdigits2 (Zpos (m1 * m2))).
      { change 53 with (52 + 1). apply Zdigits2_lower; [lia |].
        rewrite Pos2Z.inj_mul. nia. }
      lia.
    + assert (53 <= Zdigits2 (Zpos (m1 * m2))).
      { change 53 with (52 + 1). apply Zdigits2_lower; [lia |].
        rewrite Pos2Z.inj_mul. nia. }
      lia.
    + lia.
  - rewrite Hv. unfold F2Q.
    replace (Zpos (m1 * m2) * 1 + 0) with (Zpos m1 * Zpos m2) by lia.
    rewrite inject_Z_mult, pow2_add. change (inject_Z 1) with 1%Q. ring.
Qed.

(* ---------- float to int ---------- *)
Lemma to_int_floor (m : positive) (e : Z) :
  exists k, PyFloat.to_int (S754_finite false m e) = Ok k /\ 0 <= k /\
            (inject_Z k <= F2Q (Zpos m) e)%Q /\ (F2Q (Zpos m) e < inject_Z k + 1)%Q.
Proof.
  unfold PyFloat.to_int, F2Q. destruct e as [| p | p].
  - exists (Zpos m). rewrite pow2_0. split; [reflexivity |]. split; [lia |]. split; lra.
  - exists (Zpos m * 2 ^ Zpos p). split; [reflexivity |].
    assert (0 < 2 ^ Zpos p) by (apply Z.pow_pos_nonneg; lia).
    split; [nia |].
    rewrite inject_Z_mult, <- pow2_Z by lia. split; lra.
  - exists (Zpos m / 2 ^ Zpos p). split; [reflexivity |].
    assert (Hp : 0 < 2 ^ Zpos p) by (apply Z.pow_pos_nonneg; lia).
    pose proof (Z.div_mod (Zpos m) (2 ^ Zpos p) ltac:(lia)) as Hdm.
    pose proof (Z.mod_pos_bound (Zpos m) (2 ^ Zpos p) Hp) as Hmod.
    set (k := Zpos m / 2 ^ Zpos p) in *.
    assert (Hk : 0 <= k) by (apply Z.div_pos; lia).
    split; [exact Hk |].
    pose proof (pow2_inv (Zpos p)) as Hinv.
    change (- Zpos p) with (Zneg p) in Hinv.
    pose proof (pow2_pos (Zneg p)) as Hpos.
    rewrite (pow2_Z (Zpos p)) in Hinv by lia.
    assert (Hlo : (inject_Z (2 ^ Zpos p * k) <= inject_Z (Zpos m))%Q) by (apply inject_Z_le; lia).
    assert (Hhi : (inject_Z (Zpos m) < inject_Z (2 ^ Zpos p * (k + 1)))%Q)
      by (apply inject_Z_lt; lia).
    rewrite inject_Z_mult in Hlo, Hhi. rewrite inject_Z_plus in Hhi.
    change (inject_Z 1) with 1%Q in Hhi.
    set (P := inject_Z (2 ^ Zpos p)) in *. set (M := inject_Z (Zpos m)) in *.
    set (K := inject_Z k) in *. set (I := pow2 (Zneg p)) in *.
    split.
    + assert (H1 : (I * (P * K) <= I * M)%Q) by (apply Qmult_le_l; assumption).
      assert (H2 : (I * (P * K) == K)%Q).
      { transitivity ((I * P) * K)%Q; [ring |]. rewrite Hinv. ring. }
      lra.
    + assert (H1 : (I * M < I * (P * (K + 1)))%Q) by (apply Qmult_lt_l; assumption).
      assert (H2 : (I * (P * (K + 1)) == K + 1)%Q).
      { transitivity ((I * P) * (K + 1))%Q; [ring |]. rewrite Hinv. ring. }
      lra.
Qed.

(* ================================================================== *)
(** * The operations of Python on doubles *)

Lemma nonneg_float_value (x : spec_float) : nonneg_float x -> (0 <= SF2Q x)%Q.
Proof.
  intros [-> | [-> | (m & e & -> & _)]]; cbn [SF2Q cond_Zopp]; try lra.
  apply F2Q_nonneg. lia.
Qed.

(** [float(n)] is exact below [2^53]. *)
Lemma of_int_exact (n : Z) :
  0 < n < 2 ^ 53 ->
  exists m e, PyFloat.of_int n = Ok (S754_finite false m e)
              /\ bounded PyFloat.prec PyFloat.emax m e = true
              /\ (F2Q (Zpos m) e == inject_Z n)%Q.
Proof.
  intros [Hn Hhi]. destruct n as [| p | p]; try lia.
  unfold PyFloat.of_int, binary_normalize.
  assert (Hv : (inject_Z (Zpos p) == F2Q (Zpos p) 0)%Q).
  { unfold F2Q. rewrite pow2_0. ring. }
  pose proof (binary_round_rounded p 0 _ Hv) as (Hnn & _ & Hmono & _).
  (* the double that is [n] *)
  set (d := Zpos (digits2_pos p)).
  destruct (digits2_pos_bounds p) as [Hlo Hhi']. fold d in Hlo, Hhi'.
  assert (Hd : 0 < d <= 53).
  { split; [unfold d; lia |].
    destruct (Z_lt_le_dec 53 d) as [Hlt | Hle]; [| exact Hle].
    assert (2 ^ 53 <= 2 ^ (d - 1)) by (apply Z.pow_le_mono_r; lia). lia. }
  assert (Hp : 0 < 2 ^ (53 - d)) by (apply Z.pow_pos_nonneg; lia).
  destruct (bounded_intro (Zpos p * 2 ^ (53 - d)) (d - 53)) as (mb & Hmb & Hb).
  { split; [nia |].
    replace 53 with (d + (53 - d)) at 2 by lia. rewrite Z.pow_add_r by lia. nia. }
  { lia. }
  { left. replace 52 with (d - 1 + (53 - d)) by lia. rewrite Z.pow_add_r by lia. nia. }
  assert (HB : (inject_Z (Zpos p) == F2Q (Zpos mb) (d - 53))%Q).
  { rewrite <- Hmb. unfold F2Q. rewrite inject_Z_mult, <- pow2_Z by lia.
    transitivity (inject_Z (Zpos p) * (pow2 (53 - d) * pow2 (d - 53)))%Q; [| ring].
    rewrite <- pow2_add. replace (53 - d + (d - 53)) with 0 by lia.
    rewrite pow2_0. ring. }
  destruct (Hmono mb (d - 53) Hb ltac:(rewrite HB; apply Qle_refl)) as (Hfin & _ & Hex).
  specialize (Hex HB).
  destruct Hnn as [Hz | [Hi | (m & e & Hm & Hbm)]].
  - rewrite Hz in Hex. cbn [SF2Q] in Hex.
    assert ((0 < inject_Z (Zpos p))%Q) by (change 0%Q with (inject_Z 0); apply inject_Z_lt; lia).
    lra.
  - contradiction.
  - rewrite Hm in *. exists m, e. split; [reflexivity |]. split; [exact Hbm |].
    exact Hex.
Qed.

(** [int(x)] of a non-negative double is the floor of its value. *)
Lemma to_int_nonneg (x : spec_float) :
  nonneg_float x -> x <> S754_infinity false ->
  exists k, PyFloat.to_int x = Ok k /\ float_floor x = Ok k /\ 0 <= k /\
            (inject_Z k <= SF2Q x)%Q /\ (SF2Q x < inject_Z k + 1)%Q.
Proof.
  intros [-> | [-> | (m & e & -> & _)]] Hfin.
  - exists 0. cbn [PyFloat.to_int float_floor SF2Q].
    split; [reflexivity |]. split; [reflexivity |]. split; [lia |].
    unfold inject_Z. split; [apply Qle_refl | reflexivity].
  - contradiction.
  - destruct (to_int_floor m e) as (k & Hk & Hk0 & Hlo & Hhi).
    exists k. split; [exact Hk |]. split.
    + unfold PyFloat.to_int in Hk. unfold float_floor. cbn [cond_Zopp].
      destruct e; exact Hk.
    + cbn [SF2Q cond_Zopp]. auto.
Qed.

Lemma inject_Z_le_inv (a b : Z) : (inject_Z a <= inject_Z b)%Q -> a <= b.
Proof. intros H. now rewrite Zle_Qle. Qed.

Lemma inject_Z_lt_inv (a b : Z) : (inject_Z a < inject_Z b)%Q -> a < b.
Proof. intros H. now rewrite Zlt_Qlt. Qed.

(** [a / b] on positive ints: the double [a/b] rounds to, unless it
    overflows. *)
Lemma int_truediv_pos (a b : Z) :
  0 < a -> 0 < b ->
  exists R, rounded (inject_Z a / inject_Z b) R /\
            ((R = S754_infinity false /\ exists e, PyFloat.int_truediv a b = Err e)
             \/ (R <> S754_infinity false /\ PyFloat.int_truediv a b = Ok R)).
Proof.
  intros Ha Hb. destruct a as [| pa | pa]; try lia. destruct b as [| pb | pb]; try lia.
  unfold PyFloat.int_truediv, PyFloat.ieee_div.
  assert (Hbq : (0 < inject_Z (Zpos pb))%Q)
    by (change 0%Q with (inject_Z 0); apply inject_Z_lt; lia).
  assert (Hv : (inject_Z (Zpos pa) / inject_Z (Zpos pb) * F2Q (Zpos pb) 0
                == F2Q (Zpos pa) 0)%Q).
  { unfold F2Q. rewrite pow2_0. field. lra. }
  pose proof (div_rounded pa pb 0 0 _ Hv) as Hr.
  set (R := SFdiv PyFloat.prec PyFloat.emax (S754_finite false pa 0) (S754_finite false pb 0)) in *.
  exists R. split; [exact Hr |].
  destruct Hr as (Hnn & _).
  destruct Hnn as [Hz | [Hi | (m & e & Hm & _)]].
  - right. rewrite Hz. split; [discriminate | reflexivity].
  - left. rewrite Hi. split; [reflexivity | eauto].
  - right. rewrite Hm. split; [discriminate | reflexivity].
Qed.

Lemma int_truediv_zero (b : Z) :
  0 < b -> PyFloat.int_truediv 0 b = Ok (S754_zero false).
Proof. intros Hb. destruct b; try lia. reflexivity. Qed.

Lemma lit_100 : PyFloat.lit 100 = S754_finite false 7036874417766400 (-46).
Proof. reflexivity. Qed.

Lemma lit_1 : PyFloat.lit 1 = S754_finite false 4503599627370496 (-52).
Proof. reflexivity. Qed.

Lemma F2Q_align (m e ez : Z) :
  ez <= e -> (F2Q (m * 2 ^ (e - ez)) ez == F2Q m e)%Q.
Proof.
  intros H. unfold F2Q. rewrite inject_Z_mult, <- pow2_Z by lia.
  rewrite (pow2_split e ez). ring.
Qed.

(** [100 - d] is a non-negative double for a discount [d] between 0
    and 100. *)
Lemma sub_100_nonneg (d : float) :
  is_percentage d -> nonneg_float (PyFloat.sub (PyFloat.lit 100) d).
Proof.
  intros (Hv & H0 & H100). rewrite lit_100 in H100. rewrite lit_100. unfold PyFloat.sub.
  destruct d as [s | s | | s md ed].
  - right; right. eexists _, _. split; [reflexivity | reflexivity].
  - destruct s; cbn in H0, H100; discriminate.
  - cbn in H0; discriminate.
  - destruct s; [cbn in H0; discriminate |].
    cbn [valid_binary] in Hv. destruct (bounded_inv md ed Hv) as (He & Hm & _).
    cbn [SFsub cond_Zopp].
    pose proof (shl_align_spec 7036874417766400 (-46) (Z.min (-46) ed)) as S1.
    pose proof (shl_align_spec md ed (Z.min (-46) ed)) as S2.
    destruct (shl_align 7036874417766400 (-46) (Z.min (-46) ed)) as [m1 z1].
    destruct (shl_align md ed (Z.min (-46) ed)) as [m2 z2].
    destruct S1 as [Hz1 Hm1]. destruct S2 as [Hz2 Hm2]. cbn [fst].
    assert (Hge : Zpos m2 <= Zpos m1).
    { rewrite Hm1, Hm2, Hz1, Hz2.
      unfold SFleb, SFcompare in H100.
      destruct (ed ?= -46) eqn:Ec.
      - apply Z.compare_eq in Ec. subst ed.
        replace (Z.min (-46) (Z.min (-46) (-46))) with (-46) by lia.
        replace (-46 - -46) with 0 by lia. rewrite Z.pow_0_r.
        rewrite Pos.compare_cont_spec in H100. cbn [Pos.switch_Eq] in H100.
        assert (Hc : (md ?= 7036874417766400)%positive <> Gt).
        { intros E; rewrite E in H100; discriminate. }
        assert (Hle : (md <= 7036874417766400)%positive) by exact Hc.
        apply Pos2Z.pos_le_pos in Hle. clear - Hle. lia.
      - rewrite Z.compare_lt_iff in Ec.
        replace (Z.min ed (Z.min (-46) ed)) with ed by lia.
        replace (Z.min (-46) (Z.min (-46) ed)) with ed by lia.
        replace (ed - ed) with 0 by lia. rewrite Z.pow_0_r.
        assert (2 ^ 1 <= 2 ^ (-46 - ed)) by (apply Z.pow_le_mono_r; lia).
        change (2 ^ 1) with 2 in *. change (2 ^ 53) with 9007199254740992 in Hm. clear - H Hm; nia.
      - discriminate. }
    destruct (Zpos m1 - Zpos m2) as [| p | p] eqn:EM; try lia.
    + left. reflexivity.
    + cbn [binary_normalize].
      exact (proj1 (binary_round_rounded p (Z.min (-46) ed) _ (Qeq_refl _))).
Qed.

(** The product of a positive double and a non-negative one is
    non-negative. *)
Lemma mul_nonneg (mc : positive) (ec : Z) (t : float) :
  bounded PyFloat.prec PyFloat.emax mc ec = true -> nonneg_float t ->
  nonneg_float (PyFloat.mul (S754_finite false mc ec) t).
Proof.
  intros Hc [-> | [-> | (m & e & -> & Hb)]]; unfold PyFloat.mul.
  - left. reflexivity.
  - right; left. reflexivity.
  - exact (proj1 (mul_rounded mc m ec e _ Hc Hb (Qeq_refl _))).
Qed.

(** A non-negative double over a positive one is non-negative. *)
Lemma div_nonneg (x : float) (m : positive) (e : Z) :
  nonneg_float x ->
  exists q, PyFloat.div x (S754_finite false m e) = Ok q /\ nonneg_float q.
Proof.
  intros Hx. unfold PyFloat.div, PyFloat.ieee_div. cbn [PyFloat.is_zero].
  eexists. split; [reflexivity |].
  destruct Hx as [-> | [-> | (mx & ex & -> & Hb)]].
  - left. reflexivity.
  - right; left. reflexivity.
  - assert (Hp : (0 < F2Q (Zpos m) e)%Q).
    { unfold F2Q. apply Qmult_lt_0_compat; [| apply pow2_pos].
      change 0%Q with (inject_Z 0). rewrite <- Zlt_Qlt. lia. }
    apply (div_rounded mx m ex e (F2Q (Zpos mx) ex / F2Q (Zpos m) e)).
    field. lra.
Qed.

(** The effective fraction is a non-negative double (possibly [+inf]). *)
Lemma effective_commission_nonneg (c d : float) :
  is_fraction c -> is_percentage d -> PyFloat.gt0 c = true ->
  exists f, effective_commission_of c d = Ok f /\ nonneg_float f.
Proof.
  intros [Hv Hfin] Hd Hpos. unfold effective_commission_of.
  destruct c as [s | s | | s mc ec]; try (cbn in Hpos; discriminate).
  - destruct s; [cbn in Hpos; discriminate | contradiction].
  - destruct s; [cbn in Hpos; discriminate |].
    pose proof (sub_100_nonneg d Hd) as Hs. rewrite lit_100 in Hs |- *.
    apply div_nonneg. apply mul_nonneg; assumption.
Qed.

(** [1 + f] for a non-negative [f]: [+inf], or a double that is at
    least 1. *)
Lemma add_one_ge_1 (f : float) :
  nonneg_float f ->
  PyFloat.add (PyFloat.lit 1) f = S754_infinity false
  \/ exists m e, PyFloat.add (PyFloat.lit 1) f = S754_finite false m e
                 /\ bounded PyFloat.prec PyFloat.emax m e = true
                 /\ (1 <= F2Q (Zpos m) e)%Q
                 /\ (f = S754_zero false -> (F2Q (Zpos m) e == 1)%Q).
Proof.
  intros Hf. rewrite lit_1. unfold PyFloat.add.
  destruct Hf as [-> | [-> | (mf & ef & -> & Hb)]].
  - right. exists 4503599627370496%positive, (-52). cbn [SFadd].
    split; [reflexivity |]. split; [reflexivity |].
    split; [| intros _]; unfold F2Q; vm_compute; congruence.
  - left. reflexivity.
  - cbn [SFadd cond_Zopp]. set (ez := Z.min (-52) ef).
    pose proof (shl_align_spec 4503599627370496 (-52) ez) as S1.
    pose proof (shl_align_spec mf ef ez) as S2.
    destruct (shl_align 4503599627370496 (-52) ez) as [m1 z1].
    destruct (shl_align mf ef ez) as [m2 z2].
    destruct S1 as [Hz1 Hm1]. destruct S2 as [Hz2 Hm2]. cbn [fst].
    change (Zpos m1 + Zpos m2) with (Zpos (m1 + m2)). cbn [binary_normalize].
    assert (Hv : (F2Q (Zpos 4503599627370496) (-52) + F2Q (Zpos mf) ef
                  == F2Q (Zpos (m1 + m2)) ez)%Q).
    { rewrite Pos2Z.inj_add, Hm1, Hm2, Hz1, Hz2.
      replace (Z.min (-52) ez) with ez by (unfold ez; lia).
      replace (Z.min ef ez) with ez by (unfold ez; lia).
      rewrite <- (F2Q_align (Zpos 4503599627370496) (-52) ez) by (unfold ez; lia).
      rewrite <- (F2Q_align (Zpos mf) ef ez) by (unfold ez; lia).
      unfold F2Q. rewrite inject_Z_plus. ring. }
    pose proof (binary_round_rounded (m1 + m2) ez _ Hv) as (Hnn & _ & _ & Hrel).
    assert (H1 : (F2Q (Zpos 4503599627370496) (-52) == 1)%Q) by (vm_compute; reflexivity).
    assert (Hfq : (0 <= F2Q (Zpos mf) ef)%Q) by (apply F2Q_nonneg; lia).
    destruct Hnn as [Hz | [Hi | (m & e & Hm & Hbm)]].
    + exfalso. assert (Hn : binary_round PyFloat.prec PyFloat.emax false (m1 + m2) ez
                            <> S754_infinity false) by (rewrite Hz; discriminate).
      destruct (Hrel Hn) as [_ Hge]. rewrite Hz in Hge. cbn [SF2Q] in Hge.
      specialize (Hge ltac:(lra)). lra.
    + left. exact Hi.
    + right. exists m, e. split; [exact Hm |]. split; [exact Hbm |].
      assert (Hn : binary_round PyFloat.prec PyFloat.emax false (m1 + m2) ez
                   <> S754_infinity false) by (rewrite Hm; discriminate).
      destruct (Hrel Hn) as [_ Hge]. rewrite Hm in Hge. cbn [SF2Q cond_Zopp] in Hge.
      split; [apply Hge; lra | discriminate].
Qed.


(** A non-negative double divided by a double that is at least 1 (or
    [+inf]) does not grow, and is unchanged when the divisor is 1. *)
Lemma div_by_ge_1 (x y : float) :
  nonneg_float x -> x <> S754_infinity false ->
  (y = S754_infinity false
   \/ exists m e, y = S754_finite false m e
                  /\ bounded PyFloat.prec PyFloat.emax m e = true
                  /\ (1 <= F2Q (Zpos m) e)%Q) ->
  exists q, PyFloat.div x y = Ok q /\ nonneg_float q /\ q <> S754_infinity false
            /\ (SF2Q q <= SF2Q x)%Q
            /\ ((SF2Q y == 1)%Q -> (SF2Q q == SF2Q x)%Q).
Proof.
  intros Hx Hfin Hy. unfold PyFloat.div, PyFloat.ieee_div.
  destruct Hy as [-> | (m & e & -> & Hb & Hge)]; cbn [PyFloat.is_zero];
    (eexists; split; [reflexivity |]).
  - destruct Hx as [-> | [-> | (mx & ex & -> & Hbx)]]; try contradiction;
      cbn [SFdiv xorb SF2Q].
    + split; [left; reflexivity |]. split; [discriminate |].
      split; [apply Qle_refl | intros _; reflexivity].
    + split; [left; reflexivity |]. split; [discriminate |].
      split; [cbn [cond_Zopp]; apply F2Q_nonneg; lia | intros H; lra].
  - destruct Hx as [-> | [-> | (mx & ex & -> & Hbx)]]; try contradiction.
    + cbn [SFdiv xorb SF2Q].
      split; [left; reflexivity |]. split; [discriminate |].
      split; [apply Qle_refl | intros _; reflexivity].
    + cbn [SF2Q cond_Zopp].
      assert (Hxq : (0 <= F2Q (Zpos mx) ex)%Q) by (apply F2Q_nonneg; lia).
      set (v := (F2Q (Zpos mx) ex / F2Q (Zpos m) e)%Q).
      assert (Hv : (v * F2Q (Zpos m) e == F2Q (Zpos mx) ex)%Q) by (unfold v; field; lra).
      assert (Hv0 : (0 <= v)%Q) by (unfold v; apply Qle_shift_div_l; lra).
      clearbody v.
      pose proof (div_rounded mx m ex e v Hv) as (Hnn & _ & Hmono & _).
      assert (Hle : (v <= F2Q (Zpos mx) ex)%Q).
      { rewrite <- Hv.
        assert (H1 : (v * 1 <= v * F2Q (Zpos m) e)%Q)
          by (rewrite !(Qmult_comm v); apply Qmult_le_compat_r; assumption).
        lra. }
      destruct (Hmono mx ex Hbx Hle) as (Hn & Hub & Hex).
      split; [exact Hnn |]. split; [exact Hn |]. split; [exact Hub |].
      intros H1. rewrite Hex; [| rewrite <- Hv, H1; ring]. rewrite <- Hv, H1. ring.
Qed.

Lemma of_int_small (n : Z) :
  0 <= n < 2 ^ 53 ->
  exists x, PyFloat.of_int n = Ok x /\ nonneg_float x /\ x <> S754_infinity false
            /\ (SF2Q x == inject_Z n)%Q.
Proof.
  intros [Hn Hhi]. destruct (Z.eq_dec n 0) as [-> | Hnz].
  - exists (S754_zero false). split; [reflexivity |]. split; [left; reflexivity |].
    split; [discriminate | reflexivity].
  - destruct (of_int_exact n ltac:(lia)) as (m & e & Hx & Hb & Hv).
    exists (S754_finite false m e). split; [exact Hx |].
    split; [right; right; eauto |]. split; [discriminate | exact Hv].
Qed.

(** [int(T / (1 + f))] for a non-negative [f]: it is the floor the spec
    writes, it lies between 0 and [T], and it is [T] when [f] is 0. *)
Lemma base_crypto_atoms_bounds (T : Z) (f : float) :
  0 <= T < 2 ^ 53 -> nonneg_float f ->
  exists base, base_crypto_atoms_of T f = Ok base /\ spec_base T f = Ok base
               /\ 0 <= base <= T /\ (f = S754_zero false -> base = T).
Proof.
  intros HT Hf. unfold base_crypto_atoms_of, spec_base.
  destruct (of_int_small T HT) as (x & -> & Hx & Hxfin & Hxv). cbn [rbind].
  assert (Hy : PyFloat.add (PyFloat.lit 1) f = S754_infinity false
               \/ exists m e, PyFloat.add (PyFloat.lit 1) f = S754_finite false m e
                              /\ bounded PyFloat.prec PyFloat.emax m e = true
                              /\ (1 <= F2Q (Zpos m) e)%Q).
  { destruct (add_one_ge_1 f Hf) as [Hi | (m & e & Hm & Hb & Hge & _)]; [left | right]; eauto. }
  destruct (div_by_ge_1 x _ Hx Hxfin Hy) as (q & -> & Hq & Hqfin & Hle & Hone).
  cbn [rbind].
  destruct (to_int_nonneg q Hq Hqfin) as (k & -> & -> & Hk0 & Hlo & Hhi).
  exists k. split; [reflexivity |]. split; [reflexivity |]. split.
  - split; [exact Hk0 |]. apply inject_Z_le_inv. rewrite <- Hxv. lra.
  - intros ->. destruct (add_one_ge_1 _ Hf) as [Hi | (m & e & Hm & _ & _ & H1)].
    + rewrite lit_1 in Hi. discriminate.
    + specialize (H1 eq_refl). rewrite Hm in Hone. cbn [SF2Q cond_Zopp] in Hone.
      specialize (Hone H1). rewrite Hone, Hxv in Hlo, Hhi.
      apply inject_Z_le_inv in Hlo.
      assert (Hlt : T < k + 1).
      { apply inject_Z_lt_inv. rewrite inject_Z_plus. exact Hhi. }
      lia.
Qed.


(* ================================================================== *)
(** * Decomposition *)




(* ================================================================== *)
(** * Allocation: one share *)

Lemma unit_roundoff_value : (unit_roundoff == 1 # 9007199254740992)%Q.
Proof. reflexivity. Qed.

Lemma Qmult_le_compat_l_nonneg (a b c : Q) : (0 <= c -> a <= b -> c * a <= c * b)%Q.
Proof. intros Hc H. rewrite !(Qmult_comm c). now apply Qmult_le_compat_r. Qed.

Lemma share_algebra (K Bq bq Sq v P Yq : Q) :
  (0 <= Bq)%Q -> (Bq <= 2251799813685248)%Q -> (0 < bq)%Q -> (bq <= Sq)%Q ->
  (v * Sq == bq)%Q ->
  (v * (1 - unit_roundoff) <= P)%Q -> (P <= v * (1 + unit_roundoff))%Q ->
  (Bq * P * (1 - unit_roundoff) <= Yq)%Q -> (Yq <= Bq * P * (1 + unit_roundoff))%Q ->
  (K <= Yq)%Q -> (Yq < K + 1)%Q ->
  (K * Sq <= Bq * bq * ((1 + unit_roundoff) * (1 + unit_roundoff)))%Q
  /\ ((K - 1) * Sq <= Bq * bq)%Q /\ (Bq * bq < (K + 2) * Sq)%Q.
Proof.
  intros HB0 HB Hb0 HbS Hv Hp1 Hp2 Hy1 Hy2 Hk1 Hk2.
  rewrite unit_roundoff_value in *.
  assert (HS : (0 < Sq)%Q) by lra.
  (* multiply the bounds on [P] by [Bq * Sq] *)
  assert (HBS : (0 <= Bq * Sq)%Q) by (apply Qmult_le_0_compat; lra).
  pose proof (Qmult_le_compat_l_nonneg _ _ (Bq * Sq) HBS Hp1) as M1.
  pose proof (Qmult_le_compat_l_nonneg _ _ (Bq * Sq) HBS Hp2) as M2.
  assert (E1 : (Bq * Sq * (v * (1 - (1 # 9007199254740992)))
                == Bq * bq * (1 - (1 # 9007199254740992)))%Q) by (rewrite <- Hv; ring).
  assert (E2 : (Bq * Sq * (v * (1 + (1 # 9007199254740992)))
                == Bq * bq * (1 + (1 # 9007199254740992)))%Q) by (rewrite <- Hv; ring).
  rewrite E1 in M1. rewrite E2 in M2.
  (* multiply the bounds on [Yq] and [K] by [Sq] *)
  pose proof (Qmult_le_compat_l_nonneg _ _ Sq (Qlt_le_weak _ _ HS) Hy1) as N1.
  pose proof (Qmult_le_compat_l_nonneg _ _ Sq (Qlt_le_weak _ _ HS) Hy2) as N2.
  pose proof (Qmult_le_compat_l_nonneg _ _ Sq (Qlt_le_weak _ _ HS) Hk1) as N3.
  assert (N4 : (Sq * Yq < Sq * (K + 1))%Q) by (apply Qmult_lt_l; assumption).
  (* [Bq * bq <= 2^51 * Sq] *)
  assert (HE : (Bq * bq <= 2251799813685248 * Sq)%Q).
  { apply Qle_trans with (Bq * Sq)%Q.
    - apply Qmult_le_compat_l_nonneg; assumption.
    - apply Qmult_le_compat_r; lra. }
  assert (HE0 : (0 <= Bq * bq)%Q) by (apply Qmult_le_0_compat; lra).
  set (E := (Bq * bq)%Q) in *. set (BSP := (Bq * Sq * P)%Q) in *.
  assert (R1 : (Sq * (Bq * P * (1 - (1 # 9007199254740992)))
                == BSP * (1 - (1 # 9007199254740992)))%Q) by (unfold BSP; ring).
  assert (R2 : (Sq * (Bq * P * (1 + (1 # 9007199254740992)))
                == BSP * (1 + (1 # 9007199254740992)))%Q) by (unfold BSP; ring).
  rewrite R1 in N1. rewrite R2 in N2.
  assert (R3 : (K * Sq == Sq * K)%Q) by ring.
  assert (R4 : ((K - 1) * Sq == Sq * K - Sq)%Q) by ring.
  assert (R5 : ((K + 2) * Sq == Sq * (K + 1) + Sq)%Q) by ring.
  rewrite R3, R4, R5.
  set (SK := (Sq * K)%Q) in *. set (SK1 := (Sq * (K + 1))%Q) in *.
  set (SY := (Sq * Yq)%Q) in *.
  clearbody E BSP SK SK1 SY. clear - M1 M2 N1 N2 N3 N4 HE HE0 HS.
  repeat split; lra.
Qed.

Lemma inject_Z_pos (n : Z) : 0 < n -> (0 < inject_Z n)%Q.
Proof. intros H. change 0%Q with (inject_Z 0). now rewrite <- Zlt_Qlt. Qed.

Lemma inject_Z_nonneg (n : Z) : 0 <= n -> (0 <= inject_Z n)%Q.
Proof. intros H. change 0%Q with (inject_Z 0). now rewrite <- Zle_Qle. Qed.

(** The proportion [balance / total] as a double: a positive bounded
    float within one rounding of the quotient. *)
Lemma proportion_rounded (b S : Z) (p : float) :
  0 < b <= S -> S <= 2 ^ 1020 -> PyFloat.int_truediv b S = Ok p ->
  exists m e, p = S754_finite false m e
    /\ bounded PyFloat.prec PyFloat.emax m e = true
    /\ (pow2 (-1021) <= F2Q (Zpos m) e)%Q
    /\ (inject_Z b / inject_Z S * (1 - unit_roundoff) <= F2Q (Zpos m) e)%Q
    /\ (F2Q (Zpos m) e <= inject_Z b / inject_Z S * (1 + unit_roundoff))%Q.
Proof.
  intros [Hb HbS] HS Hp.
  destruct (int_truediv_pos b S Hb ltac:(lia)) as (R & Hr & [[_ [e He]] | [Hfin Hok]]).
  { rewrite He in Hp. discriminate. }
  rewrite Hok in Hp. injection Hp as <-.
  assert (Hbq : (1 <= inject_Z b)%Q)
    by (change 1%Q with (inject_Z 1); rewrite <- Zle_Qle; lia).
  assert (HSq : (0 < inject_Z S)%Q) by (apply inject_Z_pos; lia).
  assert (HSle : (inject_Z S <= pow2 1020)%Q).
  { rewrite (pow2_Z 1020) by lia. rewrite <- Zle_Qle. exact HS. }
  set (v := (inject_Z b / inject_Z S)%Q) in *.
  assert (Hv : (pow2 (-1020) <= v)%Q).
  { unfold v. apply Qle_shift_div_l; [exact HSq |].
    apply Qle_trans with (pow2 (-1020) * pow2 1020)%Q.
    - apply Qmult_le_compat_l_nonneg; [apply Qlt_le_weak, pow2_pos | exact HSle].
    - rewrite <- pow2_add. change (-1020 + 1020) with 0. rewrite pow2_0. exact Hbq. }
  assert (H21 : (pow2 (-1020) == 2 * pow2 (-1021))%Q).
  { replace (-1020) with (1 + -1021) by lia. rewrite pow2_add. reflexivity. }
  pose proof (pow2_pos (-1021)) as Hpp.
  destruct Hr as (Hnn & _ & _ & Hrel).
  destruct (Hrel Hfin) as [Hrel1 _]. specialize (Hrel1 ltac:(lra)).
  destruct Hrel1 as [Hlo Hhi]. rewrite unit_roundoff_value in Hlo.
  assert (Hlow : (pow2 (-1021) <= SF2Q R)%Q).
  { apply Qle_trans with (v * (1 - (1 # 9007199254740992)))%Q; [| exact Hlo].
    assert (Hh : (pow2 (-1020) * (1 # 2) <= v * (1 # 2))%Q)
      by (apply Qmult_le_compat_r; [exact Hv | lra]).
    lra. }
  rewrite <- unit_roundoff_value in Hlo.
  destruct Hnn as [Hz | [Hi | (m & e & Hm & Hbm)]].
  - rewrite Hz in Hlow. cbn [SF2Q] in Hlow. lra.
  - contradiction.
  - rewrite Hm in *. cbn [SF2Q cond_Zopp] in *. exists m, e. repeat split; assumption.
Qed.

Lemma client_share_atomic (base : Z) (rate : pynum) (b S : Z) (d : Distribution) :
  client_share base rate b S = Ok d -> atomic_share base b S = Ok (d_sats_amount d).
Proof.
  unfold client_share, atomic_share.
  destruct (PyFloat.int_truediv b S) as [p | e]; cbn [rbind]; [| discriminate].
  destruct (PyFloat.of_int base) as [x | e]; cbn [rbind]; [| discriminate].
  destruct (PyFloat.to_int (PyFloat.mul x p)) as [k | e]; cbn [rbind]; [| discriminate].
  destruct (if pynum_gt0 rate then _ else _) as [fiat | e]; cbn [rbind]; [| discriminate].
  intros H. injection H as <-. reflexivity.
Qed.

(** For a base below [2^51], the share is not negative, it is at most
    [base * b / S * (1 + u)^2], and it is within one unit of the floor of
    [base * b / S]. *)
Lemma atomic_share_bounds (base b S k : Z) :
  0 <= base < 2 ^ 51 -> 0 < b <= S -> S <= 2 ^ 1020 ->
  atomic_share base b S = Ok k ->
  0 <= k
  /\ (inject_Z k * inject_Z S
      <= inject_Z base * inject_Z b * ((1 + unit_roundoff) * (1 + unit_roundoff)))%Q
  /\ base * b / S - 1 <= k <= base * b / S + 1.
Proof.
  intros [HB0 HB] [Hb HbS] HS. unfold atomic_share.
  destruct (PyFloat.int_truediv b S) as [p | e] eqn:Ep; cbn [rbind]; [| discriminate].
  destruct (proportion_rounded b S p ltac:(lia) HS Ep)
    as (mp & ep & -> & Hbp & Hpmin & Hplo & Hphi).
  destruct (of_int_small base ltac:(split; [lia |]; apply Z.lt_trans with (2 ^ 51);
                                   [lia | reflexivity]))
    as (x & -> & Hx & Hxfin & Hxv).
  cbn [rbind]. unfold PyFloat.mul.
  assert (Hbq : (0 < inject_Z b)%Q) by (apply inject_Z_pos; lia).
  assert (HSq : (0 < inject_Z S)%Q) by (apply inject_Z_pos; lia).
  destruct Hx as [-> | [-> | (mx & ex & -> & Hbx)]]; [| contradiction |].
  - (* base = 0 *)
    cbn [SFmul xorb PyFloat.to_int SF2Q] in *. intros H. injection H as <-.
    assert (base = 0).
    { apply Z.le_antisymm; [| exact HB0]. apply inject_Z_le_inv. rewrite <- Hxv.
      apply Qle_refl. }
    subst base. cbn [Z.mul]. rewrite Z.div_0_l by lia.
    split; [lia |]. split; [| lia].
    unfold inject_Z at 1 3. lra.
  - cbn [SF2Q cond_Zopp] in Hxv.
    pose proof (mul_rounded mx mp ex ep _ Hbx Hbp (Qeq_refl _))
      as (Hnn & Hnotinf & _ & Hrel).
    set (Y := SFmul PyFloat.prec PyFloat.emax (S754_finite false mx ex)
                (S754_finite false mp ep)) in *.
    set (P := F2Q (Zpos mp) ep) in *.
    assert (HB1 : (1 <= inject_Z base)%Q).
    { change 1%Q with (inject_Z 1). rewrite <- Zle_Qle.
      assert (0 < base); [| lia]. apply inject_Z_lt_inv. rewrite <- Hxv.
      unfold F2Q. apply Qmult_lt_0_compat; [apply inject_Z_pos; lia | apply pow2_pos]. }
    assert (HB51 : (inject_Z base <= 2251799813685248)%Q).
    { change 2251799813685248%Q with (inject_Z (2 ^ 51)). rewrite <- Zle_Qle. lia. }
    pose proof (pow2_pos (-1021)) as Hpp.
    assert (HP0 : (0 < P)%Q) by lra.
    assert (Hv1 : (inject_Z b / inject_Z S <= 1)%Q).
    { apply Qle_shift_div_r; [exact HSq |]. rewrite Qmult_1_l. rewrite <- Zle_Qle. lia. }
    assert (HP2 : (P <= 2)%Q).
    { rewrite unit_roundoff_value in Hphi.
      assert (Hh : (inject_Z b / inject_Z S * (1 + (1 # 9007199254740992))
                    <= 1 * (1 + (1 # 9007199254740992)))%Q)
        by (apply Qmult_le_compat_r; [exact Hv1 | lra]).
      lra. }
    rewrite Hxv in Hnotinf, Hrel.
    assert (HBP : (P <= inject_Z base * P)%Q).
    { setoid_replace P with (1 * P)%Q at 1 by ring.
      apply Qmult_le_compat_r; lra. }
    assert (HBP2 : (inject_Z base * P <= 2251799813685248 * 2)%Q).
    { apply Qle_trans with (2251799813685248 * P)%Q.
      - apply Qmult_le_compat_r; lra.
      - apply Qmult_le_compat_l_nonneg; lra. }
    assert (Hfin : Y <> S754_infinity false).
    { apply Hnotinf. apply Qle_lt_trans with (2251799813685248 * 2)%Q; [exact HBP2 |].
      apply Qlt_le_trans with (pow2 53); [reflexivity | apply pow2_le; lia]. }
    destruct (Hrel Hfin) as [Hrel1 _]. specialize (Hrel1 ltac:(lra)).
    destruct Hrel1 as [Hylo Hyhi].
    destruct (to_int_nonneg Y Hnn Hfin) as (k' & -> & _ & Hk0 & Hklo & Hkhi).
    intros H. injection H as <-.
    assert (Hvs : (inject_Z b / inject_Z S * inject_Z S == inject_Z b)%Q)
      by (field; lra).
    destruct (share_algebra (inject_Z k') (inject_Z base) (inject_Z b) (inject_Z S)
                (inject_Z b / inject_Z S) P (SF2Q Y))
      as (A1 & A2 & A3); try assumption; try lra.
    { rewrite <- Zle_Qle. lia. }
    split; [exact Hk0 |]. split; [exact A1 |].
    split.
    + assert (base * b / S < k' + 2); [| lia].
      apply Z.div_lt_upper_bound; [lia |]. apply inject_Z_lt_inv.
      rewrite !inject_Z_mult, inject_Z_plus. change (inject_Z 2) with 2%Q.
      rewrite (Qmult_comm (inject_Z S)). exact A3.
    + assert (k' - 1 <= base * b / S); [| lia].
      apply Z.div_le_lower_bound; [lia |]. apply inject_Z_le_inv.
      rewrite !inject_Z_mult. unfold Z.sub. rewrite inject_Z_plus.
      change (inject_Z (-1)) with (-1)%Q.
      rewrite (Qmult_comm (inject_Z S)). exact A2.
Qed.

(** On non-negative doubles [int()] is the floor. *)
Lemma to_int_is_floor (x : float) :
  nonneg_float x -> PyFloat.to_int x = float_floor x.
Proof.
  intros [-> | [-> | (m & e & -> & _)]]; try reflexivity.
  unfold PyFloat.to_int, float_floor. cbn [cond_Zopp]. destruct e; reflexivity.
Qed.

Lemma of_int_nonneg (n : Z) (x : float) :
  0 <= n -> PyFloat.of_int n = Ok x -> nonneg_float x /\ x <> S754_infinity false.
Proof.
  intros Hn. unfold PyFloat.of_int. destruct n as [| p | p]; try lia.
  - cbn. intros H. injection H as <-. split; [left; reflexivity | discriminate].
  - cbn [binary_normalize].
    pose proof (proj1 (binary_round_rounded p 0 _ (Qeq_refl _))) as Hnn.
    destruct Hnn as [Hz | [Hi | (m & e & Hm & Hb)]].
    + rewrite Hz. intros H. injection H as <-. split; [left; reflexivity | discriminate].
    + rewrite Hi. discriminate.
    + rewrite Hm. intros H. injection H as <-.
      split; [right; right; eauto | discriminate].
Qed.

Lemma int_truediv_nonneg (a b : Z) (q : float) :
  0 <= a -> 0 < b -> PyFloat.int_truediv a b = Ok q ->
  nonneg_float q /\ q <> S754_infinity false.
Proof.
  intros Ha Hb. destruct (Z.eq_dec a 0) as [-> | Hnz].
  - rewrite int_truediv_zero by exact Hb. intros H. injection H as <-.
    split; [left; reflexivity | discriminate].
  - destruct (int_truediv_pos a b ltac:(lia) Hb) as (R & Hr & [[_ [e He]] | [Hfin Hok]]).
    + rewrite He. discriminate.
    + rewrite Hok. intros H. injection H as <-. split; [exact (proj1 Hr) | exact Hfin].
Qed.

Lemma mul_finite_nonneg (x p : float) :
  nonneg_float x -> x <> S754_infinity false ->
  nonneg_float p -> p <> S754_infinity false ->
  nonneg_float (PyFloat.mul x p).
Proof.
  intros Hx Hxf Hp Hpf. unfold PyFloat.mul.
  destruct Hx as [-> | [-> | (mx & ex & -> & Hbx)]]; [| contradiction |];
    (destruct Hp as [-> | [-> | (mp & ep & -> & Hbp)]]; [| contradiction |]);
    try (left; reflexivity).
  exact (proj1 (mul_rounded mx mp ex ep _ Hbx Hbp (Qeq_refl _))).
Qed.

Lemma int_div_pynum_nonneg (k : Z) (rate : pynum) (q : float) :
  0 <= k -> pynum_gt0 rate = true -> int_div_pynum k rate = Ok q -> nonneg_float q.
Proof.
  intros Hk Hpos. destruct rate as [n | y]; cbn [pynum_gt0 int_div_pynum] in *.
  - apply Z.ltb_lt in Hpos. intros H. exact (proj1 (int_truediv_nonneg k n q Hk Hpos H)).
  - destruct (PyFloat.of_int k) as [x | e] eqn:Ex; cbn [rbind]; [| discriminate].
    destruct (of_int_nonneg k x Hk Ex) as [Hx Hxf].
    destruct y as [s | s | | s m e]; try (cbn in Hpos; discriminate);
      (destruct s; [cbn in Hpos; discriminate |]).
    + unfold PyFloat.div, PyFloat.ieee_div. cbn [PyFloat.is_zero].
      intros H. injection H as <-.
      destruct Hx as [-> | [-> | (mx & ex & -> & _)]]; [| contradiction |];
        left; reflexivity.
    + destruct (div_nonneg x m e Hx) as (q' & Hq' & Hnn). rewrite Hq'.
      intros H. injection H as <-. exact Hnn.
Qed.

(** The share of the code is the share of the spec: where the code
    truncates, the value is not negative. *)
Lemma client_share_refines_spec (base : Z) (rate : pynum) (b S : Z) :
  0 <= base -> 0 < b -> 0 < S ->
  client_share base rate b S = spec_share base rate b S.
Proof.
  intros HB Hb HS. unfold client_share, spec_share.
  destruct (PyFloat.int_truediv b S) as [p | e] eqn:Ep; cbn [rbind]; [| reflexivity].
  destruct (int_truediv_nonneg b S p ltac:(lia) HS Ep) as [Hp Hpf].
  destruct (PyFloat.of_int base) as [x | e] eqn:Ex; cbn [rbind]; [| reflexivity].
  destruct (of_int_nonneg base x HB Ex) as [Hx Hxf].
  pose proof (mul_finite_nonneg x p Hx Hxf Hp Hpf) as Hy.
  rewrite (to_int_is_floor _ Hy).
  destruct (float_floor (PyFloat.mul x p)) as [k | e] eqn:Ek; cbn [rbind]; [| reflexivity].
  assert (Hk : 0 <= k).
  { rewrite <- (to_int_is_floor _ Hy) in Ek.
    destruct Hy as [Hz | [Hi | (m & e & Hm & _)]].
    - rewrite Hz in Ek. cbn in Ek. injection Ek as <-. lia.
    - rewrite Hi in Ek. discriminate.
    - destruct (to_int_floor m e) as (k' & Hk' & Hk0 & _). rewrite Hm in Ek.
      rewrite Hk' in Ek. injection Ek as <-. exact Hk0. }
  destruct (pynum_gt0 rate) eqn:Erate; [| reflexivity].
  destruct (int_div_pynum k rate) as [q | e] eqn:Eq; cbn [rbind]; [| reflexivity].
  rewrite (to_int_is_floor q (int_div_pynum_nonneg k rate q Hk Erate Eq)). reflexivity.
Qed.

(* ================================================================== *)
(** * Allocation: the two loops *)

Lemma dict_set_in {V} (d : dict V) (k : string) (v : V) (kv : string * V) :
  In kv (dict_set d k v) -> kv = (k, v) \/ In kv d.
Proof.
  induction d as [| [k' v'] rest IH]; cbn [dict_set].
  - intros [<- | []]. now left.
  - destruct (String.eqb k' k) eqn:E.
    + apply String.eqb_eq in E. subst k'. intros [<- | H]; [now left | right; now right].
    + intros [<- | H]; [right; now left |].
      destruct (IH H) as [-> | H']; [now left | right; now right].
Qed.

Lemma dict_sum_set (d : dict Z) (k : string) (v : Z) :
  (forall kv, In kv d -> 0 <= snd kv) -> dict_sum (dict_set d k v) <= dict_sum d + v.
Proof.
  induction d as [| [k' v'] rest IH]; intros Hpos; cbn [dict_set dict_sum fold_right snd].
  - lia.
  - fold (dict_sum rest).
    assert (Hv' : 0 <= v') by (apply (Hpos (k', v')); now left).
    assert (Hrest : forall kv, In kv rest -> 0 <= snd kv)
      by (intros kv H; apply Hpos; now right).
    assert (Hsum : 0 <= dict_sum rest).
    { clear - Hrest. induction rest as [| kv rest IH]; cbn; [lia |].
      fold (dict_sum rest). pose proof (Hrest kv (or_introl eq_refl)).
      assert (0 <= dict_sum rest) by (apply IH; intros ? ?; apply Hrest; now right). lia. }
    destruct (String.eqb k' k); cbn [dict_sum fold_right snd].
    + fold (dict_sum rest). lia.
    + fold (dict_sum (dict_set rest k v)). specialize (IH Hrest). lia.
Qed.

Lemma dict_sum_member (d : dict Z) (kv : string * Z) :
  (forall x, In x d -> 0 <= snd x) -> In kv d -> snd kv <= dict_sum d.
Proof.
  induction d as [| x rest IH]; intros Hpos Hin; [destruct Hin |].
  cbn [dict_sum fold_right]. fold (dict_sum rest).
  assert (Hrest : forall y, In y rest -> 0 <= snd y) by (intros y H; apply Hpos; now right).
  assert (Hsum : 0 <= dict_sum rest).
  { clear - Hrest. induction rest as [| y rest IH]; cbn; [lia |].
    fold (dict_sum rest). pose proof (Hrest y (or_introl eq_refl)).
    assert (0 <= dict_sum rest) by (apply IH; intros ? ?; apply Hrest; now right). lia. }
  destruct Hin as [<- | Hin].
  - lia.
  - specialize (IH Hrest Hin). pose proof (Hpos x (or_introl eq_refl)). lia.
Qed.

Lemma positive_total_nonneg (answers : list (string * Z)) : 0 <= positive_total answers.
Proof.
  induction answers as [| [k b] rest IH]; cbn [positive_total fold_right snd]; [lia |].
  fold (positive_total rest). destruct (0 <? b) eqn:E; [apply Z.ltb_lt in E |]; lia.
Qed.

Lemma positive_total_zero (answers : list (string * Z)) :
  (forall cid b, In (cid, b) answers -> b <= 0) -> positive_total answers = 0.
Proof.
  induction answers as [| [k b] rest IH]; intros H; cbn [positive_total fold_right snd];
    [reflexivity |].
  fold (positive_total rest).
  assert (Hb : b <= 0) by (apply (H k); now left).
  destruct (0 <? b) eqn:E; [apply Z.ltb_lt in E; lia |].
  apply IH. intros cid b' Hin. apply (H cid). now right.
Qed.

(** What the first loop keeps: positive balances that were answered,
    summing to no more than the running total. *)
Lemma collected_spec (answers : list (string * Z)) :
  forall client_balances,
    (forall kv, In kv client_balances -> 0 < snd kv) ->
    (forall kv, In kv (collected answers client_balances) ->
       0 < snd kv /\ (In kv client_balances \/ In kv answers))
    /\ dict_sum (collected answers client_balances)
       <= dict_sum client_balances + positive_total answers.
Proof.
  induction answers as [| [k b] rest IH]; intros cb Hpos; cbn [collected].
  - split; [intros kv H; split; [now apply Hpos | now left] |].
    cbn [positive_total fold_right]. lia.
  - cbn [positive_total fold_right snd]. fold (positive_total rest).
    destruct (0 <? b) eqn:E.
    + apply Z.ltb_lt in E.
      assert (Hpos' : forall kv, In kv (dict_set cb k b) -> 0 < snd kv).
      { intros kv H. destruct (dict_set_in _ _ _ _ H) as [-> | H']; [exact E | now apply Hpos]. }
      destruct (IH _ Hpos') as [Hmem Hsum]. split.
      * intros kv H. destruct (Hmem kv H) as [Hkv [Hin | Hin]].
        -- split; [exact Hkv |].
           destruct (dict_set_in _ _ _ _ Hin) as [-> | H']; [right; now left | now left].
        -- split; [exact Hkv | right; now right].
      * assert (dict_sum (dict_set cb k b) <= dict_sum cb + b).
        { apply dict_sum_set. intros kv H. specialize (Hpos kv H). lia. }
        lia.
    + destruct (IH _ Hpos) as [Hmem Hsum]. split; [| exact Hsum].
      intros kv H. destruct (Hmem kv H) as [Hkv [Hin | Hin]];
        (split; [exact Hkv |]); [now left | right; now right].
Qed.

(** The first loop, run: every call is a balance query as of
    [transaction_time], and the result is what the answers give. *)
Lemma run_collect_balances {W} (h : handler W) (transaction_time : option datetime)
  (flow_clients : list DcaClient) :
  forall client_balances total w,
    let o := run h (collect_balances transaction_time flow_clients client_balances total) w in
    Forall (fun c => exists cid, c = get_client_balance_summary cid transaction_time)
           (calls (trace o))
    /\ forall r, returned o = Ok r ->
         r = (collected (balance_answers (trace o)) client_balances,
              total + positive_total (balance_answers (trace o))).
Proof.
  induction flow_clients as [| client rest IH]; intros cb total w; cbn [collect_balances].
  - cbn. split; [constructor |]. intros r H. injection H as <-. f_equal. lia.
  - cbv zeta. rewrite run_bind, run_await. unfold and_then. cbn [returned final trace].
    destruct (h (get_client_balance_summary (c_id client) transaction_time) w)
      as [[balance | e] w1]; cbn [fst snd returned final trace].
    + set (b := remaining_balance balance).
      set (cb' := if 0 <? b then dict_set cb (c_id client) b else cb).
      set (total' := if 0 <? b then total + b else total).
      assert (Hk : (if 0 <? b
                    then collect_balances transaction_time rest
                           (dict_set cb (c_id client) b) (total + b)
                    else collect_balances transaction_time rest cb total)
                   = collect_balances transaction_time rest cb' total')
        by (unfold cb', total'; destruct (0 <? b); reflexivity).
      rewrite Hk. destruct (IH cb' total' w1) as [Hcalls Hret].
      cbn [app calls map ev_call]. split.
      * constructor; [eexists; reflexivity | exact Hcalls].
      * intros r Hr. rewrite (Hret r Hr).
        unfold balance_answers. cbn [flat_map balance_answer app].
        fold (balance_answers
                (trace (run h (collect_balances transaction_time rest cb' total') w1))).
        cbn [collected positive_total fold_right snd]. fold b. fold cb'.
        f_equal. unfold total'.
        match goal with |- context [fold_right _ 0 ?l] =>
          change (fold_right _ 0 l) with (positive_total l) end.
        destruct (0 <? b); lia.
    + cbn [calls map ev_call]. split.
      * constructor; [eexists; reflexivity | constructor].
      * intros r H. discriminate.
Qed.

Lemma total_sats_set (ds : dict Distribution) (k : string) (d : Distribution) :
  (forall kd, In kd ds -> 0 <= d_sats_amount (snd kd)) ->
  total_sats (dict_set ds k d) <= total_sats ds + d_sats_amount d.
Proof.
  induction ds as [| [k' d'] rest IH]; intros Hpos; cbn [dict_set total_sats fold_right snd].
  - lia.
  - fold (total_sats rest).
    assert (Hd' : 0 <= d_sats_amount d') by (apply (Hpos (k', d')); now left).
    assert (Hrest : forall kd, In kd rest -> 0 <= d_sats_amount (snd kd))
      by (intros kd H; apply Hpos; now right).
    assert (Hsum : 0 <= total_sats rest).
    { clear - Hrest. induction rest as [| kd rest IH]; cbn; [lia |].
      fold (total_sats rest). pose proof (Hrest kd (or_introl eq_refl)).
      assert (0 <= total_sats rest) by (apply IH; intros ? ?; apply Hrest; now right). lia. }
    destruct (String.eqb k' k); cbn [total_sats fold_right snd].
    + fold (total_sats rest). lia.
    + fold (total_sats (dict_set rest k d)). specialize (IH Hrest). lia.
Qed.

(** The second loop: every entry of the result is the share of a kept
    balance. *)
Lemma share_out_members (base : Z) (rate : pynum) (S : Z) (client_balances : dict Z) :
  forall ds0 ds,
    share_out base rate S client_balances ds0 = Ok ds ->
    forall kd, In kd ds ->
      In kd ds0 \/ exists b, In (fst kd, b) client_balances
                             /\ client_share base rate b S = Ok (snd kd).
Proof.
  induction client_balances as [| [k b] rest IH]; intros ds0 ds; cbn [share_out].
  - intros H. injection H as <-. intros kd Hin. now left.
  - destruct (client_share base rate b S) as [d | e] eqn:Ed; cbn [rbind]; [| discriminate].
    intros H kd Hin. destruct (IH _ _ H kd Hin) as [Hin0 | (b' & Hb' & Hs)].
    + destruct (dict_set_in _ _ _ _ Hin0) as [-> | Hin1]; [| now left].
      right. exists b. split; [now left | exact Ed].
    + right. exists b'. split; [now right | exact Hs].
Qed.

(** The second loop: the shares add up to at most
    [base * (sum of the kept balances) / S * (1 + u)^2]. *)
Lemma share_out_sum (base : Z) (rate : pynum) (S : Z) (client_balances : dict Z) :
  0 <= base < 2 ^ 51 -> S <= 2 ^ 1020 ->
  (forall kv, In kv client_balances -> 0 < snd kv <= S) ->
  forall ds0 ds,
    (forall kd, In kd ds0 -> 0 <= d_sats_amount (snd kd)) ->
    share_out base rate S client_balances ds0 = Ok ds ->
    (forall kd, In kd ds -> 0 <= d_sats_amount (snd kd))
    /\ (inject_Z (total_sats ds) * inject_Z S
        <= inject_Z (total_sats ds0) * inject_Z S
           + inject_Z base * inject_Z (dict_sum client_balances)
             * ((1 + unit_roundoff) * (1 + unit_roundoff)))%Q.
Proof.
  intros HB HS. induction client_balances as [| [k b] rest IH]; intros Hcb ds0 ds Hpos;
    cbn [share_out].
  - intros H. injection H as <-. split; [exact Hpos |].
    cbn [dict_sum fold_right]. change (inject_Z 0) with 0%Q.
    assert (E : (inject_Z base * 0 * ((1 + unit_roundoff) * (1 + unit_roundoff)) == 0)%Q)
      by ring.
    rewrite E. rewrite Qplus_0_r. apply Qle_refl.
  - destruct (client_share base rate b S) as [d | e] eqn:Ed; cbn [rbind]; [| discriminate].
    intros H.
    assert (Hb : 0 < b <= S) by (apply (Hcb (k, b)); now left).
    destruct (atomic_share_bounds base b S (d_sats_amount d) HB Hb HS
                (client_share_atomic _ _ _ _ _ Ed)) as (Hd0 & Hdq & _).
    assert (Hpos' : forall kd, In kd (dict_set ds0 k d) -> 0 <= d_sats_amount (snd kd)).
    { intros kd Hin. destruct (dict_set_in _ _ _ _ Hin) as [-> | Hin']; [exact Hd0 |].
      now apply Hpos. }
    destruct (IH ltac:(intros kv Hin; apply Hcb; now right) _ _ Hpos' H) as [Hnn Hsum].
    split; [exact Hnn |].
    pose proof (total_sats_set ds0 k d Hpos) as Hset.
    assert (HSq : (0 <= inject_Z S)%Q) by (apply inject_Z_nonneg; lia).
    assert (Hset' : (inject_Z (total_sats (dict_set ds0 k d)) * inject_Z S
                     <= (inject_Z (total_sats ds0) + inject_Z (d_sats_amount d))
                        * inject_Z S)%Q).
    { apply Qmult_le_compat_r; [| exact HSq]. rewrite <- inject_Z_plus, <- Zle_Qle.
      exact Hset. }
    cbn [dict_sum fold_right snd]. fold (dict_sum rest). rewrite inject_Z_plus.
    set (c := ((1 + unit_roundoff) * (1 + unit_roundoff))%Q) in *.
    set (X := (inject_Z base * inject_Z (dict_sum rest) * c)%Q) in *.
    assert (E1 : (inject_Z base * (inject_Z b + inject_Z (dict_sum rest)) * c
                  == inject_Z base * inject_Z b * c + X)%Q) by (unfold X; ring).
    rewrite E1.
    assert (E2 : ((inject_Z (total_sats ds0) + inject_Z (d_sats_amount d)) * inject_Z S
                  == inject_Z (total_sats ds0) * inject_Z S
                     + inject_Z (d_sats_amount d) * inject_Z S)%Q) by ring.
    rewrite E2 in Hset'.
    set (A := (inject_Z (total_sats ds) * inject_Z S)%Q) in *.
    set (A1 := (inject_Z (total_sats (dict_set ds0 k d)) * inject_Z S)%Q) in *.
    set (A0 := (inject_Z (total_sats ds0) * inject_Z S)%Q) in *.
    set (D := (inject_Z (d_sats_amount d) * inject_Z S)%Q) in *.
    set (Y := (inject_Z base * inject_Z b * c)%Q) in *.
    clearbody A A1 A0 D Y X. clear - Hsum Hset' Hdq. lra.
Qed.

(** With a base below [2^51] the shares never add up to more than the
    base. *)
Lemma share_out_within_base (base : Z) (rate : pynum) (S : Z) (client_balances : dict Z)
  (ds : dict Distribution) :
  0 <= base < 2 ^ 51 -> 0 < S <= 2 ^ 1020 ->
  (forall kv, In kv client_balances -> 0 < snd kv) ->
  dict_sum client_balances <= S ->
  share_out base rate S client_balances nil = Ok ds ->
  total_sats ds <= base.
Proof.
  intros HB [HS0 HS] Hpos Hsum Hout.
  assert (Hcb : forall kv, In kv client_balances -> 0 < snd kv <= S).
  { intros kv Hin. split; [now apply Hpos |].
    apply Z.le_trans with (dict_sum client_balances); [| exact Hsum].
    apply dict_sum_member; [| exact Hin]. intros x Hx. specialize (Hpos x Hx). lia. }
  destruct (share_out_sum base rate S client_balances HB HS Hcb nil ds
              ltac:(intros kd []) Hout) as [_ Hq].
  cbn [total_sats fold_right] in Hq.
  assert (HSq : (0 < inject_Z S)%Q) by (apply inject_Z_pos; lia).
  assert (HBq : (0 <= inject_Z base)%Q) by (apply inject_Z_nonneg; lia).
  assert (HB51 : (inject_Z base <= 2251799813685248)%Q).
  { change 2251799813685248%Q with (inject_Z (2 ^ 51)). rewrite <- Zle_Qle. lia. }
  assert (Hdq : (inject_Z (dict_sum client_balances) <= inject_Z S)%Q)
    by (rewrite <- Zle_Qle; exact Hsum).
  rewrite unit_roundoff_value in Hq.
  set (c := ((1 + (1 # 9007199254740992)) * (1 + (1 # 9007199254740992)))%Q) in *.
  assert (Hc : (0 <= inject_Z base * c)%Q)
    by (apply Qmult_le_0_compat; [exact HBq | unfold c; lra]).
  pose proof (Qmult_le_compat_l_nonneg _ _ _ Hc Hdq) as Hm.
  assert (Hlt : (inject_Z (total_sats ds) * inject_Z S
                 < (inject_Z base + 1) * inject_Z S)%Q).
  { apply Qle_lt_trans with (inject_Z base * c * inject_Z S)%Q.
    - change (inject_Z 0) with 0%Q in Hq. rewrite Qmult_0_l, Qplus_0_l in Hq.
      assert (E : (inject_Z base * inject_Z (dict_sum client_balances) * c
                   == inject_Z base * c * inject_Z (dict_sum client_balances))%Q) by ring.
      rewrite E in Hq. clear E.
      set (A := (inject_Z (total_sats ds) * inject_Z S)%Q) in *.
      set (M1 := (inject_Z base * c * inject_Z (dict_sum client_balances))%Q) in *.
      set (M2 := (inject_Z base * c * inject_Z S)%Q) in *.
      clearbody A M1 M2. clear - Hq Hm. lra.
    - apply Qmult_lt_compat_r; [exact HSq |]. unfold c. lra. }
  assert (Hlt' : (inject_Z (total_sats ds) < inject_Z base + 1)%Q).
  { destruct (Qlt_le_dec (inject_Z (total_sats ds)) (inject_Z base + 1)) as [| Hge];
      [assumption |].
    exfalso. apply (Qmult_le_compat_r _ _ (inject_Z S)) in Hge; [| lra].
    apply (Qlt_not_le _ _ Hlt). exact Hge. }
  assert (total_sats ds < base + 1); [| lia].
  apply inject_Z_lt_inv. rewrite inject_Z_plus. exact Hlt'.
Qed.

Lemma run_try_catch_default {W A} (h : handler W) (p : Prog A) (d : A) (w : W) :
  run h (try_catch p (fun _ => Ret d)) w
  = Outcome (match returned (run h p w) with Ok a => Ok a | Err _ => Ok d end)
            (final (run h p w)) (trace (run h p w)).
Proof.
  rewrite run_try_catch. unfold or_else.
  destruct (returned (run h p w)) eqn:E; cbn.
  - rewrite <- E. apply eq_sym, outcome_eta.
  - now rewrite app_nil_r.
Qed.

(** ** The allocation succeeds on its domain *)











(** ** The mapping returned *)

Lemma allocation_facts_empty (transaction : Transaction) (t : list event) :
  (forall cid time, In (get_client_balance_summary cid time) (calls t) ->
     normalize_if_present (tx_transaction_time transaction) = Ok time) ->
  allocation_facts transaction t nil.
Proof.
  intros H. split; [exact H |]. split; [reflexivity | left; reflexivity].
Qed.

Lemma allocation_body {W} (h : handler W) (w : W) (transaction : Transaction) :
  let o := run h (calculate_distribution_amounts transaction) w in
  exists distributions,
    returned o = Ok distributions /\ allocation_facts transaction (trace o) distributions.
Proof.
  cbv zeta. unfold calculate_distribution_amounts. rewrite run_try_catch_default.
  cbn [returned trace]. rewrite run_bind, run_await. unfold and_then.
  cbn [returned final trace fst snd].
  destruct (h get_flow_mode_clients w) as [[flow_clients | e] w1];
    cbn [fst snd returned final trace].
  2:{ exists nil. split; [reflexivity |]. apply allocation_facts_empty.
      intros cid time [H | []]. discriminate. }
  destruct flow_clients as [| client rest].
  { cbn. exists nil. split; [reflexivity |]. apply allocation_facts_empty.
    intros cid time [H | []]. discriminate. }
  destruct (normalize_if_present (tx_transaction_time transaction))
    as [as_of | e] eqn:Etime.
  2:{ cbn. exists nil. split; [reflexivity |]. apply allocation_facts_empty.
      intros cid time [H | []]. discriminate. }
  cbn [lift bind].
  assert (Hfirst : forall cs,
            Forall (fun c => exists cid, c = get_client_balance_summary cid as_of) cs ->
            forall cid time,
              In (get_client_balance_summary cid time) (get_flow_mode_clients :: cs) ->
              normalize_if_present (tx_transaction_time transaction) = Ok time).
  { intros cs Hcs cid time [H | H]; [discriminate |].
    rewrite Forall_forall in Hcs. destruct (Hcs _ H) as (cid' & E).
    injection E as _ ->. exact Etime. }
  destruct (tx_crypto_amount transaction) as [T |] eqn:ET.
  2:{ cbn. exists nil. split; [reflexivity |]. apply allocation_facts_empty.
      intros cid time [H | []]. discriminate. }
  destruct (tx_fiat_amount transaction) as [fiat |] eqn:EF.
  2:{ cbn. exists nil. split; [reflexivity |]. apply allocation_facts_empty.
      intros cid time [H | []]. discriminate. }
  change (match tx_commission_percentage transaction with
          | Some c => c | None => PyFloat.zero end)
    with (get_or_zero (tx_commission_percentage transaction)).
  change (match tx_discount transaction with
          | Some d => d | None => PyFloat.zero end)
    with (get_or_zero (tx_discount transaction)).
  destruct (decompose T fiat (get_or_zero (tx_commission_percentage transaction))
              (get_or_zero (tx_discount transaction))) as [parts | e] eqn:ED.
  2:{ cbn. exists nil. split; [reflexivity |]. apply allocation_facts_empty.
      intros cid time [H | []]. discriminate. }
  cbn [lift bind]. rewrite run_bind. unfold and_then.
  destruct (run_collect_balances h as_of (client :: rest) [] 0 w1) as [Hcalls Hret].
  set (o1 := run h (collect_balances as_of (client :: rest) [] 0) w1) in *.
  assert (Hanswers : forall r : result (resp get_flow_mode_clients),
            balance_answers (Event get_flow_mode_clients r :: trace o1)
            = balance_answers (trace o1)) by reflexivity.
  destruct (returned o1) as [[client_balances S] | e] eqn:E1.
  2:{ cbn. exists nil. split; [reflexivity |]. apply allocation_facts_empty.
      apply Hfirst, Hcalls. }
  specialize (Hret _ eq_refl). injection Hret as Hcb HS. cbn [Z.add] in HS.
  set (answers := balance_answers (trace o1)) in *.
  destruct (collected_spec answers [] ltac:(intros kv []))
    as [Hmem Hsum].
  cbn [dict_sum fold_right Z.add] in Hsum. rewrite <- Hcb, <- HS in *.
  pose proof (positive_total_nonneg answers) as Hnn. rewrite <- HS in Hnn.
  destruct (S =? 0) eqn:ES.
  { cbn. rewrite app_nil_r. exists nil. split; [reflexivity |].
    apply allocation_facts_empty. apply Hfirst, Hcalls. }
  apply Z.eqb_neq in ES.
  destruct (share_out (base_crypto_atoms parts) (exchange_rate parts) S client_balances [])
    as [ds | e] eqn:Eout.
  2:{ cbn. rewrite app_nil_r. exists nil. split; [reflexivity |].
      apply allocation_facts_empty. apply Hfirst, Hcalls. }
  cbn. rewrite app_nil_r. exists ds. split; [reflexivity |].
  unfold allocation_facts. cbv zeta. rewrite Hanswers. fold answers. rewrite <- HS.
  split; [apply Hfirst, Hcalls |]. split.
  { intros Hnone. exfalso. apply ES. rewrite HS. now apply positive_total_zero. }
  right. exists T, fiat, parts.
  split; [exact ET |]. split; [exact EF |]. split; [exact ED |]. split.
  - intros cid d Hin.
    destruct (share_out_members _ _ _ _ _ _ Eout (cid, d) Hin) as [[] | (b & Hb & Hs)].
    cbn [fst snd] in Hb, Hs.
    destruct (Hmem (cid, b) Hb) as [Hb0 [[] | Hans]]. cbn [snd] in Hb0.
    exists b. split; [exact Hans |]. split; [exact Hb0 |]. split; [exact Hs |]. split.
    + intros HB. rewrite <- client_share_refines_spec; [exact Hs | exact HB | exact Hb0 | lia].
    + intros HB HS'. 
      refine (proj2 (proj2 (atomic_share_bounds _ b S _ HB _ HS'
                              (client_share_atomic _ _ _ _ _ Hs)))).
      split; [exact Hb0 |].
      apply Z.le_trans with (dict_sum client_balances); [| exact Hsum].
      apply (dict_sum_member client_balances (cid, b)); [| exact Hb].
      intros x Hx. destruct (Hmem x Hx) as [H0 _]. lia.
  - intros HB HS'.
    apply (share_out_within_base _ (exchange_rate parts) S client_balances);
      try assumption; [lia |].
    intros kv Hkv. exact (proj1 (Hmem kv Hkv)).
Qed.




(* ================================================================== *)
(** * Allocation *)




(* ================================================================== *)
(** * Further properties of the processor *)

(** ** Normalisation of datetimes *)

Lemma representable_spec (reading : Z) :
  representable reading = true <-> datetime_min <= reading <= datetime_max.
Proof.
  unfold representable. rewrite andb_true_iff, !Z.leb_le. tauto.
Qed.

Lemma normalize_utc_facts (dt : datetime) :
  match normalize_utc dt with
  | Ok utc =>
      tzinfo utc = Some 0
      /\ instant utc = instant dt
      /\ normalize_utc utc = Ok utc
      /\ (representable (wall_clock dt) = true -> representable (wall_clock utc) = true)
  | Err e => exn_class e = OverflowError
  end
  /\ ((exists e, normalize_utc dt = Err e) <->
      (exists off, tzinfo dt = Some off /\ off <> 0
                   /\ representable (instant dt) = false)).
Proof.
  destruct dt as [clock [off |]]; unfold normalize_utc at 1 3, instant; cbn [tzinfo wall_clock].
  - destruct (off =? 0) eqn:E.
    + apply Z.eqb_eq in E. subst off. 
      split.
      * split; [reflexivity |]. split; [reflexivity |]. split; [reflexivity | auto].
      * split; [intros [e H]; discriminate H | intros (off & H & Hne & _)].
        injection H as <-. now contradiction Hne.
    + apply Z.eqb_neq in E.
      unfold astimezone_utc, add_timedelta. cbn [tzinfo wall_clock].
      replace (clock + - off) with (clock - off) by lia.
      destruct (representable (clock - off)) eqn:R; cbn [rbind replace_tzinfo_utc tzinfo wall_clock].
      * split.
        -- split; [reflexivity |]. split; [lia |]. split; [reflexivity | auto].
        -- split; [intros [e H]; discriminate H | intros (off' & H & _ & H')].
           injection H as <-. congruence.
      * split; [reflexivity |].
        split; [intros _; exists off; auto | intros _; eexists; reflexivity].
  - cbn [replace_tzinfo_utc tzinfo wall_clock]. split.
    + split; [reflexivity |]. split; [lia |]. split; [reflexivity | auto].
    + split; [intros [e H]; discriminate H | intros (off & H & _)]. discriminate H.
Qed.

(** X1. The recurring normalisation to UTC either raises [OverflowError],
    exactly when the datetime is aware at a non-zero offset and its UTC
    reading lies outside the range of [datetime], or yields an aware
    datetime at offset 0 that denotes the same instant, is in range when
    its argument is, and is left as it is by a second normalisation. *)
Theorem normalize_utc_is_utc (dt : datetime) :
  match normalize_utc dt with
  | Ok utc =>
      tzinfo utc = Some 0
      /\ instant utc = instant dt
      /\ normalize_utc utc = Ok utc
      /\ (representable (wall_clock dt) = true -> representable (wall_clock utc) = true)
  | Err e => exn_class e = OverflowError
  end
  /\ ((exists e, normalize_utc dt = Err e) <->
      (exists off, tzinfo dt = Some off /\ off <> 0
                   /\ representable (instant dt) = false)).
Proof. exact (normalize_utc_facts dt). Qed.

(** ** The private key file *)

Lemma chars_app (a b : string) : chars (a ++ b) = chars a ++ chars b.
Proof. induction a as [| c a IH]; cbn; [reflexivity | now rewrite IH]. Qed.

Lemma replace_cr_no_cr (s : string) :
  ~ In CR (chars (replace (String CR EmptyString) (String LF EmptyString) s)).
Proof.
  unfold replace. induction s as [| c rest IH]; cbn [replace_from chars]; [tauto |].
  cbn [String.prefix String.length Nat.sub].
  destruct (Ascii.ascii_dec CR c) as [<- | Hne].
  - destruct rest; cbn [append chars]; intros [H | H]; try discriminate; now apply IH.
  - cbn [chars]. intros [H | H]; [now apply Hne |]. now apply IH.
Qed.

Lemma replace_cr_unchanged (s : string) :
  ~ In CR (chars s) -> replace (String CR EmptyString) (String LF EmptyString) s = s.
Proof.
  unfold replace. induction s as [| c rest IH]; cbn [replace_from chars]; [reflexivity |].
  intros H. cbn [String.prefix].
  destruct (Ascii.ascii_dec CR c) as [<- | Hne]; [exfalso; apply H; now left |].
  f_equal. apply IH. intros Hin. apply H. now right.
Qed.

Lemma replace_crlf_unchanged (s : string) :
  ~ In CR (chars s) ->
  replace (String CR (String LF EmptyString)) (String LF EmptyString) s = s.
Proof.
  unfold replace. induction s as [| c rest IH]; cbn [replace_from chars]; [reflexivity |].
  intros H. cbn [String.prefix].
  destruct (Ascii.ascii_dec CR c) as [<- | Hne]; [exfalso; apply H; now left |].
  f_equal. apply IH. intros Hin. apply H. now right.
Qed.

Lemma endswith_newline_app (s : string) :
  endswith_newline (s ++ String LF EmptyString) = true.
Proof.
  induction s as [| c rest IH]; [reflexivity |].
  cbn [append endswith_newline]. destruct (rest ++ String LF EmptyString)%string eqn:E.
  - destruct rest; discriminate.
  - exact IH.
Qed.

Lemma content_cons (c : ascii) (l : list ascii) :
  content (c :: l)
  = if negb (Ascii.eqb c CR || Ascii.eqb c LF) then c :: content l else content l.
Proof. reflexivity. Qed.

Lemma content_skip_cr (l : list ascii) : content (CR :: l) = content l.
Proof. reflexivity. Qed.

Lemma content_skip_lf (l : list ascii) : content (LF :: l) = content l.
Proof. reflexivity. Qed.

Lemma content_replace_from_crlf (s : string) :
  forall skip,
    (skip <= 1)%nat ->
    (skip = 1%nat -> exists rest, s = String LF rest) ->
    content (chars (replace_from (String CR (String LF EmptyString)) (String LF EmptyString)
                      s skip))
    = content (chars s).
Proof.
  induction s as [| c rest IH]; intros skip Hle Hone; [destruct skip; reflexivity |].
  destruct skip as [| skip].
  - cbn [replace_from String.prefix].
    destruct (Ascii.ascii_dec CR c) as [<- | Hne].
    + destruct rest as [| c' rest'].
      * reflexivity.
      * cbn [String.prefix]. destruct (Ascii.ascii_dec LF c') as [<- | Hne'].
        -- replace (String.prefix EmptyString rest') with true
             by (destruct rest'; reflexivity).
           cbn [String.length Nat.sub append chars].
           rewrite content_skip_lf, content_skip_cr.
           rewrite (IH 1%nat (le_n _)) by (intros _; eexists; reflexivity).
           cbn [chars]. now rewrite content_skip_lf.
        -- cbn [chars]. rewrite !content_skip_cr.
           rewrite (IH 0%nat) by (lia || discriminate). reflexivity.
    + cbn [chars]. rewrite !content_cons.
      rewrite (IH 0%nat) by (lia || discriminate). reflexivity.
  - assert (skip = 0%nat) by lia. subst skip.
    destruct (Hone eq_refl) as [rest' H]. injection H as -> ->.
    cbn [replace_from chars]. rewrite content_skip_lf.
    apply IH; [lia | discriminate].
Qed.

Lemma content_replace_cr (s : string) :
  content (chars (replace (String CR EmptyString) (String LF EmptyString) s))
  = content (chars s).
Proof.
  unfold replace. induction s as [| c rest IH]; [reflexivity |].
  cbn [replace_from String.prefix String.length Nat.sub].
  destruct (Ascii.ascii_dec CR c) as [<- | Hne].
  - replace (String.prefix EmptyString rest) with true by (destruct rest; reflexivity).
    cbn [append chars]. rewrite content_skip_lf, content_skip_cr. exact IH.
  - cbn [chars]. rewrite !content_cons, IH. reflexivity.
Qed.

(** X2. The key data written to the temporary key file (lines 144-147
    and 424-427) contains no carriage return and ends with a newline; key
    data that already has that form is written as it is; and the
    characters of the key other than line ends are written unchanged and in
    order. *)
Theorem normalize_key_data_normal (key_data : string) :
  ~ In CR (chars (normalize_key_data key_data))
  /\ endswith_newline (normalize_key_data key_data) = true
  /\ (~ In CR (chars key_data) -> endswith_newline key_data = true ->
      normalize_key_data key_data = key_data)
  /\ content (chars (normalize_key_data key_data)) = content (chars key_data)
  /\ normalize_key_data (normalize_key_data key_data) = normalize_key_data key_data.
Proof.
  assert (Hfix : forall k, ~ In CR (chars k) -> endswith_newline k = true ->
                           normalize_key_data k = k).
  { intros k Hcr Hnl. unfold normalize_key_data.
    rewrite (replace_crlf_unchanged k Hcr), (replace_cr_unchanged k Hcr), Hnl.
    reflexivity. }
  assert (Hcr : ~ In CR (chars (normalize_key_data key_data))).
  { unfold normalize_key_data.
    set (k := replace (String CR EmptyString) (String LF EmptyString) _).
    pose proof (replace_cr_no_cr
                  (replace (String CR (String LF EmptyString)) (String LF EmptyString)
                     key_data)) as H.
    fold k in H. destruct (endswith_newline k); cbn [negb]; [exact H |].
    rewrite chars_app. intros Hin. apply in_app_or in Hin.
    destruct Hin as [Hin | [Hin | []]]; [now apply H | discriminate]. }
  assert (Hnl : endswith_newline (normalize_key_data key_data) = true).
  { unfold normalize_key_data.
    set (k := replace (String CR EmptyString) (String LF EmptyString) _).
    destruct (endswith_newline k) eqn:E; cbn [negb]; [exact E |].
    apply endswith_newline_app. }
  split; [exact Hcr |]. split; [exact Hnl |]. split; [apply Hfix |].
  split; [| now apply Hfix].
  unfold normalize_key_data.
  set (k := replace (String CR EmptyString) (String LF EmptyString) _).
  assert (Hk : content (chars k) = content (chars key_data)).
  { unfold k. rewrite content_replace_cr. unfold replace.
    apply content_replace_from_crlf; [lia | discriminate]. }
  destruct (endswith_newline k); cbn [negb]; [exact Hk |].
  rewrite chars_app. unfold content in *. rewrite filter_app, Hk.
  cbn. apply app_nil_r.
Qed.

(* ================================================================== *)
(** ** The two computations of the commission *)

Lemma decompose_parts (T fiat : Z) (c d : float) (parts : Decomposition) :
  decompose T fiat c d = Ok parts ->
  commission_amount_sats parts = T - base_crypto_atoms parts
  /\ (if PyFloat.gt0 c
      then exists f, effective_commission_of c d = Ok f
                     /\ effective_commission parts = f
                     /\ base_crypto_atoms_of T f = Ok (base_crypto_atoms parts)
      else base_crypto_atoms parts = T /\ effective_commission parts = PyFloat.zero)
  /\ exchange_rate parts
     = (if 0 <? fiat
        then match PyFloat.int_truediv (base_crypto_atoms parts) fiat with
             | Ok rate => PFloat rate
             | Err _ => exchange_rate parts
             end
        else PInt 0).
Proof.
  unfold decompose. destruct (PyFloat.gt0 c).
  - destruct (effective_commission_of c d) as [f | e] eqn:Ef; cbn [rbind];
      [| discriminate].
    destruct (base_crypto_atoms_of T f) as [base | e] eqn:Eb; cbn [rbind];
      [| discriminate].
    destruct (0 <? fiat).
    + destruct (PyFloat.int_truediv base fiat) as [rate | e] eqn:Er; cbn [rbind];
        [| discriminate].
      intros H. injection H as <-. cbn. rewrite Er.
      split; [reflexivity |]. split; [| reflexivity]. exists f. auto.
    + cbn [rbind]. intros H. injection H as <-. cbn.
      split; [reflexivity |]. split; [| reflexivity]. exists f. auto.
  - cbn [rbind]. destruct (0 <? fiat).
    + destruct (PyFloat.int_truediv T fiat) as [rate | e] eqn:Er; cbn [rbind];
        [| discriminate].
      intros H. injection H as <-. cbn. rewrite Er.
      split; [lia |]. split; [split |]; reflexivity.
    + cbn [rbind]. intros H. injection H as <-. cbn.
      split; [lia |]. split; [split |]; reflexivity.
Qed.

Lemma gt0_or_zero (x : option float) :
  PyFloat.truthy (or_zero x) && PyFloat.gt0 (or_zero x) = PyFloat.gt0 (get_or_zero x)
  /\ (PyFloat.gt0 (get_or_zero x) = true -> or_zero x = get_or_zero x).
Proof.
  destruct x as [v |]; [destruct v as [s | s | | s m e]; try destruct s |];
    (split; [reflexivity | intros H; first [reflexivity | discriminate H]]).
Qed.

Lemma sub_100_or_zero (d : option float) :
  PyFloat.sub (PyFloat.lit 100) (or_zero d) = PyFloat.sub (PyFloat.lit 100) (get_or_zero d).
Proof.
  rewrite lit_100. destruct d as [[s | s | | s m e] |]; reflexivity.
Qed.

Lemma commission_to_send_agrees (transaction : Transaction) (T fiat : Z)
  (parts : Decomposition) :
  tx_crypto_amount transaction = Some T ->
  decompose T fiat (get_or_zero (tx_commission_percentage transaction))
    (get_or_zero (tx_discount transaction)) = Ok parts ->
  commission_to_send transaction = Ok (commission_amount_sats parts).
Proof.
  intros HT Hdec. destruct (decompose_parts _ _ _ _ _ Hdec) as (Hcom & Hbase & _).
  unfold commission_to_send. rewrite HT.
  destruct (gt0_or_zero (tx_commission_percentage transaction)) as [Hgt Hsame].
  rewrite Hgt.
  destruct (PyFloat.gt0 (get_or_zero (tx_commission_percentage transaction))) eqn:E.
  - destruct Hbase as (f & Hf & _ & Hb).
    rewrite (Hsame eq_refl). unfold effective_commission_of in *.
    rewrite sub_100_or_zero, Hf. cbn [rbind not_none]. rewrite Hb. cbn [rbind].
    now rewrite Hcom.
  - destruct Hbase as [Hbase _]. rewrite Hcom, Hbase. f_equal. lia.
Qed.

(** X3. The commission that [process_transaction] forwards (lines
    1013-1022) is the commission of the decomposition that
    [calculate_distribution_amounts] allocates from (lines 652-663),
    although the two read the transaction differently ([x or 0.0] against
    a default for a missing value). *)
Theorem commission_to_send_is_decomposed (transaction : Transaction) (T fiat : Z)
  (parts : Decomposition) :
  tx_crypto_amount transaction = Some T ->
  decompose T fiat (get_or_zero (tx_commission_percentage transaction))
    (get_or_zero (tx_discount transaction)) = Ok parts ->
  commission_to_send transaction = Ok (commission_amount_sats parts).
Proof. exact (commission_to_send_agrees transaction T fiat parts). Qed.

Lemma commission_to_send_is_decomposed_witness :
  commission_to_send sample_transaction = Ok 5000.
Proof.
  apply (commission_to_send_is_decomposed sample_transaction 105000 1000
           {| effective_commission := five_percent;
              base_crypto_atoms := 100000;
              commission_amount_sats := 5000;
              exchange_rate := PFloat (S754_finite false 7036874417766400 (-46)) |});
    [reflexivity | vm_compute; reflexivity].
Defined.

(* ================================================================== *)
(** ** What the allocation hands out *)

Lemma decompose_base_in_domain (T fiat : Z) (c d : float) (parts : Decomposition) :
  0 <= T < 2 ^ 53 -> is_fraction c -> is_percentage d ->
  decompose T fiat c d = Ok parts ->
  0 <= base_crypto_atoms parts <= T.
Proof.
  intros HT Hc Hd Hdec. destruct (decompose_parts _ _ _ _ _ Hdec) as (_ & Hbase & _).
  destruct (PyFloat.gt0 c) eqn:E.
  - destruct Hbase as (f & Hf & _ & Hb).
    destruct (effective_commission_nonneg c d Hc Hd E) as (f' & Hf' & Hnn).
    rewrite Hf in Hf'. injection Hf' as <-.
    destruct (base_crypto_atoms_bounds T f HT Hnn) as (base & Hb' & _ & Hbounds & _).
    rewrite Hb in Hb'. injection Hb' as <-. exact Hbounds.
  - destruct Hbase as [Hbase _]. rewrite Hbase. lia.
Qed.

Lemma decompose_without_fiat (T : Z) (c d : float) :
  0 <= T < 2 ^ 53 -> is_fraction c -> is_percentage d ->
  exists parts, decompose T 0 c d = Ok parts.
Proof.
  intros HT Hc Hd. unfold decompose. destruct (PyFloat.gt0 c) eqn:E.
  - destruct (effective_commission_nonneg c d Hc Hd E) as (f & -> & Hnn). cbn [rbind].
    destruct (base_crypto_atoms_bounds T f HT Hnn) as (base & -> & _). cbn. eauto.
  - cbn. eauto.
Qed.

Lemma below_2_51 (T : Z) : 0 <= T < 2 ^ 51 -> 0 <= T < 2 ^ 53.
Proof.
  intros [H0 H1]. split; [exact H0 |].
  apply Z.lt_trans with (2 ^ 51); [exact H1 | reflexivity].
Qed.

(** X4. Conservation: for a transaction of [T] atomic units with
    [0 <= T < 2^51], a commission percentage that is not [+inf] and a
    discount between 0 and 100, the commission that [process_transaction]
    forwards is not negative and, together with all the shares that
    [calculate_distribution_amounts] returns, never exceeds the [T] units
    credited to the pooled account. *)
Theorem commission_and_shares_within_total {W} (h : handler W) (w : W)
  (transaction : Transaction) (T : Z) (distributions : dict Distribution) :
  let o := run h (calculate_distribution_amounts transaction) w in
  tx_crypto_amount transaction = Some T ->
  0 <= T < 2 ^ 51 ->
  is_fraction (get_or_zero (tx_commission_percentage transaction)) ->
  is_percentage (get_or_zero (tx_discount transaction)) ->
  positive_total (balance_answers (trace o)) <= 2 ^ 1020 ->
  returned o = Ok distributions ->
  exists commission,
    commission_to_send transaction = Ok commission
    /\ 0 <= commission
    /\ commission + total_sats distributions <= T.
Proof.
  intros o HT HT51 Hc Hd Htotal Hret.
  pose proof (below_2_51 T HT51) as HT53.
  destruct (allocation_body h w transaction)
    as (ds & Hret' & _ & _ & [Hnil | (T' & fiat & parts & HT' & _ & Hdec & _ & Hsum)]).
  - fold o in Hret'. rewrite Hret in Hret'. injection Hret' as ->. subst ds.
    destruct (decompose_without_fiat T _ _ HT53 Hc Hd) as (parts & Hdec).
    exists (commission_amount_sats parts).
    split; [exact (commission_to_send_agrees transaction T 0 parts HT Hdec) |].
    destruct (decompose_parts _ _ _ _ _ Hdec) as (Hcom & _).
    pose proof (decompose_base_in_domain _ _ _ _ _ HT53 Hc Hd Hdec) as Hb.
    cbn [total_sats fold_right]. lia.
  - fold o in Hret'. rewrite Hret in Hret'. injection Hret' as ->.
    rewrite HT in HT'. injection HT' as <-.
    exists (commission_amount_sats parts).
    split; [exact (commission_to_send_agrees transaction T fiat parts HT Hdec) |].
    destruct (decompose_parts _ _ _ _ _ Hdec) as (Hcom & _).
    pose proof (decompose_base_in_domain _ _ _ _ _ HT53 Hc Hd Hdec) as Hb.
    fold o in Hsum. specialize (Hsum ltac:(lia) Htotal). lia.
Qed.

Lemma commission_and_shares_within_total_witness :
  exists distributions commission,
    returned (run collaborators (calculate_distribution_amounts sample_transaction)
                world_with_clients) = Ok distributions
    /\ commission_to_send sample_transaction = Ok commission
    /\ 0 <= commission
    /\ commission + total_sats distributions <= 105000.
Proof.
  set (rate := PFloat (S754_finite false 7036874417766400 (-46))).
  set (distributions :=
         [("alice", {| d_fiat_amount := 300; d_sats_amount := 30000;
                       d_exchange_rate := rate |});
          ("bob", {| d_fiat_amount := 700; d_sats_amount := 70000;
                     d_exchange_rate := rate |})]).
  assert (Hret : returned (run collaborators
                             (calculate_distribution_amounts sample_transaction)
                             world_with_clients) = Ok distributions)
    by (vm_compute; reflexivity).
  exists distributions.
  destruct (commission_and_shares_within_total collaborators world_with_clients
              sample_transaction 105000 distributions) as (commission & H).
  - reflexivity.
  - split; [lia | reflexivity].
  - split; [reflexivity | discriminate].
  - repeat split; reflexivity.
  - apply Z.leb_le. vm_compute. reflexivity.
  - exact Hret.
  - exists commission. split; [exact Hret | exact H].
Defined.

Lemma client_share_rate (base : Z) (rate : pynum) (b S : Z) (d : Distribution) :
  client_share base rate b S = Ok d ->
  d_exchange_rate d = rate /\ (pynum_gt0 rate = false -> d_fiat_amount d = 0).
Proof.
  unfold client_share.
  destruct (PyFloat.int_truediv b S) as [p | e]; cbn [rbind]; [| discriminate].
  destruct (PyFloat.of_int base) as [x | e]; cbn [rbind]; [| discriminate].
  destruct (PyFloat.to_int (PyFloat.mul x p)) as [k | e]; cbn [rbind]; [| discriminate].
  destruct (pynum_gt0 rate).
  - destruct (int_div_pynum k rate) as [q | e]; cbn [rbind]; [| discriminate].
    destruct (PyFloat.to_int q) as [fiat | e]; cbn [rbind]; [| discriminate].
    intros H. injection H as <-. split; [reflexivity | discriminate].
  - cbn [rbind]. intros H. injection H as <-. split; reflexivity.
Qed.

(** X5. When the fiat amount of the transaction is zero or negative the
    exchange rate is the integer 0, and every entry of the mapping carries
    that rate and a fiat equivalent of 0, whatever its share (lines 666
    and 703). *)
Theorem no_fiat_no_fiat_equivalent {W} (h : handler W) (w : W)
  (transaction : Transaction) (fiat : Z) (distributions : dict Distribution) :
  tx_fiat_amount transaction = Some fiat -> fiat <= 0 ->
  returned (run h (calculate_distribution_amounts transaction) w) = Ok distributions ->
  forall cid d, In (cid, d) distributions ->
    d_fiat_amount d = 0 /\ d_exchange_rate d = PInt 0.
Proof.
  intros HF Hneg Hret cid d Hin.
  destruct (allocation_body h w transaction)
    as (ds & Hret' & _ & _ & [Hnil | (T & fiat' & parts & _ & HF' & Hdec & Hmem & _)]).
  - rewrite Hret in Hret'. injection Hret' as ->. subst ds. destruct Hin.
  - rewrite Hret in Hret'. injection Hret' as ->.
    rewrite HF in HF'. injection HF' as <-.
    destruct (Hmem cid d Hin) as (b & _ & _ & Hshare & _).
    destruct (decompose_parts _ _ _ _ _ Hdec) as (_ & _ & Hrate).
    assert (E : (0 <? fiat) = false) by (apply Z.ltb_ge; exact Hneg).
    rewrite E in Hrate. rewrite Hrate in Hshare.
    destruct (client_share_rate _ _ _ _ _ Hshare) as [Hr Hf].
    split; [apply Hf; reflexivity | exact Hr].
Qed.

Lemma no_fiat_no_fiat_equivalent_witness :
  exists distributions,
    returned (run collaborators (calculate_distribution_amounts unpriced_transaction)
                (world_with_balances 1 2)) = Ok distributions
    /\ distributions <> []
    /\ forall cid d, In (cid, d) distributions ->
         d_fiat_amount d = 0 /\ d_exchange_rate d = PInt 0.
Proof.
  eexists. split; [vm_compute; reflexivity |]. split; [discriminate |].
  apply (no_fiat_no_fiat_equivalent collaborators (world_with_balances 1 2)
           unpriced_transaction 0);
    [reflexivity | lia | vm_compute; reflexivity].
Defined.

(* ================================================================== *)
(** ** Coroutines that never raise *)

Lemma ensures_run {W A} (Q : list event -> A -> Prop) (p : Prog A) :
  ensures Q p ->
  forall (h : handler W) (w : W),
    exists a, returned (run h p w) = Ok a /\ Q (trace (run h p w)) a.
Proof.
  revert Q. induction p as [a | e | c k IH]; intros Q H h w; cbn in *.
  - eauto.
  - destruct H.
  - destruct (h c w) as [r w1]. cbn. exact (IH r _ (H r) h w1).
Qed.

Lemma ensures_weaken {A} (Q Q' : list event -> A -> Prop) (p : Prog A) :
  (forall t a, Q t a -> Q' t a) -> ensures Q p -> ensures Q' p.
Proof.
  revert Q Q'. induction p as [a | e | c k IH]; intros Q Q' HQ H; cbn in *; auto.
  intros r. apply (IH r (fun t a => Q (Event c r :: t) a)); auto.
Qed.

(** Sequencing: the events of the first part come first. *)
Lemma ensures_bind {A B} (Q : list event -> B -> Prop) (p : Prog A) (f : A -> Prog B) :
  ensures (fun t a => ensures (fun t' b => Q (t ++ t') b) (f a)) p ->
  ensures Q (bind p f).
Proof.
  revert Q. induction p as [a | e | c k IH]; intros Q H; cbn in *.
  - exact H.
  - exact H.
  - intros r. apply IH. exact (H r).
Qed.

(** ** Reading the configuration *)

(** X6. [get_db_config] makes one call, the configuration read, and
    never raises: it returns the connection dictionary built from the
    record read, and [None] both when there is no active record and when
    the read raises. *)
Theorem get_db_config_swallows_errors {W} (h : handler W) (w : W) :
  let read := h get_active_lamassu_config w in
  run h get_db_config w
  = Outcome (Ok match fst read with
                | Ok (Some config) => Some (db_config_of config)
                | Ok None | Err _ => None
                end)
            (snd read)
            [Event get_active_lamassu_config (fst read)].
Proof.
  cbn. destruct (h get_active_lamassu_config w) as [[[config |] | e] w1]; reflexivity.
Qed.

(** ** Queries over ssh *)

(** X7. [execute_ssh_query] never raises.  Without a non-empty private
    key in the connection dictionary it returns the empty list and makes
    no call at all, also when a password is configured; with a key it
    runs the query once and returns its rows, or the empty list when that
    raised. *)
Theorem execute_ssh_query_needs_key {W} (h : handler W) (w : W)
  (db_config : DbConfig) (query : Query) :
  let o := run h (execute_ssh_query db_config query) w in
  let answer := h (run_psql_over_ssh db_config query) w in
  if truthy_str (ssh_private_key db_config)
  then o = Outcome (Ok match fst answer with Ok rows => rows | Err _ => [] end)
                   (snd answer)
                   [Event (run_psql_over_ssh db_config query) (fst answer)]
  else o = Outcome (Ok []) w [].
Proof.
  cbv zeta. unfold execute_ssh_query.
  destruct (truthy_str (ssh_private_key db_config)); [| reflexivity].
  cbn. destruct (h (run_psql_over_ssh db_config query) w) as [[rows | e] w1]; reflexivity.
Qed.

(** ** The tunnel *)

(** X8. [setup_ssh_tunnel] never raises.  When the configuration asks for
    no tunnel it returns the dictionary unchanged and makes no call; when
    ssh support is missing it returns [None] and makes no call; otherwise
    it first closes any tunnel, then opens one and returns what the
    opening returns, and when the opening raises it closes the tunnel
    again and returns [None]. *)
Theorem setup_ssh_tunnel_closes_first {W} (h : handler W) (w : W)
  (SSH_AVAILABLE : bool) (db_config : DbConfig) :
  let o := run h (setup_ssh_tunnel SSH_AVAILABLE db_config) w in
  if negb (use_ssh_tunnel db_config) then o = Outcome (Ok (Some db_config)) w []
  else if negb SSH_AVAILABLE then o = Outcome (Ok None) w []
  else
    let closed := h close_ssh_tunnel_subprocess w in
    let opened := h (open_ssh_tunnel_subprocess db_config) (snd closed) in
    match fst opened with
    | Ok connection_config =>
        o = Outcome (Ok connection_config) (snd opened)
              [Event close_ssh_tunnel_subprocess (fst closed);
               Event (open_ssh_tunnel_subprocess db_config) (fst opened)]
    | Err _ =>
        let closed_again := h close_ssh_tunnel_subprocess (snd opened) in
        o = Outcome (Ok None) (snd closed_again)
              [Event close_ssh_tunnel_subprocess (fst closed);
               Event (open_ssh_tunnel_subprocess db_config) (fst opened);
               Event close_ssh_tunnel_subprocess (fst closed_again)]
    end.
Proof.
  cbv zeta. unfold setup_ssh_tunnel.
  destruct (negb (use_ssh_tunnel db_config)); [reflexivity |].
  destruct (negb SSH_AVAILABLE); [reflexivity |].
  cbn. destruct (h close_ssh_tunnel_subprocess w) as [[[] | e0] w1]; cbn;
    destruct (h (open_ssh_tunnel_subprocess db_config) w1) as [[answer | e1] w2]; cbn;
    try reflexivity;
    destruct (h close_ssh_tunnel_subprocess w2) as [[[] | e2] w3]; reflexivity.
Qed.

(** ** The diagnostic *)

Ltac run_paths :=
  repeat first
    [ progress cbn [ensures bind try_catch await lift attempt]
    | match goal with
      | |- forall r : result _, _ => intros [? | ?]
      | |- context [match ?x with [] => _ | _ :: _ => _ end] => is_var x; destruct x
      | |- ensures _ (match ?x with _ => _ end) => destruct x eqn:?
      | |- ensures _ (if ?x then _ else _) => destruct x eqn:?
      | |- ensures _ (bind (match ?x with _ => _ end) _) => destruct x eqn:?
      | |- ensures _ (bind (if ?x then _ else _) _) => destruct x eqn:?
      | |- ensures _ (try_catch (match ?x with _ => _ end) _) => destruct x eqn:?
      | |- ensures _ (try_catch (if ?x then _ else _) _) => destruct x eqn:?
      end ].

(** What a run of the diagnostic and its report satisfy. *)
Lemma test_connection_detailed_ensures (SSH_AVAILABLE : bool) :
  ensures
    (fun t report =>
       filter persists_test_result (calls t)
       = (if success report && truthy_str (result_config_id report)
          then match result_config_id report with
               | Some cid => [update_config_test_result cid true]
               | None => []
               end
          else [])
       /\ (success report = true ->
           database_connection_success report = true
           /\ message report = "All connection tests passed successfully"
           /\ answered_rows t <> []
           /\ (exists r1 r2 r3,
                 probes t = [(SelectOne, r1); (CountCashOutTxs, r2); (DbTimezone, r3)]
                 /\ r1 <> [] /\ r2 <> [])
           /\ (ssh_tunnel_used report = true ->
               exists connection, tunnels t = [Some connection]))
       /\ (database_connection_success report = true ->
           result_config_id report <> None
           /\ (ssh_tunnel_used report = true -> ssh_tunnel_success report = true))
       /\ (ssh_tunnel_success report = true -> ssh_tunnel_used report = true)
       /\ message report <> ""
       /\ hd_error (steps report) = Some RetrievingConfiguration
       /\ (success report = false -> ~ In DbTimezone (map fst (probes t))))
    (test_connection_detailed SSH_AVAILABLE).
Proof.
  unfold test_connection_detailed, attempt, get_db_config, setup_ssh_tunnel,
    close_ssh_tunnel, execute_ssh_query.
  cbn [bind try_catch await lift ensures].
  intros [[config |] | e]; cbn.
  2, 3: repeat first [split | intro];
    try discriminate; try reflexivity; try congruence; try contradiction.
  destruct (cfg_id config) as [| c0 cid'] eqn:Ecid.
  all: destruct (cfg_use_ssh_tunnel config) eqn:Etunnel, SSH_AVAILABLE; cbn.
  all: destruct (truthy_str (cfg_ssh_private_key config)) eqn:Ekey; cbn.
  all: run_paths.
  all: cbn in *.
  all: repeat match goal with
              | H : Some _ = Some _ |- _ => injection H as <-
              | H : None = Some _ |- _ => discriminate H
              | H : true = false |- _ => discriminate H
              | H : false = true |- _ => discriminate H
              end.
  all: repeat first [split | intro];
    try discriminate; try reflexivity; try congruence;
    try (cbn in *; intuition congruence).
  all: try (eexists; reflexivity).
  all: do 3 eexists; split; [reflexivity | split; intro; congruence].
Qed.

(** X9. [test_connection_detailed] never raises, and it writes the
    stored test result at most once, only for a report that is a success
    and only as [True]: a report that is not a success is never written
    (it leaves by one of the early [return result] of lines 289-337).  A
    report is a success only when the three probes were sent, in order
    (the trivial query, the count of the table, the clock of the
    database), the first two were each answered with at least one row and
    the tunnel, when one is used, was opened; the answer to the third probe
    does not matter.  A report that is not a success never got to the third
    probe. *)
Theorem diagnostic_records_success_only {W} (h : handler W) (w : W)
  (SSH_AVAILABLE : bool) :
  let o := run h (test_connection_detailed SSH_AVAILABLE) w in
  exists report,
    returned o = Ok report
    /\ filter persists_test_result (calls (trace o))
       = (if success report && truthy_str (result_config_id report)
          then match result_config_id report with
               | Some cid => [update_config_test_result cid true]
               | None => []
               end
          else [])
    /\ (success report = true ->
        database_connection_success report = true
        /\ message report = "All connection tests passed successfully"
        /\ answered_rows (trace o) <> []
        /\ (exists r1 r2 r3,
              probes (trace o)
              = [(SelectOne, r1); (CountCashOutTxs, r2); (DbTimezone, r3)]
              /\ r1 <> [] /\ r2 <> [])
        /\ (ssh_tunnel_used report = true ->
            exists connection, tunnels (trace o) = [Some connection]))
    /\ (success report = false -> ~ In DbTimezone (map fst (probes (trace o)))).
Proof.
  cbv zeta.
  destruct (ensures_run _ _ (test_connection_detailed_ensures SSH_AVAILABLE) h w)
    as (report & Hret & Hwritten & Hsuccess & _ & _ & _ & _ & Hfailed).
  exists report. auto.
Qed.

(** X10. The report of [test_connection_detailed] is consistent: a
    database success implies that a configuration was found and that a
    tunnel, if one was used, was established; a tunnel success implies
    that a tunnel was used; an overall success implies a database success;
    the message is never empty; and the first step listed is the retrieval
    of the configuration. *)
Theorem diagnostic_report_is_consistent {W} (h : handler W) (w : W)
  (SSH_AVAILABLE : bool) :
  exists report,
    returned (run h (test_connection_detailed SSH_AVAILABLE) w) = Ok report
    /\ (success report = true -> database_connection_success report = true)
    /\ (database_connection_success report = true ->
        result_config_id report <> None
        /\ (ssh_tunnel_used report = true -> ssh_tunnel_success report = true))
    /\ (ssh_tunnel_success report = true -> ssh_tunnel_used report = true)
    /\ message report <> ""
    /\ hd_error (steps report) = Some RetrievingConfiguration.
Proof.
  destruct (ensures_run _ _ (test_connection_detailed_ensures SSH_AVAILABLE) h w)
    as (report & Hret & _ & Hsuccess & Hdb & Htunnel & Hmsg & Hfirst & _).
  exists report. repeat split; auto; try (apply Hdb; assumption).
  intros H. apply (Hsuccess H).
Qed.

(* ================================================================== *)
(** ** Reading the ledger *)

Lemma not_among_processed (txid : option string) (payments : list DcaPayment) :
  negb (existsb (option_string_eqb txid)
          (map (fun payment => pay_lamassu_transaction_id (p_data payment))
             (filter (fun payment => truthy_str (pay_lamassu_transaction_id (p_data payment)))
                payments))) = true ->
  forall payment, In payment payments ->
    truthy_str (pay_lamassu_transaction_id (p_data payment)) = true ->
    option_string_eqb txid (pay_lamassu_transaction_id (p_data payment)) = false.
Proof.
  intros H payment Hin Htruthy. apply negb_true_iff in H.
  destruct (option_string_eqb txid _) eqn:E; [| reflexivity].
  rewrite <- H. symmetry. apply existsb_exists.
  exists (pay_lamassu_transaction_id (p_data payment)). split; [| exact E].
  apply in_map_iff. exists payment. split; [reflexivity |].
  apply filter_In. auto.
Qed.

(** What the formatted threshold denotes: the normalised datetime, down
    to the second. *)
Lemma threshold_facts (t u : datetime) :
  normalize_utc t = Ok u ->
  tzinfo (strftime_seconds_utc u) = Some 0
  /\ wall_clock (strftime_seconds_utc u) mod 1000000 = 0
  /\ instant (strftime_seconds_utc u) = instant t / 1000000 * 1000000.
Proof.
  intros Hu. pose proof (proj1 (normalize_utc_facts t)) as H. rewrite Hu in H.
  destruct H as (Htz & Hi & _).
  unfold strftime_seconds_utc, instant in *. cbn [tzinfo wall_clock].
  rewrite Htz in Hi. split; [reflexivity |].
  split; [apply Z.mod_mul; lia |].
  rewrite <- Hi. rewrite !Z.sub_0_r. reflexivity.
Qed.

Lemma add_timedelta_instant (now t : datetime) (delta : Z) :
  add_timedelta now delta = Ok t -> instant t = instant now + delta.
Proof.
  unfold add_timedelta. destruct (representable _); [| discriminate].
  intros H. injection H as <-. unfold instant. cbn [tzinfo wall_clock].
  destruct (tzinfo now); lia.
Qed.

Lemma fetch_new_transactions_ensures (db_config : DbConfig) :
  ensures
    (fun t new_transactions =>
       (forall tx, In tx new_transactions ->
          In tx (answered_rows t)
          /\ forall payment, In payment (answered_payments t) ->
               truthy_str (pay_lamassu_transaction_id (p_data payment)) = true ->
               option_string_eqb (tx_transaction_id tx)
                 (pay_lamassu_transaction_id (p_data payment)) = false)
       /\ (forall db q, In (run_psql_over_ssh db q) (calls t) ->
             db = db_config
             /\ exists time_threshold_str,
                  q = NewCashOutTxs time_threshold_str
                  /\ tzinfo time_threshold_str = Some 0
                  /\ wall_clock time_threshold_str mod 1000000 = 0
                  /\ (forall last, In last (answered_watermarks t) ->
                        instant time_threshold_str = instant last / 1000000 * 1000000)
                  /\ (answered_watermarks t = [] ->
                      exists now,
                        In now (answered_clock t)
                        /\ instant time_threshold_str
                           = (instant now - hours_24) / 1000000 * 1000000)))
    (fetch_new_transactions db_config).
Proof.
  unfold fetch_new_transactions, execute_ssh_query.
  cbn [bind try_catch await lift ensures].
  assert (Hleaf : forall (t : list event) (rows : list Transaction)
                         (payments : list DcaPayment) tx,
             In tx (filter
                      (fun tx =>
                         negb (existsb (option_string_eqb (tx_transaction_id tx))
                                 (map (fun payment =>
                                         pay_lamassu_transaction_id (p_data payment))
                                    (filter (fun payment =>
                                               truthy_str
                                                 (pay_lamassu_transaction_id
                                                    (p_data payment)))
                                       payments)))) rows) ->
             In tx rows
             /\ forall payment, In payment payments ->
                  truthy_str (pay_lamassu_transaction_id (p_data payment)) = true ->
                  option_string_eqb (tx_transaction_id tx)
                    (pay_lamassu_transaction_id (p_data payment)) = false).
  { intros _ rows payments tx Hin. apply filter_In in Hin. destruct Hin as [Hin Hf].
    split; [exact Hin |]. now apply not_among_processed. }
  assert (Hshift : forall now t u,
             add_timedelta now (- hours_24) = Ok t -> normalize_utc t = Ok u ->
             instant (strftime_seconds_utc u) = (instant now - hours_24) / 1000000 * 1000000).
  { intros now t u Ht Hu. rewrite (proj2 (proj2 (threshold_facts t u Hu))).
    rewrite (add_timedelta_instant now t _ Ht). f_equal. }
  intros [[config |] | e]; cbn [bind try_catch await lift ensures].
  3:{ cbn. split; [intros tx [] |]. intros db q [H | []]. discriminate. }
  - destruct config as [? ? ? ? ? ? ? ? ? ? ? ? ? ? ? [last |] ?];
      cbn [bind try_catch await lift ensures].
    + destruct (normalize_utc last) as [u | e] eqn:Eu;
        cbn [bind try_catch await lift ensures].
      2:{ cbn. split; [intros tx [] |]. intros db q [H | []]. discriminate. }
      destruct (threshold_facts last u Eu) as (Htz & Hmod & Hi).
      destruct (truthy_str (ssh_private_key db_config)) eqn:Ekey; cbn.
      * intros [rows | e]; cbn; intros [payments | e']; cbn.
        all: try rewrite !app_nil_r.
        all: split; [intros tx Hin; try (destruct Hin; fail);
                     try (apply (Hleaf [] rows payments); exact Hin) |].
        all: intros db q [H | [H | [H | []]]]; try discriminate;
          injection H as <- <-; split; [reflexivity |];
          exists (strftime_seconds_utc u);
          split; [reflexivity |];
          split; [exact Htz |];
          split; [exact Hmod |];
          split; [intros l [<- | []]; exact Hi | discriminate].
      * intros [payments | e']; cbn.
        all: split; [intros tx [] |].
        all: intros db q [H | [H | []]]; discriminate.
    + intros [now | e]; cbn [bind try_catch await lift ensures].
      2:{ cbn. split; [intros tx [] |]. intros db q [H | [H | []]]; discriminate. }
      destruct (add_timedelta now (- hours_24)) as [t | e] eqn:Et;
        cbn [bind try_catch await lift ensures].
      2:{ cbn. split; [intros tx [] |]. intros db q [H | [H | []]]; discriminate. }
      destruct (normalize_utc t) as [u | e] eqn:Eu;
        cbn [bind try_catch await lift ensures].
      2:{ cbn. split; [intros tx [] |]. intros db q [H | [H | []]]; discriminate. }
      destruct (threshold_facts t u Eu) as (Htz & Hmod & _).
      destruct (truthy_str (ssh_private_key db_config)) eqn:Ekey; cbn.
      * intros [rows | e]; cbn; intros [payments | e']; cbn.
        all: try rewrite !app_nil_r.
        all: split; [intros tx Hin; try (destruct Hin; fail);
                     try (apply (Hleaf [] rows payments); exact Hin) |].
        all: intros db q [H | [H | [H | [H | []]]]]; try discriminate;
          injection H as <- <-; split; [reflexivity |];
          eexists; split; [reflexivity |];
          split; [exact Htz |];
          split; [exact Hmod |];
          split; [intros l [] |];
          intros _; exists now; split; [now left | exact (Hshift now t u Et Eu)].
      * intros [payments | e']; cbn.
        all: split; [intros tx [] |].
        all: intros db q [H | [H | [H | []]]]; discriminate.
  - intros [now | e]; cbn [bind try_catch await lift ensures].
    2:{ cbn. split; [intros tx [] |]. intros db q [H | [H | []]]; discriminate. }
    destruct (add_timedelta now (- hours_24)) as [t | e] eqn:Et;
      cbn [bind try_catch await lift ensures].
    2:{ cbn. split; [intros tx [] |]. intros db q [H | [H | []]]; discriminate. }
    destruct (normalize_utc t) as [u | e] eqn:Eu;
      cbn [bind try_catch await lift ensures].
    2:{ cbn. split; [intros tx [] |]. intros db q [H | [H | []]]; discriminate. }
    destruct (threshold_facts t u Eu) as (Htz & Hmod & _).
    destruct (truthy_str (ssh_private_key db_config)) eqn:Ekey; cbn.
    + intros [rows | e]; cbn; intros [payments | e']; cbn.
      all: try rewrite !app_nil_r.
      all: split; [intros tx Hin; try (destruct Hin; fail);
                   try (apply (Hleaf [] rows payments); exact Hin) |].
      all: intros db q [H | [H | [H | [H | []]]]]; try discriminate;
        injection H as <- <-; split; [reflexivity |];
        eexists; split; [reflexivity |];
        split; [exact Htz |];
        split; [exact Hmod |];
        split; [intros l [] |];
        intros _; exists now; split; [now left | exact (Hshift now t u Et Eu)].
    + intros [payments | e']; cbn.
      all: split; [intros tx [] |].
      all: intros db q [H | [H | [H | []]]]; discriminate.
Qed.

(** X11. [fetch_new_transactions] never raises, and every transaction it
    returns is a row that the remote query answered with and whose
    identifier is not the (non-empty) Lamassu identifier of any payment
    that the local database listed: transactions that already have a
    payment are filtered out before processing. *)
Theorem fetch_skips_processed {W} (h : handler W) (w : W) (db_config : DbConfig) :
  let o := run h (fetch_new_transactions db_config) w in
  exists new_transactions,
    returned o = Ok new_transactions
    /\ forall tx, In tx new_transactions ->
         In tx (answered_rows (trace o))
         /\ forall payment, In payment (answered_payments (trace o)) ->
              truthy_str (pay_lamassu_transaction_id (p_data payment)) = true ->
              option_string_eqb (tx_transaction_id tx)
                (pay_lamassu_transaction_id (p_data payment)) = false.
Proof.
  cbv zeta.
  destruct (ensures_run _ _ (fetch_new_transactions_ensures db_config) h w)
    as (txs & Hret & Hrows & _).
  exists txs. auto.
Qed.

(** X12. Every remote query of [fetch_new_transactions] goes to the
    database it was given and asks for the rows confirmed after a
    threshold that is a UTC time in whole seconds: the instant of the last
    successful poll, when the configuration read carries one, and
    otherwise 24 hours before the reading of the clock, in both cases
    rounded down to the second (the threshold is formatted without its
    microseconds). *)
Theorem fetch_threshold_is_utc {W} (h : handler W) (w : W) (db_config : DbConfig) :
  let o := run h (fetch_new_transactions db_config) w in
  forall db q, In (run_psql_over_ssh db q) (calls (trace o)) ->
    db = db_config
    /\ exists time_threshold_str,
         q = NewCashOutTxs time_threshold_str
         /\ tzinfo time_threshold_str = Some 0
         /\ wall_clock time_threshold_str mod 1000000 = 0
         /\ (forall last, In last (answered_watermarks (trace o)) ->
               instant time_threshold_str = instant last / 1000000 * 1000000)
         /\ (answered_watermarks (trace o) = [] ->
             exists now,
               In now (answered_clock (trace o))
               /\ instant time_threshold_str
                  = (instant now - hours_24) / 1000000 * 1000000).
Proof.
  cbv zeta.
  destruct (ensures_run _ _ (fetch_new_transactions_ensures db_config) h w)
    as (txs & _ & _ & Hq).
  exact Hq.
Qed.

(* ================================================================== *)
(** ** Settlement *)

Ltac leaves :=
  cbn in *;
  repeat match goal with
         | H : Some _ = Some _ |- _ => injection H as <-
         | H : None = Some _ |- _ => discriminate H
         | H : Some _ = None |- _ => discriminate H
         | H : true = false |- _ => discriminate H
         | H : false = true |- _ => discriminate H
         end;
  repeat first [split | eexists]; intros; try discriminate; try reflexivity;
  try congruence; eauto.

(** X13. [credit_source_wallet] never raises and credits at most once:
    when it makes no credit it returns [False]; when it makes one, the
    amount is the transaction's full crypto amount and the result tells
    whether the credit went through. *)
Theorem credit_source_wallet_credits_once {W} (h : handler W) (w : W)
  (transaction : Transaction) :
  let o := run h (credit_source_wallet transaction) w in
  exists credit_success,
    returned o = Ok credit_success
    /\ match credits (trace o) with
       | [] => credit_success = false
       | [(wallet, amount, went_through)] =>
           amount = tx_crypto_amount transaction /\ credit_success = went_through
       | _ => False
       end.
Proof.
  cbv zeta.
  apply (ensures_run
           (fun t credit_success =>
              match credits t with
              | [] => credit_success = false
              | [(wallet, amount, went_through)] =>
                  amount = tx_crypto_amount transaction /\ credit_success = went_through
              | _ => False
              end)).
  unfold credit_source_wallet.
  cbn [bind try_catch await lift ensures].
  intros [[config |] | e]; cbn; try reflexivity.
  destruct (nonempty (cfg_source_wallet_id config)) as [source |]; cbn; try reflexivity.
  intros [[wallet |] | e]; cbn; try reflexivity.
  intros [[] | e]; cbn; split; reflexivity.
Qed.

Ltac run_paths_more :=
  repeat first
    [ progress cbn [ensures bind try_catch await lift]
    | match goal with
      | |- forall r : result _, _ => intros [? | ?]
      | |- ensures _ (match ?x with _ => _ end) => destruct x eqn:?
      | |- ensures _ (if ?x then _ else _) => destruct x eqn:?
      | |- ensures _ ?p =>
          match p with
          | context [match ?x with _ => _ end] => is_var x; destruct x
          | context [lift ?x] => destruct x eqn:?
          | context [nonempty ?x] => destruct (nonempty x) eqn:?
          | context [if ?x then _ else _] => destruct x eqn:?
          end
      end ].

(** X14. [send_dca_payment] never raises.  It asks for at most one
    invoice, of exactly the share of the distribution and tagged with the
    client and the transaction; it pays at most one invoice, and then the
    very invoice it was answered with, with the same memo and tags, and
    its result tells whether that payment went through.  Without an
    invoice it returns [False] and pays nothing. *)
Theorem send_dca_payment_pays_its_invoice {W} (h : handler W) (w : W)
  (client : DcaClient) (distribution : Distribution)
  (lamassu_transaction_id : option string) :
  let o := run h (send_dca_payment client distribution lamassu_transaction_id) w in
  exists success,
    returned o = Ok success
    /\ match invoices_created (trace o) with
       | [] => success = false /\ invoices_paid (trace o) = []
       | [(wallet, amount, memo, extra, invoice)] =>
           amount = d_sats_amount distribution
           /\ extra = DcaDistribution (c_id client) lamassu_transaction_id
                        (d_sats_amount distribution)
           /\ match invoices_paid (trace o) with
              | [] => invoice = None -> success = false
              | [(payment_request, source, memo', extra', went_through)] =>
                  exists answered,
                    invoice = Some answered
                    /\ payment_request = bolt11 answered
                    /\ memo' = memo /\ extra' = extra
                    /\ success = went_through
              | _ => False
              end
       | _ => False
       end.
Proof.
  cbv zeta.
  apply (ensures_run
           (fun t success =>
              match invoices_created t with
              | [] => success = false /\ invoices_paid t = []
              | [(wallet, amount, memo, extra, invoice)] =>
                  amount = d_sats_amount distribution
                  /\ extra = DcaDistribution (c_id client) lamassu_transaction_id
                               (d_sats_amount distribution)
                  /\ match invoices_paid t with
                     | [] => invoice = None -> success = false
                     | [(payment_request, source, memo', extra', went_through)] =>
                         exists answered,
                           invoice = Some answered
                           /\ payment_request = bolt11 answered
                           /\ memo' = memo /\ extra' = extra
                           /\ success = went_through
                     | _ => False
                     end
              | _ => False
              end)).
  unfold send_dca_payment. run_paths_more. all: leaves.
Qed.

(** X15. [send_commission_payment] never raises.  It asks for at most
    one invoice, of exactly the commission amount and tagged as the
    commission of the transaction; it pays at most one invoice, and then
    the invoice it was answered with, and its result tells whether the
    payment went through; an invoice that is not paid makes it return
    [False].  Without an invoice nothing is paid. *)
Theorem send_commission_payment_pays_its_invoice {W} (h : handler W) (w : W)
  (transaction : Transaction) (commission_amount_sats : Z) :
  let o := run h (send_commission_payment transaction commission_amount_sats) w in
  exists success,
    returned o = Ok success
    /\ match invoices_created (trace o) with
       | [] => invoices_paid (trace o) = []
       | [(wallet, amount, memo, extra, invoice)] =>
           amount = commission_amount_sats
           /\ extra = DcaCommission (tx_transaction_id transaction) commission_amount_sats
           /\ match invoices_paid (trace o) with
              | [] => success = false
              | [(payment_request, source, memo', extra', went_through)] =>
                  exists answered,
                    invoice = Some answered
                    /\ payment_request = bolt11 answered
                    /\ memo' = memo
                    /\ extra' = DcaCommissionPayment (tx_transaction_id transaction)
                    /\ success = went_through
              | _ => False
              end
       | _ => False
       end.
Proof.
  cbv zeta.
  apply (ensures_run
           (fun t success =>
              match invoices_created t with
              | [] => invoices_paid t = []
              | [(wallet, amount, memo, extra, invoice)] =>
                  amount = commission_amount_sats
                  /\ extra = DcaCommission (tx_transaction_id transaction)
                               commission_amount_sats
                  /\ match invoices_paid t with
                     | [] => success = false
                     | [(payment_request, source, memo', extra', went_through)] =>
                         exists answered,
                           invoice = Some answered
                           /\ payment_request = bolt11 answered
                           /\ memo' = memo
                           /\ extra' = DcaCommissionPayment (tx_transaction_id transaction)
                           /\ success = went_through
                     | _ => False
                     end
              | _ => False
              end)).
  unfold send_commission_payment. run_paths_more. all: leaves.
Qed.

(* ================================================================== *)
(** ** What the processing of a transaction calls *)

Ltac within_paths :=
  repeat first [ within_step | exact I | split ].

Lemma within_distribute_loop (allowed : call -> Prop) (transaction_id : option string)
  (distributions : dict Distribution) :
  allowed get_flow_mode_clients ->
  within allowed (distribute_loop transaction_id distributions).
Proof.
  intros Hallowed.
  induction distributions as [| [client_id distribution] rest IH];
    cbn [distribute_loop].
  - constructor.
  - apply within_bind; [| intros; exact IH].
    unfold distribute_to_client, await. cbn.
    constructor; [exact Hallowed |]. intros [flow_clients | e]; cbn; [| constructor].
    destruct (find _ flow_clients); constructor.
Qed.

(** After its lookup of existing payments, [process_transaction] never
    looks up again, never writes a payment record or a stored transaction,
    and creates or pays no invoice but the commission's. *)
Lemma process_transaction_after_lookup (transaction : Transaction) :
  exists k,
    process_transaction transaction
    = Call (get_payments_by_lamassu_transaction (tx_transaction_id transaction)) k
    /\ forall r, within (fun c => commission_only c /\ no_lookup c) (k r).
Proof.
  eexists. split; [reflexivity |].
  intros [existing_payments | e]; cbn [bind try_catch]; [| constructor].
  apply within_try_catch; [| constructor].
  destruct existing_payments; [| constructor].
  apply within_bind; [unfold credit_source_wallet; within_paths |].
  intros credit_success. destruct (negb credit_success); [constructor |].
  rewrite store_lamassu_transaction_is_none. cbn [bind].
  apply within_bind; [apply within_calculate_reads; intros; split; exact I |].
  intros [| entry rest]; [constructor |].
  apply within_bind; [apply within_lift |]. intros commission_amount_sats.
  apply within_bind.
  { unfold distribute_to_clients. apply within_try_catch; [| constructor].
    apply within_distribute_loop. split; exact I. }
  intros _. cbn [nonempty truthy_str].
  apply within_bind; [| intros; constructor].
  destruct (0 <? commission_amount_sats); [| constructor].
  apply within_bind; [| intros; constructor].
  unfold send_commission_payment. within_paths.
Qed.

(** X16. [process_transaction] never raises, never writes a payment
    record ([create_dca_payment], [update_dca_payment_status]) or a stored
    transaction ([create_lamassu_transaction],
    [update_lamassu_transaction_distribution_stats]), and the only
    invoices it creates or pays are those tagged as the commission: no
    participant is paid by it. *)
Theorem process_transaction_commission_only {W} (h : handler W) (w : W)
  (transaction : Transaction) :
  let o := run h (process_transaction transaction) w in
  returned o = Ok tt /\ Forall commission_only (calls (trace o)).
Proof.
  cbv zeta. split; [apply process_transaction_returns |].
  destruct (process_transaction_after_lookup transaction) as (k & -> & Hk).
  cbn. destruct (h _ w) as [r w1]. cbn. constructor; [exact I |].
  pose proof (within_trace _ _ (Hk r) h w1) as H.
  eapply Forall_impl; [| exact H]. intros c [Hc _]. exact Hc.
Qed.

Lemma lookups_none (cs : list call) : Forall no_lookup cs -> lookups cs = [].
Proof.
  induction 1 as [| c cs Hc _ IH]; [reflexivity |].
  unfold lookups in *. cbn [flat_map]. rewrite IH. destruct c; try reflexivity.
  destruct Hc.
Qed.

Lemma lookups_app (a b : list call) : lookups (a ++ b) = lookups a ++ lookups b.
Proof. unfold lookups. apply flat_map_app. Qed.

(** X17. The loop of [poll_and_process] attempts every fetched
    transaction, in order, whatever happens to the ones before it: the
    lookups of existing payments it makes are exactly the identifiers of
    the fetched transactions, one each. *)
Theorem every_fetched_transaction_is_looked_up {W} (h : handler W)
  (new_transactions : list Transaction) :
  forall w : W,
    lookups (calls (trace (run h (process_all new_transactions) w)))
    = map tx_transaction_id new_transactions.
Proof.
  induction new_transactions as [| transaction rest IH]; intro w; [reflexivity |].
  rewrite run_process_all_cons. cbv zeta. cbn [trace].
  unfold calls. rewrite map_app. fold (calls (trace (run h (process_transaction transaction) w))).
  rewrite lookups_app. cbn [map]. unfold calls in IH. rewrite IH.
  destruct (process_transaction_after_lookup transaction) as (k & -> & Hk).
  cbn. destruct (h _ w) as [r w1]. cbn. f_equal.
  rewrite lookups_none; [reflexivity |].
  pose proof (within_trace _ _ (Hk r) h w1) as H.
  eapply Forall_impl; [| exact H]. intros c [_ Hc]. exact Hc.
Qed.

(* ================================================================== *)
(** ** The order of the balance queries *)

Lemma removelast_cons_Forall {A} (P : A -> Prop) (x : A) (l : list A) :
  P x -> Forall P (removelast l) -> Forall P (removelast (x :: l)).
Proof.
  intros Hx Hl. destruct l as [| y l]; [constructor |].
  change (removelast (x :: y :: l)) with (x :: removelast (y :: l)).
  constructor; assumption.
Qed.

(** The first loop asks the participants in order and stops at the first
    query that raises. *)
Lemma collect_balances_calls {W} (h : handler W) (transaction_time : option datetime)
  (flow_clients : list DcaClient) :
  forall client_balances total (w : W),
    let o := run h (collect_balances transaction_time flow_clients
                      client_balances total) w in
    exists n,
      calls (trace o)
      = map (fun c => get_client_balance_summary (c_id c) transaction_time)
          (firstn n flow_clients)
      /\ (n <= List.length flow_clients)%nat
      /\ Forall (fun ev => answered ev = true) (removelast (trace o))
      /\ (Forall (fun ev => answered ev = true) (trace o) ->
          n = List.length flow_clients).
Proof.
  induction flow_clients as [| client rest IH]; intros cb total w;
    cbn [collect_balances].
  - exists 0%nat. cbn. repeat split; auto.
  - cbv zeta. rewrite run_bind, run_await. unfold and_then. cbn [returned final trace].
    destruct (h (get_client_balance_summary (c_id client) transaction_time) w)
      as [[balance | e] w1]; cbn [fst snd returned final trace].
    + set (b := remaining_balance balance).
      set (cb' := if 0 <? b then dict_set cb (c_id client) b else cb).
      set (total' := if 0 <? b then total + b else total).
      assert (Hk : (if 0 <? b
                    then collect_balances transaction_time rest
                           (dict_set cb (c_id client) b) (total + b)
                    else collect_balances transaction_time rest cb total)
                   = collect_balances transaction_time rest cb' total')
        by (unfold cb', total'; destruct (0 <? b); reflexivity).
      rewrite Hk. destruct (IH cb' total' w1) as (n & Hn & Hle & Hbut & Hall).
      exists (S n). cbn [app calls map ev_call firstn List.length].
      split; [unfold calls in Hn; now rewrite Hn |].
      split; [lia |]. split.
      * apply removelast_cons_Forall; [reflexivity | exact Hbut].
      * intros H. inversion H as [| ev t _ Hrest]; subst. now rewrite (Hall Hrest).
    + exists 1%nat. cbn [app calls map ev_call firstn List.length].
      split; [reflexivity |]. split; [lia |]. split; [constructor |].
      intros H. inversion H as [| ev t Hev _]; subst. discriminate Hev.
Qed.

(** X18. [calculate_distribution_amounts] only reads: its first call
    asks for the Flow Mode clients, and the calls that follow are balance
    queries, as of the transaction's normalised time, for the first [n] of
    the clients in the order they were listed, one each.  Every call but
    the last was answered: the loop stops at the first query that raises.
    A transaction whose time cannot be normalised, without a crypto amount
    or a fiat amount, or whose decomposition raises, is refused before any
    balance is queried; for any other transaction, when no call raised
    every client has been asked. *)
Theorem calculate_queries_in_order {W} (h : handler W) (w : W)
  (transaction : Transaction) :
  let o := run h (calculate_distribution_amounts transaction) w in
  let flow_clients :=
    match fst (h get_flow_mode_clients w) with
    | Ok flow_clients => flow_clients
    | Err _ => []
    end in
  let as_of :=
    match normalize_if_present (tx_transaction_time transaction) with
    | Ok transaction_time => transaction_time
    | Err _ => None
    end in
  exists n,
    calls (trace o)
    = get_flow_mode_clients
      :: map (fun c => get_client_balance_summary (c_id c) as_of) (firstn n flow_clients)
    /\ (n <= List.length flow_clients)%nat
    /\ Forall (fun ev => answered ev = true) (removelast (trace o))
    /\ (refused transaction -> n = 0%nat)
    /\ (Forall (fun ev => answered ev = true) (trace o) ->
        n = List.length flow_clients \/ refused transaction).
Proof.
  cbv zeta. unfold calculate_distribution_amounts. rewrite run_try_catch_default.
  cbn [trace]. rewrite run_bind, run_await. unfold and_then.
  cbn [returned final trace fst snd].
  destruct (h get_flow_mode_clients w) as [[flow_clients | e] w1];
    cbn [fst snd returned final trace].
  2:{ exists 0%nat. cbn. repeat split; auto; try constructor. }
  destruct flow_clients as [| client rest].
  { exists 0%nat. cbn. repeat split; auto; try constructor. }
  destruct (normalize_if_present (tx_transaction_time transaction))
    as [as_of | e] eqn:Etime; cbn [lift bind].
  2:{ exists 0%nat. cbn [run trace app firstn map calls ev_call removelast].
      split; [reflexivity |]. split; [lia |]. split; [constructor |].
      split; [reflexivity |]. intros _. right. left. eauto. }
  destruct (tx_crypto_amount transaction) as [T |] eqn:ET.
  2:{ exists 0%nat. cbn [run trace app firstn map calls ev_call removelast].
      split; [reflexivity |]. split; [lia |]. split; [constructor |].
      split; [reflexivity |]. intros _. right. right. left. exact ET. }
  destruct (tx_fiat_amount transaction) as [fiat |] eqn:EF.
  2:{ exists 0%nat. cbn [run trace app firstn map calls ev_call removelast].
      split; [reflexivity |]. split; [lia |]. split; [constructor |].
      split; [reflexivity |]. intros _. right. right. right. left. exact EF. }
  change (match tx_commission_percentage transaction with
          | Some c => c | None => PyFloat.zero end)
    with (get_or_zero (tx_commission_percentage transaction)).
  change (match tx_discount transaction with
          | Some d => d | None => PyFloat.zero end)
    with (get_or_zero (tx_discount transaction)).
  destruct (decompose T fiat (get_or_zero (tx_commission_percentage transaction))
              (get_or_zero (tx_discount transaction))) as [parts | e] eqn:ED;
    cbn [lift bind].
  2:{ exists 0%nat. cbn [run trace app firstn map calls ev_call removelast].
      split; [reflexivity |]. split; [lia |]. split; [constructor |].
      split; [reflexivity |]. intros _. right. right. right. right.
      exists T, fiat, e. auto. }
  assert (Hnot : ~ refused transaction).
  { unfold refused. rewrite Etime, ET, EF.
    intros [[e H] | [H | [H | (T' & fiat' & e & HT & HF & H)]]]; try discriminate.
    injection HT as <-. injection HF as <-. rewrite ED in H. discriminate. }
  rewrite run_bind. unfold and_then.
  destruct (collect_balances_calls h as_of (client :: rest) [] 0 w1)
    as (n & Hn & Hle & Hbut & Hall).
  set (o1 := run h (collect_balances as_of (client :: rest) [] 0) w1) in *.
  destruct (returned o1) as [[client_balances total] | e];
    [destruct (total =? 0); [| destruct (share_out _ _ _ _ _)];
     cbn [lift run trace]; rewrite app_nil_r |];
    cbn [trace app];
    (exists n; split; [cbn [calls map ev_call]; unfold calls in Hn; now rewrite Hn |];
     split; [exact Hle |];
     split; [apply removelast_cons_Forall; [reflexivity | exact Hbut] |];
     split; [intros H; contradiction |];
     intros H; left; inversion H as [| ev t _ Hrest]; subst; exact (Hall Hrest)).
Qed.

(* ================================================================== *)
(** ** A configuration without a private key *)

Lemma fetch_without_key (db_config : DbConfig) :
  truthy_str (ssh_private_key db_config) = false ->
  ensures
    (fun t new_transactions =>
       new_transactions = []
       /\ existsb reaches_remote (calls t) = false
       /\ lookups (calls t) = [])
    (fetch_new_transactions db_config).
Proof.
  intros Hkey. unfold fetch_new_transactions, execute_ssh_query. rewrite Hkey.
  run_paths_more. all: cbn; repeat split; reflexivity.
Qed.

(** X19. With a configuration that carries no private key (password
    authentication, for instance) a poll cycle never reaches the remote
    host and looks no transaction up, and still, once the attempted
    watermark has been written, it ends by writing the successful-poll
    watermark: the cycle counts as a success although nothing could be
    fetched. *)
Theorem poll_without_key_fetches_nothing {W} (h : handler W) (w w1 : W)
  (cfg : LamassuConfig) :
  h get_active_lamassu_config w = (Ok (Some cfg), w1) ->
  truthy_str (cfg_ssh_private_key cfg) = false ->
  let o := run h poll_and_process w in
  let tested := h (update_config_test_result (cfg_id cfg) true) w1 in
  let started := h (update_poll_start_time (cfg_id cfg)) (snd tested) in
  existsb reaches_remote (calls (trace o)) = false
  /\ lookups (calls (trace o)) = []
  /\ (fst started = Ok tt ->
      In (update_poll_success_time (cfg_id cfg)) (calls (trace o))).
Proof.
  intros Hcfg Hkey. cbv zeta.
  destruct (poll_cycle_trace W h w w1 cfg Hcfg) as (rest & Htrace & Hrest).
  cbv zeta in Hrest. rewrite Htrace. cbn [calls map ev_call existsb reaches_remote orb].
  change (lookups (get_active_lamassu_config
                   :: update_config_test_result (cfg_id cfg) true
                   :: update_poll_start_time (cfg_id cfg) :: map ev_call rest))
    with (lookups (map ev_call rest)).
  destruct (fst (h (update_poll_start_time (cfg_id cfg))
                   (snd (h (update_config_test_result (cfg_id cfg) true) w1))))
    as [[] | e] eqn:Estart.
  2:{ subst rest. repeat split. discriminate. }
  destruct Hrest as (new_transactions & Hfetched & _ & Hrest & _).
  destruct (ensures_run _ _ (fetch_without_key (db_config_of cfg) Hkey) h
              (snd (h (update_poll_start_time (cfg_id cfg))
                      (snd (h (update_config_test_result (cfg_id cfg) true) w1)))))
    as (txs & Hret & -> & Hremote & Hlook).
  rewrite Hret in Hfetched. injection Hfetched as <-.
  cbn [process_all run trace app] in Hrest. subst rest.
  rewrite map_app. cbn [map ev_call].
  unfold calls in Hremote, Hlook.
  rewrite existsb_app, Hremote, lookups_app, Hlook. cbn.
  repeat split. intros _. right; right; right. apply in_or_app. right. now left.
Qed.

Lemma poll_without_key_fetches_nothing_witness :
  let o := run collaborators poll_and_process world_password_only in
  existsb reaches_remote (calls (trace o)) = false
  /\ lookups (calls (trace o)) = []
  /\ In (update_poll_success_time "cfg-2") (calls (trace o)).
Proof.
  cbv zeta.
  destruct (poll_without_key_fetches_nothing collaborators world_password_only
              world_password_only password_only_config eq_refl eq_refl)
    as (Hremote & Hlook & Hsuccess).
  split; [exact Hremote |]. split; [exact Hlook |]. apply Hsuccess. reflexivity.
Defined.

(* ================================================================== *)
(** ** Closing the tunnel *)

(** X20. [close_ssh_tunnel] leaves no tunnel behind, whatever fails on
    the way: afterwards the process attribute is [None] and both path
    attributes are unset.  The process is killed exactly when
    terminating it or waiting for it raised; an unlink is attempted
    exactly for a path that was set and is not empty; and closing again attempts nothing and changes
    nothing. *)
Theorem close_ssh_tunnel_clears (self : Tunnel.Processor) (script : list bool) :
  let '(closed, ops, rest) := Tunnel.close_ssh_tunnel self script in
  Tunnel.ssh_process closed = None
  /\ Tunnel.unset (Tunnel.ssh_key_path closed)
  /\ Tunnel.unset (Tunnel.ssh_config_path closed)
  /\ (forall pid, In (Tunnel.kill pid) ops <->
        Tunnel.ssh_process self = Some pid
        /\ (nth 0 script true = false \/ nth 1 script true = false))
  /\ (forall path, In (Tunnel.unlink path) ops <->
        path <> ""
        /\ (Tunnel.ssh_key_path self = Some path
            \/ Tunnel.ssh_config_path self = Some path))
  /\ forall script', Tunnel.close_ssh_tunnel closed script' = (closed, [], script').
Proof.
  destruct self as [[pid |] key config];
    destruct key as [[| k0 key] |], config as [[| c0 config] |];
    destruct script as [| [] [| [] script]];
    unfold Tunnel.close_ssh_tunnel, Tunnel.unset;
    cbn -[nth In];
    repeat match goal with
           | |- context [Tunnel.perform ?s] =>
               destruct (Tunnel.perform s) as [? ?]; cbn -[nth In]
           end;
    (split; [reflexivity |]); (split; [reflexivity |]); (split; [reflexivity |]);
    (split; [| split; [| intros; reflexivity]]);
    intros x; cbn; split; intros H;
    repeat match goal with
           | H : _ \/ _ |- _ => destruct H
           | H : _ /\ _ |- _ => destruct H
           | H : False |- _ => destruct H
           | H : Tunnel.kill _ = Tunnel.kill _ |- _ => injection H as <-
           | H : Tunnel.unlink _ = Tunnel.unlink _ |- _ => injection H as <-
           | H : Some _ = Some _ |- _ => injection H as <-
           end;
    try discriminate; try congruence; auto 6;
    try (split; [discriminate | auto]).
Qed.

(* ================================================================== *)
(** ** How far the base is from the exact quotient *)

Lemma add_one_rounded (mf : positive) (ef : Z) :
  rounded (1 + F2Q (Zpos mf) ef) (PyFloat.add (PyFloat.lit 1) (S754_finite false mf ef)).
Proof.
  rewrite lit_1. unfold PyFloat.add. cbn [SFadd cond_Zopp]. set (ez := Z.min (-52) ef).
  pose proof (shl_align_spec 4503599627370496 (-52) ez) as S1.
  pose proof (shl_align_spec mf ef ez) as S2.
  destruct (shl_align 4503599627370496 (-52) ez) as [m1 z1].
  destruct (shl_align mf ef ez) as [m2 z2].
  destruct S1 as [Hz1 Hm1]. destruct S2 as [Hz2 Hm2]. cbn [fst].
  change (Zpos m1 + Zpos m2) with (Zpos (m1 + m2)). cbn [binary_normalize].
  apply binary_round_rounded.
  assert (H1 : (F2Q (Zpos 4503599627370496) (-52) == 1)%Q) by (vm_compute; reflexivity).
  rewrite <- H1.
  rewrite Pos2Z.inj_add, Hm1, Hm2, Hz1, Hz2.
  replace (Z.min (-52) ez) with ez by (unfold ez; lia).
  replace (Z.min ef ez) with ez by (unfold ez; lia).
  rewrite <- (F2Q_align (Zpos 4503599627370496) (-52) ez) by (unfold ez; lia).
  rewrite <- (F2Q_align (Zpos mf) ef ez) by (unfold ez; lia).
  unfold F2Q. rewrite inject_Z_plus. ring.
Qed.

Lemma quotient_algebra (K Tq v Y Q' : Q) :
  (1 <= v)%Q -> (0 <= Tq)%Q -> (Tq <= 2251799813685248)%Q ->
  (v * (1 - unit_roundoff) <= Y)%Q -> (Y <= v * (1 + unit_roundoff))%Q ->
  (Tq * (1 - unit_roundoff) <= Q' * Y)%Q -> (Q' * Y <= Tq * (1 + unit_roundoff))%Q ->
  (0 <= K)%Q -> (K <= Q')%Q -> (Q' < K + 1)%Q ->
  ((K - 1) * v <= Tq)%Q /\ (Tq < (K + 2) * v)%Q.
Proof.
  intros Hv HT0 HT Hy1 Hy2 Hq1 Hq2 HK0 HK1 HK2.
  rewrite unit_roundoff_value in *.
  assert (HY : (0 < Y)%Q) by lra.
  (* K * v * (1 - u) <= K * Y <= Q' * Y *)
  pose proof (Qmult_le_compat_l_nonneg _ _ K HK0 Hy1) as M1.
  assert (M2 : (K * Y <= Q' * Y)%Q) by (apply Qmult_le_compat_r; lra).
  (* Q' * Y < (K + 1) * Y <= (K + 1) * v * (1 + u) *)
  assert (M3 : (Q' * Y < (K + 1) * Y)%Q) by (apply Qmult_lt_compat_r; lra).
  assert (HK1' : (0 <= K + 1)%Q) by lra.
  pose proof (Qmult_le_compat_l_nonneg _ _ (K + 1) HK1' Hy2) as M4.
  assert (E1 : (K * (v * (1 - (1 # 9007199254740992)))
                == K * v * (1 - (1 # 9007199254740992)))%Q) by ring.
  assert (E2 : ((K + 1) * (v * (1 + (1 # 9007199254740992)))
                == (K * v + v) * (1 + (1 # 9007199254740992)))%Q) by ring.
  assert (E3 : ((K + 1) * Y == K * Y + Y)%Q) by ring.
  assert (E4 : ((K - 1) * v == K * v - v)%Q) by ring.
  assert (E5 : ((K + 2) * v == K * v + 2 * v)%Q) by ring.
  rewrite E1 in M1. rewrite E2 in M4. rewrite E3 in M3, M4. rewrite E4, E5.
  set (A := (K * v)%Q) in *. set (KY := (K * Y)%Q) in *. set (QY := (Q' * Y)%Q) in *.
  clearbody A KY QY. clear - Hv HT0 HT Hq1 Hq2 M1 M2 M3 M4.
  split; lra.
Qed.

Lemma inject_Z_pred (k : Z) : (inject_Z (k - 1) == inject_Z k - 1)%Q.
Proof. unfold Z.sub. rewrite inject_Z_plus. reflexivity. Qed.

Lemma inject_Z_plus2 (k : Z) : (inject_Z (k + 2) == inject_Z k + 2)%Q.
Proof. rewrite inject_Z_plus. reflexivity. Qed.

Lemma base_crypto_atoms_near (T : Z) (f : float) (base : Z) :
  0 <= T < 2 ^ 51 -> nonneg_float f -> f <> S754_infinity false ->
  base_crypto_atoms_of T f = Ok base ->
  (inject_Z (base - 1) * (1 + SF2Q f) <= inject_Z T)%Q
  /\ (inject_Z T < inject_Z (base + 2) * (1 + SF2Q f))%Q.
Proof.
  intros HT Hf Hfin Hb. pose proof (below_2_51 T HT) as HT53.
  assert (HT0 : (0 <= inject_Z T)%Q) by (apply inject_Z_nonneg; lia).
  assert (HT51 : (inject_Z T <= 2251799813685248)%Q).
  { change 2251799813685248%Q with (inject_Z (2 ^ 51)). rewrite <- Zle_Qle. lia. }
  rewrite inject_Z_pred, inject_Z_plus2.
  destruct Hf as [-> | [-> | (mf & ef & -> & Hbf)]]; [| contradiction |].
  - (* f = 0: the quotient is T itself *)
    destruct (base_crypto_atoms_bounds T (S754_zero false) HT53 (or_introl eq_refl))
      as (base' & Hb' & _ & _ & Heq).
    rewrite Hb in Hb'. injection Hb' as <-. rewrite (Heq eq_refl).
    cbn [SF2Q]. split; lra.
  - cbn [SF2Q cond_Zopp].
    assert (HF : (0 <= F2Q (Zpos mf) ef)%Q) by (apply F2Q_nonneg; lia).
    set (v := (1 + F2Q (Zpos mf) ef)%Q) in *.
    assert (Hv : (1 <= v)%Q) by (unfold v; lra).
    pose proof (pow2_pos (-1021)) as Hpp.
    assert (Hp1 : (pow2 (-1021) <= 1)%Q).
    { rewrite <- pow2_0. apply pow2_le. lia. }
    unfold base_crypto_atoms_of in Hb.
    destruct (of_int_small T HT53) as (x & Hx & Hxnn & Hxfin & Hxv).
    rewrite Hx in Hb. cbn [rbind] in Hb.
    pose proof (add_one_rounded mf ef) as (Hynn & Hyfin & _ & Hyrel).
    fold v in Hyfin, Hyrel.
    set (y := PyFloat.add (PyFloat.lit 1) (S754_finite false mf ef)) in *.
    destruct Hynn as [Hz | [Hi | (my & ey & Hm & Hby)]].
    + (* 1 + f cannot round to zero *)
      exfalso. assert (Hn : y <> S754_infinity false) by (rewrite Hz; discriminate).
      destruct (Hyrel Hn) as [_ Hge]. specialize (Hge Hv). rewrite Hz in Hge.
      cbn [SF2Q] in Hge. lra.
    + (* 1 + f overflows: the quotient is 0 *)
      assert (Hbig : (pow2 1023 <= v)%Q).
      { destruct (Qlt_le_dec v (pow2 1023)) as [Hlt | Hge]; [| exact Hge].
        exfalso. exact (Hyfin Hlt Hi). }
      assert (base = 0).
      { rewrite Hi in Hb. unfold PyFloat.div, PyFloat.ieee_div in Hb.
        cbn [PyFloat.is_zero rbind] in Hb.
        destruct Hxnn as [-> | [-> | (mx & ex & -> & _)]]; [| contradiction |];
          cbn in Hb; injection Hb as <-; reflexivity. }
      subst base. change (inject_Z 0) with 0%Q.
      assert (Hp : (inject_Z T < pow2 1023)%Q).
      { apply Qle_lt_trans with (1 := HT51).
        apply Qlt_le_trans with (pow2 52); [reflexivity | apply pow2_le; lia]. }
      split; lra.
    + assert (Hn : y <> S754_infinity false) by (rewrite Hm; discriminate).
      destruct (Hyrel Hn) as [Hrel Hge]. specialize (Hrel ltac:(lra)).
      specialize (Hge Hv). rewrite Hm in Hrel, Hge. cbn [SF2Q cond_Zopp] in Hrel, Hge.
      destruct Hrel as [Hylo Hyhi]. rewrite Hm in Hb.
      set (Y := F2Q (Zpos my) ey) in *.
      unfold PyFloat.div, PyFloat.ieee_div in Hb. cbn [PyFloat.is_zero rbind] in Hb.
      destruct Hxnn as [-> | [-> | (mx & ex & -> & Hbx)]]; [| contradiction |].
      * (* T = 0 *)
        cbn in Hb. injection Hb as <-. cbn [SF2Q] in Hxv.
        change (inject_Z 0) with 0%Q. rewrite <- Hxv. split; lra.
      * cbn [SF2Q cond_Zopp] in Hxv.
        set (v' := (inject_Z T / Y)%Q).
        assert (Hv'Y : (v' * Y == inject_Z T)%Q) by (unfold v'; field; lra).
        assert (Hdiv : (v' * F2Q (Zpos my) ey == F2Q (Zpos mx) ex)%Q)
          by (rewrite Hxv; exact Hv'Y).
        pose proof (div_rounded mx my ex ey v' Hdiv) as (Hqnn & _ & Hqmono & Hqrel).
        set (q := SFdiv PyFloat.prec PyFloat.emax (S754_finite false mx ex)
                    (S754_finite false my ey)) in *.
        assert (Hv'0 : (0 <= v')%Q) by (unfold v'; apply Qle_shift_div_l; lra).
        assert (Hv'T : (v' <= F2Q (Zpos mx) ex)%Q).
        { rewrite Hxv, <- Hv'Y.
          assert (H1 : (v' * 1 <= v' * Y)%Q)
            by (apply Qmult_le_compat_l_nonneg; assumption).
          lra. }
        destruct (Hqmono mx ex Hbx Hv'T) as (Hqfin & _ & _).
        destruct (to_int_nonneg q Hqnn Hqfin) as (k & Hk & _ & Hk0 & Hklo & Hkhi).
        rewrite Hk in Hb. injection Hb as <-.
        assert (HK0 : (0 <= inject_Z k)%Q) by (apply inject_Z_nonneg; exact Hk0).
        destruct (Qlt_le_dec (inject_Z T) Y) as [Hsmall | Hlarge].
        -- (* the quotient is below 1: the base is 0 or 1 *)
           assert (Hone : bounded PyFloat.prec PyFloat.emax 4503599627370496 (-52) = true)
             by reflexivity.
           assert (H1 : (F2Q (Zpos 4503599627370496) (-52) == 1)%Q)
             by (vm_compute; reflexivity).
           assert (Hv'1 : (v' <= F2Q (Zpos 4503599627370496) (-52))%Q).
           { rewrite H1. unfold v'. apply Qle_shift_div_r; lra. }
           destruct (Hqmono _ _ Hone Hv'1) as (_ & Hq1 & _). rewrite H1 in Hq1.
           assert (Hk1 : k <= 1).
           { apply inject_Z_le_inv. change (inject_Z 1) with 1%Q. lra. }
           rewrite unit_roundoff_value in Hyhi.
           assert (k = 0 \/ k = 1) as [-> | ->] by lia;
             [change (inject_Z 0) with 0%Q | change (inject_Z 1) with 1%Q];
             split; lra.
        -- assert (Hv'1 : (1 <= v')%Q) by (unfold v'; apply Qle_shift_div_l; lra).
           destruct (Hqrel Hqfin) as [Hrel _]. specialize (Hrel ltac:(lra)).
           destruct Hrel as [Hqlo Hqhi].
           assert (HY0 : (0 <= Y)%Q) by lra.
           pose proof (Qmult_le_compat_r _ _ Y Hqlo HY0) as P1.
           pose proof (Qmult_le_compat_r _ _ Y Hqhi HY0) as P2.
           assert (E1 : (v' * (1 - unit_roundoff) * Y
                         == inject_Z T * (1 - unit_roundoff))%Q)
             by (rewrite <- Hv'Y; ring).
           assert (E2 : (v' * (1 + unit_roundoff) * Y
                         == inject_Z T * (1 + unit_roundoff))%Q)
             by (rewrite <- Hv'Y; ring).
           rewrite E1 in P1. rewrite E2 in P2.
           exact (quotient_algebra (inject_Z k) (inject_Z T) v Y (SF2Q q)
                    Hv HT0 HT51 Hylo Hyhi P1 P2 HK0 Hklo Hkhi).
Qed.

(** X22. For a total [T] with [0 <= T < 2^51], a commission percentage
    that is not [+inf] and a discount between 0 and 100, the base amount
    is within one unit of the exact quotient of [T] by [1 + f], [f] the
    effective fraction as a double: [base - 1 <= T / (1 + f) < base + 2],
    so rounding in [1 + f] and in the division moves the base by at most
    one atomic unit. *)
Theorem base_is_near_exact_quotient (T fiat : Z) (c d : float) (parts : Decomposition) :
  0 <= T < 2 ^ 51 -> is_fraction c -> is_percentage d ->
  decompose T fiat c d = Ok parts ->
  effective_commission parts <> S754_infinity false ->
  (inject_Z (base_crypto_atoms parts - 1) * (1 + SF2Q (effective_commission parts))
   <= inject_Z T)%Q
  /\ (inject_Z T
      < inject_Z (base_crypto_atoms parts + 2)
        * (1 + SF2Q (effective_commission parts)))%Q.
Proof.
  intros HT Hc Hd Hdec Hfin.
  destruct (decompose_parts _ _ _ _ _ Hdec) as (_ & Hbase & _).
  destruct (PyFloat.gt0 c) eqn:E.
  - destruct Hbase as (f & Hf & Hfeq & Hb). rewrite Hfeq in *.
    destruct (effective_commission_nonneg c d Hc Hd E) as (f' & Hf' & Hnn).
    rewrite Hf in Hf'. injection Hf' as <-.
    exact (base_crypto_atoms_near T f _ HT Hnn Hfin Hb).
  - destruct Hbase as [-> ->]. cbn [SF2Q PyFloat.zero].
    rewrite inject_Z_pred, inject_Z_plus2. split; lra.
Qed.

Lemma base_is_near_exact_quotient_witness :
  (inject_Z (100000 - 1) * (1 + SF2Q five_percent) <= inject_Z 105000)%Q
  /\ (inject_Z 105000 < inject_Z (100000 + 2) * (1 + SF2Q five_percent))%Q.
Proof.
  apply (base_is_near_exact_quotient 105000 1000 five_percent no_discount
           {| effective_commission := five_percent;
              base_crypto_atoms := 100000;
              commission_amount_sats := 5000;
              exchange_rate := PFloat (S754_finite false 7036874417766400 (-46)) |}).
  - split; [lia | reflexivity].
  - split; [reflexivity | discriminate].
  - repeat split; reflexivity.
  - vm_compute. reflexivity.
  - discriminate.
Defined.

(** At a first poll (no watermark yet) with the clock a quarter of a
    second past a whole second, the threshold asked is 24 hours before the
    clock, without the quarter. *)
Lemma fetch_threshold_is_utc_witness :
  exists time_threshold_str,
    In (run_psql_over_ssh (db_config_of sample_config) (NewCashOutTxs time_threshold_str))
       (calls (trace (run collaborators
                        (fetch_new_transactions (db_config_of sample_config))
                        world_between_seconds)))
    /\ tzinfo time_threshold_str = Some 0
    /\ instant (clock world_between_seconds) - hours_24 = 1699914200250000
    /\ instant time_threshold_str = 1699914200000000.
Proof.
  set (threshold := {| wall_clock := 1699914200000000; tzinfo := Some 0 |}).
  assert (Hin : In (run_psql_over_ssh (db_config_of sample_config)
                      (NewCashOutTxs threshold))
                   (calls (trace (run collaborators
                                    (fetch_new_transactions (db_config_of sample_config))
                                    world_between_seconds))))
    by (vm_compute; right; right; left; reflexivity).
  destruct (fetch_threshold_is_utc collaborators world_between_seconds
              (db_config_of sample_config) _ _ Hin)
    as (_ & time_threshold_str & Hq & Htz & _ & _ & Hnow).
  injection Hq as <-. exists threshold. split; [exact Hin |]. split; [exact Htz |].
  split; [reflexivity |].
  destruct (Hnow eq_refl) as (now & Hclock & Hinstant).
  vm_compute in Hclock. destruct Hclock as [<- | []].
  rewrite Hinstant. reflexivity.
Defined.

(* ================================================================== *)
(** ** One credit per transaction *)

Lemma credits_none (t : list event) : Forall no_credit (calls t) -> credits t = [].
Proof.
  induction t as [| [c r] t IH]; intros H; [reflexivity |].
  cbn [calls map ev_call] in H. inversion H as [| c' l Hc Hl]; subst.
  unfold credits in *. cbn [flat_map]. unfold calls in IH. rewrite (IH Hl).
  destruct c; try reflexivity. destruct Hc.
Qed.

Lemma credits_app (a b : list event) : credits (a ++ b) = credits a ++ credits b.
Proof. unfold credits. apply flat_map_app. Qed.

Lemma credit_source_wallet_ensures (transaction : Transaction) :
  ensures
    (fun t credit_success =>
       match credits t with
       | [] => credit_success = false
       | [(wallet, amount, went_through)] =>
           amount = tx_crypto_amount transaction /\ credit_success = went_through
       | _ => False
       end)
    (credit_source_wallet transaction).
Proof.
  unfold credit_source_wallet.
  cbn [bind try_catch await lift ensures].
  intros [[config |] | e]; cbn; try reflexivity.
  destruct (nonempty (cfg_source_wallet_id config)) as [source |]; cbn; try reflexivity.
  intros [[wallet |] | e]; cbn; try reflexivity.
  intros [[] | e]; cbn; split; reflexivity.
Qed.

Lemma within_after_credit (transaction : Transaction) :
  within no_credit
    (stored_transaction <- store_lamassu_transaction transaction ;;
     distributions <- calculate_distribution_amounts transaction ;;
     match distributions with
     | [] => Ret tt
     | _ :: _ =>
         commission_amount_sats <- lift (commission_to_send transaction) ;;
         distribute_to_clients transaction distributions ;;
         (if 0 <? commission_amount_sats
          then send_commission_payment transaction commission_amount_sats ;; Ret tt
          else Ret tt) ;;
         match nonempty stored_transaction with
         | Some stored_transaction =>
             let clients_count := Z.of_nat (List.length distributions) in
             let distributions_total_sats := total_sats distributions in
             await (update_lamassu_transaction_distribution_stats
                      stored_transaction clients_count distributions_total_sats)
         | None => Ret tt
         end
     end).
Proof.
  rewrite store_lamassu_transaction_is_none. cbn [bind].
  apply within_bind; [apply within_calculate_reads; intros; exact I |].
  intros [| entry rest]; [constructor |].
  apply within_bind; [apply within_lift |]. intros commission_amount_sats.
  apply within_bind.
  { unfold distribute_to_clients. apply within_try_catch; [| constructor].
    apply within_distribute_loop. exact I. }
  intros _. cbn [nonempty truthy_str].
  apply within_bind; [| intros; constructor].
  destruct (0 <? commission_amount_sats); [| constructor].
  apply within_bind; [| intros; constructor].
  unfold send_commission_payment. within_paths.
Qed.

(** X23. A call of [process_transaction] credits the pooled account at
    most once, with exactly the transaction's full crypto amount, and not
    at all when the lookup found a payment for the transaction or
    raised. *)
Theorem process_transaction_credits_once {W} (h : handler W) (w : W)
  (transaction : Transaction) :
  let o := run h (process_transaction transaction) w in
  let lookup :=
    fst (h (get_payments_by_lamassu_transaction (tx_transaction_id transaction)) w) in
  match credits (trace o) with
  | [] => True
  | [(wallet, amount, went_through)] =>
      amount = tx_crypto_amount transaction /\ lookup = Ok []
  | _ => False
  end.
Proof.
  cbv zeta. unfold process_transaction. rewrite run_try_catch_default. cbn [trace].
  rewrite run_bind, run_await. unfold and_then. cbn [returned final trace fst snd].
  destruct (h (get_payments_by_lamassu_transaction (tx_transaction_id transaction)) w)
    as [[existing_payments | e] w1]; cbn [fst snd returned final trace];
    [| exact I].
  destruct existing_payments as [| payment rest]; [| exact I].
  rewrite run_bind. unfold and_then.
  destruct (ensures_run _ _ (credit_source_wallet_ensures transaction) h w1)
    as (credit_success & Hret & Hcredit).
  rewrite Hret. cbn [trace app].
  change (credits (Event (get_payments_by_lamassu_transaction
                            (tx_transaction_id transaction)) (Ok [])
                   :: ?t)) with (credits t).
  rewrite credits_app.
  assert (Hrest : forall w2,
             credits (trace (run h
                (if negb credit_success then Ret tt
                 else
                   stored_transaction <- store_lamassu_transaction transaction ;;
                   distributions <- calculate_distribution_amounts transaction ;;
                   match distributions with
                   | [] => Ret tt
                   | _ :: _ =>
                       commission_amount_sats <- lift (commission_to_send transaction) ;;
                       distribute_to_clients transaction distributions ;;
                       (if 0 <? commission_amount_sats
                        then send_commission_payment transaction commission_amount_sats ;;
                             Ret tt
                        else Ret tt) ;;
                       match nonempty stored_transaction with
                       | Some stored_transaction =>
                           let clients_count := Z.of_nat (List.length distributions) in
                           let distributions_total_sats := total_sats distributions in
                           await (update_lamassu_transaction_distribution_stats
                                    stored_transaction clients_count
                                    distributions_total_sats)
                       | None => Ret tt
                       end
                   end) w2)) = []).
  { intros w2. apply credits_none. apply within_trace.
    destruct (negb credit_success); [constructor | apply within_after_credit]. }
  rewrite Hrest, app_nil_r.
  destruct (credits (trace (run h (credit_source_wallet transaction) w1)))
    as [| [[wallet amount] went_through] [| second more]]; auto.
  destruct Hcredit as [Hamount _]. auto.
Qed.
